(** * MatrixHttpApi: content upload, upload registry and cancellation

    A shallow embedding of [src/http-api/index.ts] (class [MatrixHttpApi]):
    [uploadContent], [cancelUpload], [getCurrentUploads], and the callbacks
    that [uploadContent] installs on its transport, its timer, its deferred
    and its [AbortController].

    JavaScript objects that the code compares by identity (upload records,
    promises, abort controllers) live in arenas; a reference is the index of
    the object in its arena.  The run-to-completion discipline of the event
    loop is explicit: every callback of the host is followed by a microtask
    checkpoint, in which the [finally] reactions of settled deferreds run. *)

From stdpp Require Import base option list strings sorting.
From Stdlib Require Import ZArith Lia.

(** ** JavaScript values the code manipulates *)

(** Error objects.  [DOMException] and [Error] are the host's classes,
    [ConnectionError] is the one of [./errors]; [HostError] stands for any
    other error object made by a collaborator ([MatrixError], [HTTPError],
    [SyntaxError], ...), of which only [name] and [message] are observed. *)
Inductive JsError : Type :=
| DOMException (message name : string)
| Error (message : string)
| ConnectionError (message : string) (cause : JsError)
| HostError (name message : string).

Definition err_name (e : JsError) : string :=
  match e with
  | DOMException _ n => n
  | Error _ => "Error"
  | ConnectionError _ _ => "ConnectionError"
  | HostError n _ => n
  end.

(** Outcome of evaluating an expression that may throw. *)
Inductive Completion (A : Type) : Type :=
| Normal (a : A)
| Throw (e : JsError).
Arguments Normal {A} a.
Arguments Throw {A} e.

(** State of a promise. *)
Inductive Settlement (A : Type) : Type :=
| Pending
| Resolved (v : A)
| Rejected (e : JsError).
Arguments Pending {A}.
Arguments Resolved {A} v.
Arguments Rejected {A} e.

Definition settled {A} (p : Settlement A) : bool :=
  match p with Pending => false | _ => true end.

(** JS truthiness of the optional strings and flags the code tests. *)
Definition truthy_string (o : option string) : bool :=
  match o with
  | Some s => negb (String.eqb s "")
  | None => false
  end.

Definition truthy_flag (o : option bool) : bool := default false o.

(** [a ?? b] *)
Definition nullish {A} (a b : option A) : option A :=
  match a with Some _ => a | None => b end.

(** ** Data model *)

(** The payload ([FileType]); [file_type] and [file_name] are present on a
    [File], absent on a [Buffer] or a string. *)
Record FileType := {
  file_type : option string;
  file_name : option string;
  file_body : string;
}.

(** [UploadOpts], with the fields the documentation of [uploadContent]
    lists.  [opt_abortController] is a reference into the controller arena. *)
Record UploadOpts := {
  opt_name : option string;
  opt_includeFilename : option bool;
  opt_type : option string;
  opt_rawResponse : option bool;
  opt_onlyContentUri : option bool;
  opt_progressHandler : bool;
  opt_abortController : option nat;
}.

(** [this.opts] ([IHttpOpts]), the fields this file reads. *)
Record HttpOpts := {
  baseUrl : string;
  accessToken : option string;
  useAuthorizationHeader : option bool;
  onlyData : option bool;
}.

Record URL := {
  href : string;
  searchParams : list (string * string);
}.

(** [URLSearchParams.set]: the first pair named [k] takes the value, the
    other pairs named [k] go; with no such pair, one is appended. *)
Fixpoint searchParams_set (k v : string) (l : list (string * string))
  : list (string * string) :=
  match l with
  | [] => [(k, v)]
  | (k', v') :: r =>
      if String.eqb k' k
      then (k, v) :: filter (λ p, p.1 ≠ k) r
      else (k', v') :: searchParams_set k v r
  end.

Definition url_set (k v : string) (u : URL) : URL :=
  {| href := href u; searchParams := searchParams_set k v (searchParams u) |}.

(** What an [XMLHttpRequest] exposes of its response. *)
Record XhrResponse := {
  status : Z;
  statusText : string;
  responseText : string;
  contentType : option string;
}.

Definition network_error : XhrResponse :=
  {| status := 0; statusText := ""; responseText := ""; contentType := None |}.

Definition UNSENT : Z := 0.
Definition OPENED : Z := 1.
Definition HEADERS_RECEIVED : Z := 2.
Definition LOADING : Z := 3.
Definition DONE : Z := 4.

Record XHR := {
  readyState : Z;
  send_flag : bool;
  response : XhrResponse;
  req_method : string;
  req_url : option URL;
  req_headers : list (string * string);
  req_body : option FileType;
}.

Definition xhr_new : XHR :=
  {| readyState := UNSENT; send_flag := false; response := network_error;
     req_method := ""; req_url := None; req_headers := []; req_body := None |}.

Definition xhr_open (m : string) (u : URL) (x : XHR) : XHR :=
  {| readyState := OPENED; send_flag := false; response := network_error;
     req_method := m; req_url := Some u; req_headers := []; req_body := None |}.

Definition xhr_setRequestHeader (k v : string) (x : XHR) : XHR :=
  {| readyState := readyState x; send_flag := send_flag x; response := response x;
     req_method := req_method x; req_url := req_url x;
     req_headers := req_headers x ++ [(k, v)]; req_body := req_body x |}.

Definition xhr_send (body : FileType) (x : XHR) : XHR :=
  {| readyState := readyState x; send_flag := true; response := response x;
     req_method := req_method x; req_url := req_url x;
     req_headers := req_headers x; req_body := Some body |}.

(** The host moves the request to state [rs] with response [r]. *)
Definition xhr_receive (rs : Z) (r : XhrResponse) (x : XHR) : XHR :=
  {| readyState := rs;
     send_flag := if (rs =? DONE)%Z then false else send_flag x;
     response := r;
     req_method := req_method x; req_url := req_url x;
     req_headers := req_headers x; req_body := req_body x |}.

(** A request is in flight between [send] and its terminal state. *)
Definition in_flight (x : XHR) : bool :=
  ((readyState x =? OPENED)%Z && send_flag x)
  || (readyState x =? HEADERS_RECEIVED)%Z || (readyState x =? LOADING)%Z.

(** The call handed to [authedRequest] by the delegated strategy. *)
Record AuthedRequest := {
  ar_method : string;
  ar_path : string;
  ar_query : list (string * string);
  ar_body : FileType;
  ar_prefix : string;
  ar_headers : list (string * string);
  ar_abortSignal : nat;
}.

Inductive Transport : Type :=
| ViaXhr (x : XHR)
| ViaAuthedRequest (r : AuthedRequest).

(** Listeners that [uploadContent] adds to the signal of its controller:
    the one of the streaming branch ([xhr.abort()]) and the common one
    (leave the registry, reject the deferred). *)
Inductive Listener : Type :=
| AbortXhr (u : nat)
| AbortUpload (u : nat).

Record AbortController := {
  aborted : bool;
  listeners : list Listener;
}.

Definition new_controller : AbortController :=
  {| aborted := false; listeners := [] |}.

Definition add_listener (l : Listener) (c : AbortController) : AbortController :=
  {| aborted := aborted c; listeners := listeners c ++ [l] |}.

Definition fire (c : AbortController) : AbortController :=
  {| aborted := true; listeners := listeners c |}.

(** ** Collaborators

    Functions of the host and of sibling modules that [index.ts] calls.
    Their results are values of this file's types; how they compute them is
    theirs. *)
Class Collaborators := {
  Json : Type;
  Response : Type;
  (** [JSON.parse] *)
  JSON_parse : string → Completion Json;
  (** [parseErrorResponse] of [./utils]: returns the error object for a
      response with status at least 400, or throws. *)
  parseErrorResponse : XhrResponse → string → Completion JsError;
  encodeURIComponent : string → string;
  (** [Response.json()], as it settles. *)
  response_json : Response → Completion Json;
  (** [MediaPrefix.R0] of [./prefix]. *)
  MediaPrefix_R0 : string;
}.

(** [utils.removeElement(array, fn)]: drops the first element that [fn]
    accepts, if there is one.

    Modelled from the spec: [utils.removeElement] is not in the sources; the
    registry's [remove(handle)] is idempotent, removing an absent handle is a
    no-op. *)
Fixpoint removeElement {A} (fn : A → bool) (array : list A) : list A :=
  match array with
  | [] => []
  | x :: r => if fn x then r else x :: removeElement fn r
  end.

(** [FetchHttpApi.getUrl(path, undefined, prefix)].

    Modelled from the spec: [getUrl] is inherited from [./fetch]; the wire
    contract is [<base><media-prefix>/upload] followed by the query
    parameters that [uploadContent] itself sets. *)
Definition getUrl (cfg : HttpOpts) (path prefix : string) : URL :=
  {| href := baseUrl cfg +:+ prefix +:+ path; searchParams := [] |}.

(** A pending callback of [realtime-callbacks]: the upload whose
    [timeoutFn] it runs, and the time at which it is due. *)
Definition TimerEntry : Type := nat * Z.

(** Keeps the callback list ordered by due time. *)
Fixpoint insert_timer (e : TimerEntry) (l : list TimerEntry) : list TimerEntry :=
  match l with
  | [] => [e]
  | h :: t => if (h.2 <=? e.2)%Z then h :: insert_timer e t else e :: l
  end.

Section MatrixHttpApi.
Context `{Collaborators}.

(** What the completion future resolves to: [JSON.parse(xhr.responseText)]
    or [response.json()], or the value of [authedRequest] as it is. *)
Inductive UploadResponse : Type :=
| ParsedBody (j : Json)
| AsIs (r : Response).

(** An [Upload] record, with the objects that the closures of
    [uploadContent] share with it: the deferred, the transport. *)
Record Upload := {
  loaded : Z;
  total : Z;
  abortController : nat;
  deferred : Settlement UploadResponse;
  promise : Settlement UploadResponse;
  transport : Transport;
  progressHandler : bool;
  progress_calls : list (Z * Z);
}.

Definition with_deferred (r : Settlement UploadResponse) (up : Upload) : Upload :=
  {| loaded := loaded up; total := total up; abortController := abortController up;
     deferred := r; promise := promise up; transport := transport up;
     progressHandler := progressHandler up; progress_calls := progress_calls up |}.

Definition with_promise (r : Settlement UploadResponse) (up : Upload) : Upload :=
  {| loaded := loaded up; total := total up; abortController := abortController up;
     deferred := deferred up; promise := r; transport := transport up;
     progressHandler := progressHandler up; progress_calls := progress_calls up |}.

Definition with_transport (t : Transport) (up : Upload) : Upload :=
  {| loaded := loaded up; total := total up; abortController := abortController up;
     deferred := deferred up; promise := promise up; transport := t;
     progressHandler := progressHandler up; progress_calls := progress_calls up |}.

Definition with_progress (l t : Z) (up : Upload) : Upload :=
  {| loaded := l; total := t; abortController := abortController up;
     deferred := deferred up; promise := promise up; transport := transport up;
     progressHandler := progressHandler up;
     progress_calls :=
       if progressHandler up then progress_calls up ++ [(l, t)] else progress_calls up |}.

(** The instance of [MatrixHttpApi] together with the part of the host it
    acts on.  [uploads] is [this.uploads]; [heap] and [controllers] are the
    arenas of upload records and abort controllers; [timers] is the callback
    list of [realtime-callbacks]; [jobs] is the microtask queue, holding the
    [finally] reactions of the deferreds settled in the current task. *)
Record Api := {
  opts : HttpOpts;
  has_XMLHttpRequest : bool;
  uploads : list nat;
  heap : list Upload;
  controllers : list AbortController;
  timers : list TimerEntry;
  jobs : list nat;
  now : Z;
}.

Definition set_uploads (l : list nat) (s : Api) : Api :=
  {| opts := opts s; has_XMLHttpRequest := has_XMLHttpRequest s; uploads := l;
     heap := heap s; controllers := controllers s; timers := timers s;
     jobs := jobs s; now := now s |}.

Definition set_heap (h : list Upload) (s : Api) : Api :=
  {| opts := opts s; has_XMLHttpRequest := has_XMLHttpRequest s; uploads := uploads s;
     heap := h; controllers := controllers s; timers := timers s;
     jobs := jobs s; now := now s |}.

Definition set_controllers (c : list AbortController) (s : Api) : Api :=
  {| opts := opts s; has_XMLHttpRequest := has_XMLHttpRequest s; uploads := uploads s;
     heap := heap s; controllers := c; timers := timers s;
     jobs := jobs s; now := now s |}.

Definition set_timers (t : list TimerEntry) (s : Api) : Api :=
  {| opts := opts s; has_XMLHttpRequest := has_XMLHttpRequest s; uploads := uploads s;
     heap := heap s; controllers := controllers s; timers := t;
     jobs := jobs s; now := now s |}.

Definition set_jobs (j : list nat) (s : Api) : Api :=
  {| opts := opts s; has_XMLHttpRequest := has_XMLHttpRequest s; uploads := uploads s;
     heap := heap s; controllers := controllers s; timers := timers s;
     jobs := j; now := now s |}.

Definition set_now (t : Z) (s : Api) : Api :=
  {| opts := opts s; has_XMLHttpRequest := has_XMLHttpRequest s; uploads := uploads s;
     heap := heap s; controllers := controllers s; timers := timers s;
     jobs := jobs s; now := t |}.

(** A fresh instance: [private uploads: Upload[] = []]. *)
Definition new_api (cfg : HttpOpts) (xhr_available : bool) : Api :=
  {| opts := cfg; has_XMLHttpRequest := xhr_available; uploads := [];
     heap := []; controllers := []; timers := []; jobs := []; now := 0 |}.

Definition update (u : nat) (f : Upload → Upload) (s : Api) : Api :=
  set_heap (alter f u (heap s)) s.

Definition deferred_of (s : Api) (u : nat) : Settlement UploadResponse :=
  match heap s !! u with Some up => deferred up | None => Pending end.

Definition promise_of (s : Api) (u : nat) : Settlement UploadResponse :=
  match heap s !! u with Some up => promise up | None => Pending end.

Definition xhr_of (s : Api) (u : nat) : option XHR :=
  match heap s !! u with
  | Some up => match transport up with ViaXhr x => Some x | _ => None end
  | None => None
  end.

Definition request_of (s : Api) (u : nat) : option AuthedRequest :=
  match heap s !! u with
  | Some up => match transport up with ViaAuthedRequest r => Some r | _ => None end
  | None => None
  end.

Definition controller_of (s : Api) (u : nat) : option nat :=
  abortController <$> heap s !! u.

(** ** The deferred and its [finally] reaction *)

(** [defer.resolve(v)] and [defer.reject(e)]: the first call settles the
    deferred and queues its reaction; later calls do nothing. *)
Definition settle (u : nat) (r : Settlement UploadResponse) (s : Api) : Api :=
  match heap s !! u with
  | Some up =>
      match deferred up with
      | Pending => set_jobs (jobs s ++ [u]) (update u (with_deferred r) s)
      | _ => s
      end
  | None => s
  end.

(** The reaction attached at line 176: the upload leaves [this.uploads],
    then [upload.promise] takes the outcome of the deferred. *)
Definition run_finally (s : Api) (u : nat) : Api :=
  let s := set_uploads (removeElement (Nat.eqb u) (uploads s)) s in
  update u (λ up, with_promise (deferred up) up) s.

(** Microtask checkpoint. *)
Definition drain (s : Api) : Api :=
  foldl run_finally (set_jobs [] s) (jobs s).

(** ** Timers ([callbacks.setTimeout], [callbacks.clearTimeout])

    Modelled from the spec: [realtime-callbacks] is not in the sources; it is
    a scheduling primitive offering cancellable delayed callbacks.  The handle
    kept in [timeoutTimer] always designates the one entry of its upload, so
    an entry is identified by that upload. *)
Definition setTimeout (u : nat) (delayMs : Z) (s : Api) : Api :=
  set_timers (insert_timer (u, now s + delayMs)%Z (timers s)) s.

Definition clearTimeout (u : nat) (s : Api) : Api :=
  set_timers (filter (λ e, e.1 ≠ u) (timers s)) s.

(** ** The streaming strategy: callbacks on the request *)

(** The [try]/[catch] of [onreadystatechange] at [DONE], lines 101-120:
    what it passes to the deferred. *)
Definition done_attempt (r : XhrResponse) : Completion (Settlement UploadResponse) :=
  if (status r =? 0)%Z then Throw (DOMException (statusText r) "AbortError")
  else if String.eqb (responseText r) "" then Throw (Error "No response body.")
  else if (400 <=? status r)%Z then
    match parseErrorResponse r (responseText r) with
    | Normal e => Normal (Rejected e)
    | Throw e => Throw e
    end
  else
    match JSON_parse (responseText r) with
    | Normal j => Normal (Resolved (ParsedBody j))
    | Throw e => Throw e
    end.

Definition done_settlement (r : XhrResponse) : Settlement UploadResponse :=
  match done_attempt r with
  | Normal p => p
  | Throw err =>
      if String.eqb (err_name err) "AbortError" then Rejected err
      else Rejected (ConnectionError "request failed" err)
  end.

(** [xhr.onreadystatechange], lines 97-123. *)
Definition onreadystatechange (u : nat) (s : Api) : Api :=
  match xhr_of s u with
  | Some x =>
      if (readyState x =? DONE)%Z
      then settle u (done_settlement (response x)) (clearTimeout u s)
      else s
  | None => s
  end.

Definition set_xhr (u : nat) (x : XHR) (s : Api) : Api :=
  update u (with_transport (ViaXhr x)) s.

(** [xhr.abort()], as the XMLHttpRequest standard has it: a request in
    flight goes to [DONE] with a network error (status 0) and
    [readystatechange] is fired synchronously; a request in state [DONE] is
    then left [UNSENT]. *)
Definition xhr_abort (u : nat) (s : Api) : Api :=
  match xhr_of s u with
  | Some x =>
      if in_flight x then
        let x := xhr_receive DONE network_error x in
        let s := set_xhr u x s in
        let s := onreadystatechange u s in
        set_xhr u (xhr_receive UNSENT network_error x) s
      else if (readyState x =? DONE)%Z then
        set_xhr u (xhr_receive UNSENT network_error x) s
      else s
  | None => s
  end.

(** [timeoutFn], lines 89-92. *)
Definition timeoutFn (s : Api) (u : nat) : Api :=
  settle u (Rejected (Error "Timeout")) (xhr_abort u s).

(** [xhr.upload.onprogress], lines 125-134. *)
Definition onprogress (u : nat) (ev_loaded ev_total : Z) (s : Api) : Api :=
  let s := clearTimeout u s in
  let s := update u (with_progress ev_loaded ev_total) s in
  setTimeout u 30000 s.

(** ** The abort controller *)

Definition addEventListener (c : nat) (l : Listener) (s : Api) : Api :=
  set_controllers (alter (add_listener l) c (controllers s)) s.

(** The listeners of lines 153-155 and 179-182. *)
Definition run_listener (s : Api) (l : Listener) : Api :=
  match l with
  | AbortXhr u => xhr_abort u s
  | AbortUpload u =>
      settle u (Rejected (DOMException "Aborted" "AbortError"))
        (set_uploads (removeElement (Nat.eqb u) (uploads s)) s)
  end.

(** [controller.abort()]: a signal fires once; its listeners run in the
    order in which they were added. *)
Definition abort (c : nat) (s : Api) : Api :=
  match controllers s !! c with
  | Some k =>
      if aborted k then s
      else foldl run_listener (set_controllers (alter fire c (controllers s)) s)
             (listeners k)
  | None => s
  end.

(** [new AbortController()] *)
Definition new_AbortController (s : Api) : nat * Api :=
  (length (controllers s), set_controllers (controllers s ++ [new_controller]) s).

(** ** The delegated strategy *)

(** The chain of lines 170-172 on the promise of [authedRequest]. *)
Definition delegated_settlement (cfg : HttpOpts) (r : Completion Response)
  : Settlement UploadResponse :=
  match r with
  | Normal response =>
      if truthy_flag (onlyData cfg) then Resolved (AsIs response)
      else match response_json response with
           | Normal j => Resolved (ParsedBody j)
           | Throw e => Rejected e
           end
  | Throw e => Rejected e
  end.

Definition ondelegated (u : nat) (r : Completion Response) (s : Api) : Api :=
  match request_of s u with
  | Some _ => settle u (delegated_settlement (opts s) r) s
  | None => s
  end.

(** ** [uploadContent] *)

(** Line 76. *)
Definition resolve_contentType (file : FileType) (o : UploadOpts) : string :=
  default "application/octet-stream" (nullish (opt_type o) (file_type file)).

(** Line 77. *)
Definition resolve_fileName (file : FileType) (o : UploadOpts) : option string :=
  nullish (opt_name o) (file_name file).

(** Lines 136-144. *)
Definition upload_url (cfg : HttpOpts) (includeFilename : bool)
    (fileName : option string) : URL :=
  let url := getUrl cfg "/upload" MediaPrefix_R0 in
  let url :=
    if includeFilename && truthy_string fileName
    then url_set "filename" (encodeURIComponent (default "" fileName)) url
    else url in
  if negb (truthy_flag (useAuthorizationHeader cfg)) && truthy_string (accessToken cfg)
  then url_set "access_token" (encodeURIComponent (default "" (accessToken cfg))) url
  else url.

(** Lines 146-151. *)
Definition upload_xhr (cfg : HttpOpts) (file : FileType) (contentType : string)
    (url : URL) : XHR :=
  let xhr := xhr_open "POST" url xhr_new in
  let xhr :=
    if truthy_flag (useAuthorizationHeader cfg) && truthy_string (accessToken cfg)
    then xhr_setRequestHeader "Authorization"
           ("Bearer " +:+ default "" (accessToken cfg)) xhr
    else xhr in
  let xhr := xhr_setRequestHeader "Content-Type" contentType xhr in
  xhr_send file xhr.

(** Lines 157-169. *)
Definition upload_request (file : FileType) (contentType : string)
    (includeFilename : bool) (fileName : option string) (signal : nat)
  : AuthedRequest :=
  {| ar_method := "POST"; ar_path := "/upload";
     ar_query :=
       if includeFilename && truthy_string fileName
       then [("filename", default "" fileName)] else [];
     ar_body := file; ar_prefix := MediaPrefix_R0;
     ar_headers := [("Content-Type", contentType)];
     ar_abortSignal := signal |}.

(** Lines 72-173: the upload record and its deferred are made and the
    transport is started.  Returns the reference of the record. *)
Definition uploadContent_transport (file : FileType) (o : UploadOpts) (s : Api)
  : nat * Api :=
  let includeFilename := default true (opt_includeFilename o) in
  let '(abortController, s) :=
    match opt_abortController o with
    | Some c => (c, s)
    | None => new_AbortController s
    end in
  let contentType := resolve_contentType file o in
  let fileName := resolve_fileName file o in
  let upload := length (heap s) in
  let record t :=
    {| loaded := 0; total := 0; abortController := abortController;
       deferred := Pending; promise := Pending; transport := t;
       progressHandler := opt_progressHandler o; progress_calls := [] |} in
  if has_XMLHttpRequest s then
    let url := upload_url (opts s) includeFilename fileName in
    let xhr := upload_xhr (opts s) file contentType url in
    let s := set_heap (heap s ++ [record (ViaXhr xhr)]) s in
    let s := setTimeout upload 30000 s in
    (upload, addEventListener abortController (AbortXhr upload) s)
  else
    let req := upload_request file contentType includeFilename fileName abortController in
    (upload, set_heap (heap s ++ [record (ViaAuthedRequest req)]) s).

(** Lines 175-184: the [finally] reaction is attached (it is [run_finally],
    queued by [settle]), the common abort listener is added, and the record
    is pushed on [this.uploads]. *)
Definition uploadContent_register (upload : nat) (s : Api) : Api :=
  let s :=
    match controller_of s upload with
    | Some c => addEventListener c (AbortUpload upload) s
    | None => s
    end in
  set_uploads (uploads s ++ [upload]) s.

(** Returns [upload.promise]; the promise of an upload is referred to by
    the reference of its record. *)
Definition uploadContent (file : FileType) (o : UploadOpts) (s : Api) : nat * Api :=
  let '(upload, s) := uploadContent_transport file o s in
  (upload, uploadContent_register upload s).

(** ** [cancelUpload], [getCurrentUploads], [getContentUri] *)

Definition cancelUpload (promise : nat) (s : Api) : bool * Api :=
  match List.find (Nat.eqb promise) (uploads s) with
  | Some upload =>
      (true, match controller_of s upload with
             | Some c => abort c s
             | None => s
             end)
  | None => (false, s)
  end.

Definition getCurrentUploads (s : Api) : list nat := uploads s.

Record IContentUri := {
  base : string;
  path : string;
  params : list (string * option string);
}.

Definition getContentUri (s : Api) : IContentUri :=
  {| base := baseUrl (opts s);
     path := MediaPrefix_R0 +:+ "/upload";
     params := [("access_token", accessToken (opts s))] |}.

(** ** The event loop *)

(** [runCallbacks] of the timer module at the current time: the entries
    that are due leave the list, then their callbacks run in order. *)
Definition runCallbacks (s : Api) : Api :=
  let due := filter (λ e : TimerEntry, (e.2 ≤ now s)%Z) (timers s) in
  let rest := filter (λ e : TimerEntry, ¬ (e.2 ≤ now s)%Z) (timers s) in
  foldl timeoutFn (set_timers rest s) (due.*1).

(** What can happen to an instance: calls of its caller (which run inside
    a task of the caller), and tasks of the host. *)
Inductive Event : Type :=
| CallNewAbortController
| CallUploadContent (file : FileType) (o : UploadOpts)
| CallCancelUpload (promise : nat)
| CallAbort (c : nat)
| TaskEnd
| XhrProgress (u : nat) (ev_loaded ev_total : Z)
| XhrReadyStateChange (u : nat) (rs : Z) (r : XhrResponse)
| Elapse (dt : Z)
| DelegateSettled (u : nat) (r : Completion Response).

(** A caller can only pass a controller that exists. *)
Definition valid_opts (s : Api) (o : UploadOpts) : bool :=
  match opt_abortController o with
  | Some c => bool_decide (c < length (controllers s))
  | None => true
  end.

(** A task of the host starts from an empty microtask queue and ends with a
    checkpoint. *)
Definition task (f : Api → Api) (s : Api) : Api := drain (f (drain s)).

Definition step (s : Api) (e : Event) : Api :=
  match e with
  | CallNewAbortController => (new_AbortController s).2
  | CallUploadContent file o =>
      if valid_opts s o then (uploadContent file o s).2 else s
  | CallCancelUpload p => (cancelUpload p s).2
  | CallAbort c => abort c s
  | TaskEnd => drain s
  | XhrProgress u l t =>
      task (λ s, match xhr_of s u with
                 | Some _ => onprogress u l t s
                 | None => s
                 end) s
  | XhrReadyStateChange u rs r =>
      task (λ s, match xhr_of s u with
                 | Some x => onreadystatechange u (set_xhr u (xhr_receive rs r x) s)
                 | None => s
                 end) s
  | Elapse dt =>
      if (dt <? 0)%Z then s
      else task (λ s, runCallbacks (set_now (now s + dt)%Z s)) s
  | DelegateSettled u r => task (ondelegated u r) s
  end.

Definition run (s : Api) (evs : list Event) : Api := foldl step s evs.

End MatrixHttpApi.

(** ** A concrete host, for running the model *)
Module Fixture.

(** The value of [JSON.parse] on a text, kept symbolic. *)
Inductive json : Type := Parsed (text : string).

Definition parse (s : string) : Completion json :=
  if String.prefix "{" s then Normal (Parsed s)
  else Throw (HostError "SyntaxError" "Unexpected token").

Definition host : Collaborators := {|
  Json := json;
  Response := string;
  JSON_parse := parse;
  parseErrorResponse := λ r body, Normal (HostError "M_UNKNOWN" body);
  encodeURIComponent := λ s, s;
  response_json := parse;
  MediaPrefix_R0 := "/_matrix/media/r0";
|}.

Definition cfg : HttpOpts :=
  {| baseUrl := "https://hs"; accessToken := Some "tok";
     useAuthorizationHeader := Some true; onlyData := None |}.

Definition cfg_query : HttpOpts :=
  {| baseUrl := "https://hs"; accessToken := Some "tok";
     useAuthorizationHeader := None; onlyData := None |}.

Definition no_opts : UploadOpts :=
  {| opt_name := None; opt_includeFilename := None; opt_type := None;
     opt_rawResponse := None; opt_onlyContentUri := None;
     opt_progressHandler := false; opt_abortController := None |}.

(** [{ rawResponse: true }] *)
Definition raw_opts : UploadOpts :=
  {| opt_name := None; opt_includeFilename := None; opt_type := None;
     opt_rawResponse := Some true; opt_onlyContentUri := None;
     opt_progressHandler := false; opt_abortController := None |}.

(** [{ onlyContentUri: true }] *)
Definition uri_opts : UploadOpts :=
  {| opt_name := None; opt_includeFilename := None; opt_type := None;
     opt_rawResponse := None; opt_onlyContentUri := Some true;
     opt_progressHandler := false; opt_abortController := None |}.

(** [{ abortController: c }] *)
Definition with_controller (c : nat) : UploadOpts :=
  {| opt_name := None; opt_includeFilename := None; opt_type := None;
     opt_rawResponse := None; opt_onlyContentUri := None;
     opt_progressHandler := false; opt_abortController := Some c |}.

Definition a_file : FileType :=
  {| file_type := Some "text/plain"; file_name := Some "a.txt";
     file_body := "hello" |}.

Definition ok (body : string) : XhrResponse :=
  {| status := 200; statusText := "OK"; responseText := body;
     contentType := Some "application/json" |}.

(** A success body that parses: the empty object. *)
Definition body : string := "{}".

#[local] Existing Instance host.

(** A browser-hosted instance and a headless one, freshly made. *)
Definition browser : Api := new_api cfg true.
Definition headless : Api := new_api cfg false.

(** One streaming upload in flight. *)
Definition uploading : Api := run browser [CallUploadContent a_file no_opts].

(** One streaming upload started with a controller whose signal had
    already fired. *)
Definition started_aborted : Api :=
  run browser [CallNewAbortController; CallAbort 0;
               CallUploadContent a_file (with_controller 0)].

(** The same upload on a host without [XMLHttpRequest]. *)
Definition delegated_aborted : Api :=
  run headless [CallNewAbortController; CallAbort 0;
                CallUploadContent a_file (with_controller 0)].

(** What [authedRequest] settles with when the signal it is handed has
    fired: the rejection of [fetch] for an aborted signal. *)
Definition fetch_aborted : Completion string :=
  Throw (DOMException "The operation was aborted." "AbortError").

(** A [Blob] made without a MIME type: its [type] is the empty string. *)
Definition untyped_blob : FileType :=
  {| file_type := Some ""; file_name := None; file_body := "hello" |}.

(** A [Buffer]: it has no [type] at all. *)
Definition a_buffer : FileType :=
  {| file_type := None; file_name := None; file_body := "hello" |}.

End Fixture.

(** Whether a promise is pending can be decided. *)
#[global] Instance pending_decision {A} (p : Settlement A) : Decision (p = Pending).
Proof. destruct p; [by left | by right | by right]. Defined.

#[global] Instance listener_eq_dec : EqDecision Listener.
Proof. solve_decision. Defined.

(** Two transports of the same kind: both streaming, or the same delegated
    request. *)
Definition same_kind (t t' : Transport) : Prop :=
  match t, t' with
  | ViaXhr _, ViaXhr _ => True
  | ViaAuthedRequest r, ViaAuthedRequest r' => r = r'
  | _, _ => False
  end.

(** ** Footprints and invariants *)
Section Invariants.
Context `{Collaborators}.

Definition owner (l : Listener) : nat :=
  match l with AbortXhr u | AbortUpload u => u end.

(** [touches P s s']: going from [s] to [s'] changed nothing but what
    belongs to the uploads in [P]: their records, their timers, their
    entries in the registry and their [finally] jobs.  A deferred, once
    settled, is left as it is. *)
Record touches (P : nat → Prop) (s s' : Api) : Prop := {
  t_opts : opts s' = opts s;
  t_host : has_XMLHttpRequest s' = has_XMLHttpRequest s;
  t_now : now s' = now s;
  t_controllers : controllers s' = controllers s;
  t_length : length (heap s') = length (heap s);
  t_frame : ∀ v, ¬ P v → heap s' !! v = heap s !! v;
  t_sublist : uploads s' `sublist_of` uploads s;
  t_registered : ∀ v, ¬ P v → v ∈ uploads s → v ∈ uploads s';
  t_removed : ∀ v,
    v ∈ uploads s → v ∉ uploads s' → deferred_of s' v ≠ Pending;
  t_timers : ∀ e : TimerEntry, ¬ P e.1 → e ∈ timers s' ↔ e ∈ timers s;
  t_armed : ∀ e : TimerEntry,
    e ∈ timers s' → e ∈ timers s ∨ e.2 = (now s + 30000)%Z;
  t_timer_owner : ∀ e : TimerEntry,
    e ∈ timers s' → e ∈ timers s ∨ e.1 < length (heap s);
  t_jobs : ∃ J,
    jobs s' = jobs s ++ J ∧ ∀ j, j ∈ J → P j ∧ deferred_of s' j ≠ Pending;
  t_queued : ∀ v,
    deferred_of s v = Pending → deferred_of s' v ≠ Pending → v ∈ jobs s';
  t_controller_of : ∀ v, controller_of s' v = controller_of s v;
  t_xhr : ∀ v, xhr_of s' v = None ↔ xhr_of s v = None;
  t_request : ∀ v, request_of s' v = request_of s v;
  t_deferred : ∀ v,
    deferred_of s v ≠ Pending → deferred_of s' v = deferred_of s v;
  t_promise : ∀ v,
    promise_of s' v = promise_of s v
    ∨ (deferred_of s' v ≠ Pending ∧ promise_of s' v = deferred_of s' v);
}.

(** An upload that had a timer and is still in flight has a timer. *)
Definition keeps_armed (s s' : Api) : Prop :=
  ∀ u, deferred_of s' u = Pending →
    (∃ d, (u, d) ∈ timers s ∧ (d ≤ now s + 30000)%Z) →
    ∃ d, (u, d) ∈ timers s' ∧ (d ≤ now s' + 30000)%Z.

(** What holds of an instance at every point of its execution, given the
    [finally] jobs [J] that are still to run. *)
Record consistent_with (J : list nat) (s : Api) : Prop := {
  c_allocated : ∀ u, u ∈ uploads s → u < length (heap s);
  c_nodup : NoDup (uploads s);
  c_tracked : ∀ u, u ∈ uploads s → deferred_of s u = Pending ∨ u ∈ J;
  c_registered : ∀ u,
    u < length (heap s) → deferred_of s u = Pending → u ∈ uploads s;
  c_jobs : ∀ j, j ∈ J → deferred_of s j ≠ Pending;
  c_promise : ∀ u,
    promise_of s u ≠ Pending →
    deferred_of s u ≠ Pending ∧ promise_of s u = deferred_of s u;
  c_reacted : ∀ u,
    deferred_of s u ≠ Pending → u ∈ J ∨ promise_of s u = deferred_of s u;
  c_controller : ∀ u c, controller_of s u = Some c → c < length (controllers s);
  c_listening : ∀ u c k,
    u ∈ uploads s → controller_of s u = Some c → controllers s !! c = Some k →
    aborted k = false → AbortUpload u ∈ listeners k;
  c_paired : ∀ c k u,
    controllers s !! c = Some k → AbortXhr u ∈ listeners k →
    AbortUpload u ∈ listeners k;
  c_owner : ∀ c k l,
    controllers s !! c = Some k → l ∈ listeners k →
    controller_of s (owner l) = Some c;
}.

Definition consistent (s : Api) : Prop := consistent_with (jobs s) s.

(** Every streaming upload in flight has its timeout armed, due within
    30 seconds. *)
Definition armed (s : Api) : Prop :=
  ∀ u, u ∈ uploads s → deferred_of s u = Pending → xhr_of s u ≠ None →
    ∃ d, (u, d) ∈ timers s ∧ (d ≤ now s + 30000)%Z.

(** Every pending callback belongs to an upload that exists. *)
Definition timers_owned (s : Api) : Prop :=
  ∀ e : TimerEntry, e ∈ timers s → e.1 < length (heap s).

(** What holds between two steps of the event loop: moreover, every
    upload in the registry is in flight. *)
Record wf (s : Api) : Prop := {
  wf_consistent : consistent s;
  wf_armed : armed s;
  wf_timers : timers_owned s;
  wf_live : ∀ u, u ∈ uploads s → deferred_of s u = Pending;
}.

(** The host's tasks leave the controllers alone, and an upload keeps
    its controller and its kind of transport. *)
Definition same_controllers (s s' : Api) : Prop :=
  controllers s' = controllers s
  ∧ (∀ v, controller_of s' v = controller_of s v)
  ∧ (∀ v, xhr_of s' v = None ↔ xhr_of s v = None).

(** States that an instance reaches from its creation. *)
Definition reachable (s : Api) : Prop :=
  ∃ cfg xhr evs, s = run (new_api cfg xhr) evs.

End Invariants.

(** ** The state that [uploadContent] leaves *)
Section AfterUpload.
Context `{Collaborators}.

Definition controller_for (o : UploadOpts) (s : Api) : nat :=
  default (length (controllers s)) (opt_abortController o).

Definition controllers_for (o : UploadOpts) (s : Api) : list AbortController :=
  match opt_abortController o with
  | Some _ => controllers s
  | None => controllers s ++ [new_controller]
  end.

Definition new_transport (file : FileType) (o : UploadOpts) (s : Api) : Transport :=
  let includeFilename := default true (opt_includeFilename o) in
  let contentType := resolve_contentType file o in
  let fileName := resolve_fileName file o in
  if has_XMLHttpRequest s
  then ViaXhr (upload_xhr (opts s) file contentType
                 (upload_url (opts s) includeFilename fileName))
  else ViaAuthedRequest
         (upload_request file contentType includeFilename fileName
            (controller_for o s)).

Definition new_record (file : FileType) (o : UploadOpts) (s : Api) : Upload :=
  {| loaded := 0; total := 0; abortController := controller_for o s;
     deferred := Pending; promise := Pending;
     transport := new_transport file o s;
     progressHandler := opt_progressHandler o; progress_calls := [] |}.

Definition new_listeners (s : Api) : list Listener :=
  (if has_XMLHttpRequest s then [AbortXhr (length (heap s))] else [])
  ++ [AbortUpload (length (heap s))].

Definition add_listeners (ls : list Listener) (k : AbortController) : AbortController :=
  {| aborted := aborted k; listeners := listeners k ++ ls |}.

Definition after_upload (file : FileType) (o : UploadOpts) (s : Api) : Api :=
  {| opts := opts s;
     has_XMLHttpRequest := has_XMLHttpRequest s;
     uploads := uploads s ++ [length (heap s)];
     heap := heap s ++ [new_record file o s];
     controllers :=
       alter (add_listeners (new_listeners s)) (controller_for o s)
         (controllers_for o s);
     timers :=
       if has_XMLHttpRequest s
       then insert_timer (length (heap s), now s + 30000)%Z (timers s)
       else timers s;
     jobs := jobs s;
     now := now s |}.

(** A deferred rejected for an abort. *)
Definition abort_rejected (p : Settlement UploadResponse) : Prop :=
  ∃ e, p = Rejected e ∧ err_name e = "AbortError".

End AfterUpload.

(** ** Settlement *)
Section Settlement.
Context `{Collaborators}.

(** Going from [s] to [s'], no settled deferred changed, and a promise
    changed only to take the outcome of its deferred. *)
Definition stable (s s' : Api) : Prop :=
  ∀ v,
    (deferred_of s v ≠ Pending → deferred_of s' v = deferred_of s v)
    ∧ (promise_of s' v = promise_of s v
       ∨ (deferred_of s' v ≠ Pending ∧ promise_of s' v = deferred_of s' v)).

(** The events after which the deferred of upload [u] is settled: the
    terminal state of its request, the settlement of its delegated request,
    its timeout, and an abort of its controller when the signal has not
    fired yet. *)
Inductive settles (s : Api) (u : nat) : Event → Prop :=
| settles_done r :
    xhr_of s u ≠ None → settles s u (XhrReadyStateChange u DONE r)
| settles_delegated r :
    request_of s u ≠ None → settles s u (DelegateSettled u r)
| settles_timeout dt d :
    (0 ≤ dt)%Z → (u, d) ∈ timers s → (d ≤ now s + dt)%Z →
    settles s u (Elapse dt)
| settles_abort c k :
    controller_of s u = Some c → controllers s !! c = Some k →
    aborted k = false → settles s u (CallAbort c)
| settles_cancel p c k :
    p ∈ uploads s → controller_of s p = Some c →
    controller_of s u = Some c → controllers s !! c = Some k →
    aborted k = false → settles s u (CallCancelUpload p).

(** The controller of a new upload is not shared with a registered
    upload, and its signal has not fired. *)
Definition own_controller (o : UploadOpts) (s : Api) : Prop :=
  match opt_abortController o with
  | Some c =>
      (∃ k, controllers s !! c = Some k ∧ aborted k = false)
      ∧ ∀ v, v ∈ uploads s → controller_of s v ≠ Some c
  | None => True
  end.

(** The transport of upload [u] settles it: its request reaches the
    terminal state, its delegated request settles, or time passes up to
    the point where its timeout is due. *)
Definition transport_settles (s : Api) (u : nat) (e : Event) : Prop :=
  match e with
  | XhrReadyStateChange v rs _ => v = u ∧ rs = DONE ∧ xhr_of s u ≠ None
  | DelegateSettled v _ => v = u ∧ request_of s u ≠ None
  | Elapse dt => (0 ≤ dt)%Z ∧ ∃ d, (u, d) ∈ timers s ∧ (d ≤ now s + dt)%Z
  | _ => False
  end.

(** A run from [s] in which the transport of [u] does not settle it:
    any calls of the caller, any events of other uploads, any progress of
    [u], and any passage of time that stops short of the timeout of [u]. *)
Fixpoint transport_silent (s : Api) (u : nat) (evs : list Event) : Prop :=
  match evs with
  | [] => True
  | e :: evs => ¬ transport_settles s u e ∧ transport_silent (step s e) u evs
  end.

Definition is_upload_call (e : Event) : Prop :=
  match e with CallUploadContent _ _ => True | _ => False end.

#[global] Instance is_upload_call_dec e : Decision (is_upload_call e).
Proof. destruct e; simpl; apply _. Defined.

(** The one timer of upload [u] is the one armed at time [t0]. *)
Definition armed_at (s : Api) (u : nat) (t0 : Z) : Prop :=
  (u, (t0 + 30000)%Z) ∈ timers s
  ∧ ∀ d, (u, d) ∈ timers s → d = (t0 + 30000)%Z.

(** Progress ticks of upload [u], each after a time of silence. *)
Fixpoint ticking (u : nat) (ticks : list (Z * (Z * Z))) : list Event :=
  match ticks with
  | [] => []
  | (gap, (l, t)) :: r => Elapse gap :: XhrProgress u l t :: ticking u r
  end.

(** The values of the pairs named [k] in a header list or a query. *)
Definition values_of (k : string) (l : list (string * string)) : list string :=
  (filter (λ p, p.1 = k) l).*2.

End Settlement.

(** ** Observations on an upload *)
Section Observations.
Context `{Collaborators}.

(** [upload.loaded] and [upload.total], as [getCurrentUploads] shows
    them. *)
Definition progress_of (s : Api) (u : nat) : option (Z * Z) :=
  (λ up, (loaded up, total up)) <$> heap s !! u.

(** The arguments of the calls of [opts.progressHandler] so far. *)
Definition progress_calls_of (s : Api) (u : nat) : list (Z * Z) :=
  default [] (progress_calls <$> heap s !! u).

(** Whether upload [u] has a pending timeout. *)
Definition has_timer (s : Api) (u : nat) : Prop := ∃ d, (u, d) ∈ timers s.

(** Every pending timeout belongs to an upload of the streaming
    strategy. *)
Definition timers_of_requests (s : Api) : Prop :=
  ∀ e : TimerEntry, e ∈ timers s → xhr_of s e.1 ≠ None.

(** Events that may settle the delegated upload [u]: the settlement of
    its request, and the abort of a controller by the caller. *)
Definition by_request_or_abort (u : nat) (e : Event) : Prop :=
  match e with
  | DelegateSettled v _ => v = u
  | CallAbort _ | CallCancelUpload _ => True
  | _ => False
  end.

(** The registry lists the handles in the order in which their uploads
    were started. *)
Definition in_start_order (s : Api) : Prop := StronglySorted lt (uploads s).

End Observations.

(** ** More concrete instances *)
Module Scenario.
Import Fixture.
#[local] Existing Instance host.

(** One delegated upload in flight. *)
Definition delegating : Api := run headless [CallUploadContent a_file no_opts].

(** Two streaming uploads in flight, started with the same controller. *)
Definition sharing : Api :=
  run browser [CallNewAbortController;
               CallUploadContent a_file (with_controller 0);
               CallUploadContent a_file (with_controller 0)].

(** Responses: a remote error, a redirect with a JSON body, a success
    whose body is not JSON. *)
Definition not_found : XhrResponse :=
  {| status := 404; statusText := "Not Found"; responseText := "{}";
     contentType := Some "application/json" |}.

Definition redirect : XhrResponse :=
  {| status := 302; statusText := "Found"; responseText := "{}";
     contentType := Some "application/json" |}.

Definition garbled : XhrResponse :=
  {| status := 200; statusText := "OK"; responseText := "<html>";
     contentType := Some "text/html" |}.

End Scenario.

(** * Properties *)

(** ** Lists: [removeElement], [insert_timer], [searchParams_set] *)
Section Lists.

Lemma removeElement_sublist {A} (f : A → bool) (l : list A) :
  removeElement f l `sublist_of` l.
Proof.
  induction l as [|x l IH]; simpl; [done|].
  destruct (f x); [by apply sublist_cons | by apply sublist_skip].
Qed.

Lemma removeElement_absent (l : list nat) (u : nat) :
  u ∉ l → removeElement (Nat.eqb u) l = l.
Proof.
  induction l as [|x l IH]; simpl; [done|].
  rewrite not_elem_of_cons. intros [Hne Hl].
  destruct (Nat.eqb_spec u x); [done|]. by rewrite IH.
Qed.

Lemma removeElement_keeps (l : list nat) (u v : nat) :
  v ≠ u → v ∈ l → v ∈ removeElement (Nat.eqb u) l.
Proof.
  intros Hne. induction l as [|x l IH]; simpl; [done|].
  rewrite elem_of_cons. intros [->|Hl].
  - destruct (Nat.eqb_spec u x); [congruence | apply elem_of_cons; by left].
  - destruct (Nat.eqb_spec u x); [done | apply elem_of_cons; right; by apply IH].
Qed.

Lemma removeElement_gone (l : list nat) (u : nat) :
  NoDup l → u ∉ removeElement (Nat.eqb u) l.
Proof.
  induction 1 as [|x l Hx Hl IH]; simpl; [apply not_elem_of_nil|].
  destruct (Nat.eqb_spec u x) as [->|Hne]; [done|].
  rewrite not_elem_of_cons. done.
Qed.

Lemma removeElement_snoc (l : list nat) (u : nat) :
  u ∉ l → removeElement (Nat.eqb u) (l ++ [u]) = l.
Proof.
  induction l as [|x l IH]; simpl.
  - by rewrite Nat.eqb_refl.
  - rewrite not_elem_of_cons. intros [Hne Hl].
    destruct (Nat.eqb_spec u x); [done|]. by rewrite IH.
Qed.

Lemma removeElement_length (l : list nat) (u : nat) :
  u ∈ l → S (length (removeElement (Nat.eqb u) l)) = length l.
Proof.
  induction l as [|x l IH]; simpl; [by intros ?%elem_of_nil|].
  destruct (Nat.eqb_spec u x) as [->|Hne]; [done|].
  rewrite elem_of_cons. intros [?|Hl]; [done|]. simpl. by rewrite IH.
Qed.

Lemma sublist_full {A} (l1 l2 : list A) :
  l1 `sublist_of` l2 → length l2 ≤ length l1 → l1 = l2.
Proof.
  induction 1 as [|x l1 l2 Hs IH|x l1 l2 Hs IH]; simpl; intros Hlen.
  - done.
  - f_equal. apply IH. lia.
  - apply sublist_length in Hs. lia.
Qed.

(** A sublist that misses nothing but [u] is the list without [u]. *)
Lemma sublist_snoc_without (l' l : list nat) (u : nat) :
  l' `sublist_of` l ++ [u] → u ∉ l' → (∀ v, v ∈ l → v ∈ l') → NoDup l → l' = l.
Proof.
  intros Hsub Hu Hall Hnd.
  assert (l' `sublist_of` l) as Hsub'.
  { apply sublist_app_r in Hsub as (k1 & k2 & -> & Hk1 & Hk2).
    apply sublist_cons_r in Hk2 as [Hk2|(k & -> & _)].
    - apply sublist_nil_r in Hk2 as ->. by rewrite app_nil_r.
    - exfalso. apply Hu. apply elem_of_app. right. apply elem_of_cons. by left. }
  assert (l ⊆+ l') as Hsm by (by apply NoDup_submseteq).
  apply submseteq_length in Hsm.
  by apply sublist_full.
Qed.

Lemma elem_of_insert_timer (e x : TimerEntry) (l : list TimerEntry) :
  x ∈ insert_timer e l ↔ x = e ∨ x ∈ l.
Proof.
  induction l as [|h t IH]; simpl.
  - rewrite elem_of_cons, elem_of_nil. naive_solver.
  - destruct (h.2 <=? e.2)%Z; rewrite !elem_of_cons, ?IH; tauto.
Qed.

End Lists.

(** ** Footprints of the callbacks *)
Section Footprints.
Context `{Collaborators}.
Implicit Types (s : Api) (u v : nat) (P : nat → Prop).

Lemma pending_dec {A} (p : Settlement A) : p = Pending ∨ p ≠ Pending.
Proof. destruct p; [by left | by right | by right]. Qed.

Lemma lookup_update s u f v :
  heap (update u f s) !! v
  = if decide (u = v) then f <$> heap s !! v else heap s !! v.
Proof.
  unfold update; simpl. rewrite list_lookup_alter.
  destruct (decide (u = v)); by subst.
Qed.

Lemma lookup_update_ne s u f v : u ≠ v → heap (update u f s) !! v = heap s !! v.
Proof. intros. rewrite lookup_update. by destruct (decide (u = v)). Qed.

Lemma lookup_update_eq s u f : heap (update u f s) !! u = f <$> heap s !! u.
Proof. rewrite lookup_update. by destruct (decide (u = u)). Qed.

Lemma deferred_of_lt s u : deferred_of s u ≠ Pending → u < length (heap s).
Proof.
  unfold deferred_of. destruct (heap s !! u) eqn:E; [|done].
  intros _. by eapply lookup_lt_Some.
Qed.

Lemma promise_of_lt s u : promise_of s u ≠ Pending → u < length (heap s).
Proof.
  unfold promise_of. destruct (heap s !! u) eqn:E; [|done].
  intros _. by eapply lookup_lt_Some.
Qed.

Lemma xhr_of_lt s u x : xhr_of s u = Some x → u < length (heap s).
Proof.
  unfold xhr_of. destruct (heap s !! u) eqn:E; [|done].
  intros _. by eapply lookup_lt_Some.
Qed.

Lemma request_of_lt s u r : request_of s u = Some r → u < length (heap s).
Proof.
  unfold request_of. destruct (heap s !! u) eqn:E; [|done].
  intros _. by eapply lookup_lt_Some.
Qed.

Lemma controller_of_lt s u c : controller_of s u = Some c → u < length (heap s).
Proof.
  unfold controller_of. destruct (heap s !! u) eqn:E; [|done].
  intros _. by eapply lookup_lt_Some.
Qed.

Ltac touch_easy :=
  try done;
  try (by left);
  try (by intros; left);
  try (exists []; split; [by rewrite app_nil_r | by intros ??%elem_of_nil]).

Lemma touches_refl P s : touches P s s.
Proof. split; touch_easy. Qed.

Lemma touches_mono P Q s s' :
  (∀ v, P v → Q v) → touches P s s' → touches Q s s'.
Proof.
  intros HPQ T. split; try (by apply T).
  - intros v Hv. apply (t_frame _ _ _ T). by intros ?%HPQ.
  - intros v Hv. apply (t_registered _ _ _ T). by intros ?%HPQ.
  - intros e He. apply (t_timers _ _ _ T). by intros ?%HPQ.
  - destruct (t_jobs _ _ _ T) as (J & E & HJ). exists J. split; [done|].
    intros j Hj. destruct (HJ j Hj). split; [by apply HPQ|done].
Qed.

Lemma touches_trans P s1 s2 s3 :
  touches P s1 s2 → touches P s2 s3 → touches P s1 s3.
Proof.
  intros A B. split.
  - by rewrite (t_opts _ _ _ B), (t_opts _ _ _ A).
  - by rewrite (t_host _ _ _ B), (t_host _ _ _ A).
  - by rewrite (t_now _ _ _ B), (t_now _ _ _ A).
  - by rewrite (t_controllers _ _ _ B), (t_controllers _ _ _ A).
  - by rewrite (t_length _ _ _ B), (t_length _ _ _ A).
  - intros v Hv. by rewrite (t_frame _ _ _ B), (t_frame _ _ _ A).
  - etrans; [apply B | apply A].
  - intros v Hv Hin. by apply B, A.
  - intros v Hin Hout.
    destruct (decide (v ∈ uploads s2)) as [Hin2|Hout2].
    + by apply (t_removed _ _ _ B).
    + pose proof (t_removed _ _ _ A v Hin Hout2) as Hs.
      by rewrite (t_deferred _ _ _ B v Hs).
  - intros e He. by rewrite (t_timers _ _ _ B), (t_timers _ _ _ A).
  - intros e He. apply (t_armed _ _ _ B) in He as [He|He].
    + by apply (t_armed _ _ _ A).
    + right. by rewrite <- (t_now _ _ _ A).
  - intros e He. apply (t_timer_owner _ _ _ B) in He as [He|He].
    + by apply (t_timer_owner _ _ _ A).
    + right. by rewrite <- (t_length _ _ _ A).
  - destruct (t_jobs _ _ _ A) as (J1 & E1 & H1).
    destruct (t_jobs _ _ _ B) as (J2 & E2 & H2).
    exists (J1 ++ J2). split; [by rewrite E2, E1, app_assoc|].
    intros j [Hj|Hj]%elem_of_app.
    + destruct (H1 j Hj) as [? Hs]. split; [done|].
      by rewrite (t_deferred _ _ _ B j Hs).
    + by apply H2.
  - intros v Hp Hs.
    destruct (pending_dec (deferred_of s2 v)) as [Hp2|Hs2].
    + by apply (t_queued _ _ _ B).
    + pose proof (t_queued _ _ _ A v Hp Hs2) as Hj.
      destruct (t_jobs _ _ _ B) as (J2 & E2 & _). rewrite E2.
      apply elem_of_app. by left.
  - intros v. by rewrite (t_controller_of _ _ _ B), (t_controller_of _ _ _ A).
  - intros v. by rewrite (t_xhr _ _ _ B), (t_xhr _ _ _ A).
  - intros v. by rewrite (t_request _ _ _ B), (t_request _ _ _ A).
  - intros v Hs. rewrite (t_deferred _ _ _ B); [by apply A|].
    by rewrite (t_deferred _ _ _ A).
  - intros v.
    destruct (t_promise _ _ _ B v) as [E|[? ?]]; [|by right].
    rewrite E.
    destruct (t_promise _ _ _ A v) as [E'|[Hs E']]; [by left|].
    right. rewrite (t_deferred _ _ _ B v Hs). by split.
Qed.


(** A change of a record that leaves its controller, its deferred, its
    promise and the kind of its transport alone. *)
Lemma touches_update P s u f :
  P u →
  (∀ up, heap s !! u = Some up →
     abortController (f up) = abortController up
     ∧ deferred (f up) = deferred up
     ∧ promise (f up) = promise up
     ∧ same_kind (transport up) (transport (f up))) →
  touches P s (update u f s).
Proof.
  intros HP Hf.
  assert (∀ v up, heap s !! v = Some up →
            ∃ up', heap (update u f s) !! v = Some up'
                   ∧ abortController up' = abortController up
                   ∧ deferred up' = deferred up
                   ∧ promise up' = promise up
                   ∧ same_kind (transport up) (transport up')) as Hobs.
  { intros v up Hv. rewrite lookup_update.
    destruct (decide (u = v)) as [->|].
    - rewrite Hv; simpl. exists (f up). split; [done|]. by apply Hf.
    - exists up. repeat split; try done. by destruct (transport up). }
  assert (∀ v, heap s !! v = None → heap (update u f s) !! v = None) as Hnone.
  { intros v Hv. rewrite lookup_update. destruct (decide (u = v)); by rewrite ?Hv. }
  split; simpl; try done.
  - apply length_alter.
  - intros v Hv. apply list_lookup_alter_ne. by intros ->.
  - by left.
  - by left.
  - exists []. split; [by rewrite app_nil_r | by intros ??%elem_of_nil].
  - intros v. unfold deferred_of.
    destruct (heap s !! v) as [up|] eqn:E.
    + destruct (Hobs v up E) as (up' & -> & _ & -> & _). done.
    + by rewrite (Hnone v E).
  - intros v. unfold controller_of.
    destruct (heap s !! v) as [up|] eqn:E.
    + destruct (Hobs v up E) as (up' & -> & Hc & _). simpl. by rewrite Hc.
    + by rewrite (Hnone v E).
  - intros v. unfold xhr_of.
    destruct (heap s !! v) as [up|] eqn:E.
    + destruct (Hobs v up E) as (up' & -> & _ & _ & _ & Hk).
      by destruct (transport up), (transport up'); simpl in Hk.
    + by rewrite (Hnone v E).
  - intros v. unfold request_of.
    destruct (heap s !! v) as [up|] eqn:E.
    + destruct (Hobs v up E) as (up' & -> & _ & _ & _ & Hk).
      destruct (transport up), (transport up'); simpl in Hk; try done.
      by subst.
    + by rewrite (Hnone v E).
  - intros v _. unfold deferred_of.
    destruct (heap s !! v) as [up|] eqn:E.
    + destruct (Hobs v up E) as (up' & -> & _ & -> & _). done.
    + by rewrite (Hnone v E).
  - intros v. left. unfold promise_of.
    destruct (heap s !! v) as [up|] eqn:E.
    + destruct (Hobs v up E) as (up' & -> & _ & _ & -> & _). done.
    + by rewrite (Hnone v E).
Qed.

Lemma touches_set_xhr P s u x x' :
  P u → xhr_of s u = Some x → touches P s (set_xhr u x' s).
Proof.
  intros HP Hx. apply touches_update; [done|].
  intros up Hup. unfold xhr_of in Hx. rewrite Hup in Hx.
  destruct (transport up) eqn:E; [|done]. simpl. by rewrite ?E.
Qed.

Lemma touches_progress P s u l t :
  P u → touches P s (update u (with_progress l t) s).
Proof.
  intros HP. apply touches_update; [done|].
  intros up _. simpl. repeat split. by destruct (transport up).
Qed.

Lemma touches_clearTimeout P s u : P u → touches P s (clearTimeout u s).
Proof.
  intros HP. split; simpl; touch_easy.
  - intros e He. rewrite list_elem_of_filter. split; [by intros [_ ?]|].
    intros Hin. split; [|done]. by intros <-.
  - intros e [_ He]%list_elem_of_filter. by left.
  - intros e [_ He]%list_elem_of_filter. by left.
Qed.

Lemma touches_setTimeout P s u :
  P u → u < length (heap s) → touches P s (setTimeout u 30000 s).
Proof.
  intros HP Hlt. split; simpl; touch_easy.
  - intros e He. rewrite elem_of_insert_timer. split; [|by right].
    intros [->|?]; [done|done].
  - intros e [->|?]%elem_of_insert_timer; [by right | by left].
  - intros e [->|?]%elem_of_insert_timer; [by right | by left].
Qed.

Lemma settle_unfold s u r :
  (u < length (heap s) ∧ deferred_of s u = Pending
   ∧ settle u r s = set_jobs (jobs s ++ [u]) (update u (with_deferred r) s))
  ∨ (deferred_of s u ≠ Pending ∧ settle u r s = s)
  ∨ (length (heap s) ≤ u ∧ settle u r s = s).
Proof.
  unfold settle, deferred_of.
  destruct (heap s !! u) as [up|] eqn:E.
  - destruct (deferred up) eqn:D.
    + left. split; [by eapply lookup_lt_Some|done].
    + right; left. by split.
    + right; left. by split.
  - right; right. split; [by apply lookup_ge_None|done].
Qed.

Lemma deferred_of_with_deferred s u r v :
  deferred_of (update u (with_deferred r) s) v
  = if decide (u = v ∧ v < length (heap s)) then r else deferred_of s v.
Proof.
  unfold deferred_of. rewrite lookup_update.
  destruct (decide (u = v)) as [->|Hne].
  - destruct (heap s !! v) as [up|] eqn:E; simpl.
    + apply lookup_lt_Some in E. by rewrite decide_True.
    + apply lookup_ge_None in E. rewrite decide_False; [done|lia].
  - rewrite decide_False; [done|]. by intros [? _].
Qed.

Lemma touches_settle P s u r :
  P u → r ≠ Pending → touches P s (settle u r s).
Proof.
  intros HP Hr.
  destruct (settle_unfold s u r) as [(Hlt & Hp & ->)|[(_ & ->)|(_ & ->)]];
    [|apply touches_refl..].
  split; try done.
  - apply length_alter.
  - intros v Hv. apply list_lookup_alter_ne. by intros ->.
  - by left.
  - by left.
  - exists [u]. split; [done|].
    intros j ->%list_elem_of_singleton. split; [done|].
    change (deferred_of (update u (with_deferred r) s) u ≠ Pending).
    by rewrite deferred_of_with_deferred, decide_True.
  - intros v Hpv Hs. apply elem_of_app.
    change (deferred_of (update u (with_deferred r) s) v ≠ Pending) in Hs.
    rewrite deferred_of_with_deferred in Hs.
    destruct (decide _) as [[-> _]|]; [|done].
    right. by apply list_elem_of_singleton.
  - intros v. unfold controller_of; simpl. rewrite list_lookup_alter.
    destruct (decide (u = v)) as [->|]; [|done]. by destruct (heap s !! v).
  - intros v. unfold xhr_of; simpl. rewrite list_lookup_alter.
    destruct (decide (u = v)) as [->|]; [|done]. by destruct (heap s !! v).
  - intros v. unfold request_of; simpl. rewrite list_lookup_alter.
    destruct (decide (u = v)) as [->|]; [|done]. by destruct (heap s !! v).
  - intros v Hs.
    change (deferred_of (update u (with_deferred r) s) v = deferred_of s v).
    rewrite deferred_of_with_deferred.
    destruct (decide _) as [[-> _]|]; [congruence|done].
  - intros v. left. unfold promise_of; simpl. rewrite list_lookup_alter.
    destruct (decide (u = v)) as [->|]; [|done]. by destruct (heap s !! v).
Qed.

Lemma deferred_of_settle s u r :
  u < length (heap s) → deferred_of s u = Pending →
  deferred_of (settle u r s) u = r.
Proof.
  intros Hlt Hp.
  destruct (settle_unfold s u r) as [(_ & _ & ->)|[(? & _)|(? & _)]];
    [|done|lia].
  change (deferred_of (update u (with_deferred r) s) u = r).
  by rewrite deferred_of_with_deferred, decide_True.
Qed.

Lemma deferred_of_settle_settled s u r :
  u < length (heap s) → r ≠ Pending → deferred_of (settle u r s) u ≠ Pending.
Proof.
  intros Hlt Hr.
  destruct (pending_dec (deferred_of s u)) as [Hp|Hs].
  - by rewrite deferred_of_settle.
  - destruct (settle_unfold s u r) as [(_ & ? & _)|[(_ & ->)|(? & _)]];
      [done|done|lia].
Qed.

(** The [finally] reaction. *)
Lemma touches_run_finally P s u :
  P u → deferred_of s u ≠ Pending → touches P s (run_finally s u).
Proof.
  intros HP Hs. unfold run_finally.
  split; try done.
  - apply length_alter.
  - intros v Hv. apply list_lookup_alter_ne. by intros ->.
  - apply removeElement_sublist.
  - intros v Hv Hin. simpl. apply removeElement_keeps; [by intros ->|done].
  - intros v Hin Hout. simpl in Hout.
    destruct (decide (v = u)) as [->|Hne].
    + unfold deferred_of in *; simpl. rewrite list_lookup_alter_eq.
      by destruct (heap s !! u).
    + exfalso. apply Hout. by apply removeElement_keeps.
  - by left.
  - by left.
  - exists []. split; [by rewrite app_nil_r | by intros ??%elem_of_nil].
  - intros v Hp Hs'. exfalso. apply Hs'. revert Hp.
    unfold deferred_of; simpl. rewrite list_lookup_alter.
    destruct (decide (u = v)) as [->|]; [|done]. by destruct (heap s !! v).
  - intros v. unfold controller_of; simpl. rewrite list_lookup_alter.
    destruct (decide (u = v)) as [->|]; [|done]. by destruct (heap s !! v).
  - intros v. unfold xhr_of; simpl. rewrite list_lookup_alter.
    destruct (decide (u = v)) as [->|]; [|done]. by destruct (heap s !! v).
  - intros v. unfold request_of; simpl. rewrite list_lookup_alter.
    destruct (decide (u = v)) as [->|]; [|done]. by destruct (heap s !! v).
  - intros v _. unfold deferred_of; simpl. rewrite list_lookup_alter.
    destruct (decide (u = v)) as [->|]; [|done]. by destruct (heap s !! v).
  - intros v. unfold promise_of, deferred_of in *; simpl.
    rewrite list_lookup_alter.
    destruct (decide (u = v)) as [->|]; [|by left].
    destruct (heap s !! v); simpl; [by right | by left].
Qed.

Lemma promise_of_run_finally s u :
  promise_of (run_finally s u) u = deferred_of s u.
Proof.
  unfold run_finally, promise_of, deferred_of; simpl.
  rewrite list_lookup_alter_eq. by destruct (heap s !! u).
Qed.

Lemma uploads_run_finally s u :
  uploads (run_finally s u) = removeElement (Nat.eqb u) (uploads s).
Proof. done. Qed.


(** ** Footprints of the callbacks *)

Lemma done_settlement_settled r : done_settlement r ≠ Pending.
Proof.
  unfold done_settlement, done_attempt.
  repeat case_match; simplify_eq; done.
Qed.

Lemma delegated_settlement_settled cfg r : delegated_settlement cfg r ≠ Pending.
Proof. unfold delegated_settlement. repeat case_match; done. Qed.

Lemma touches_set_xhr' P s u x' :
  P u → xhr_of s u ≠ None → touches P s (set_xhr u x' s).
Proof.
  intros HP Hx. destruct (xhr_of s u) as [x|] eqn:E; [|done].
  by eapply touches_set_xhr.
Qed.

Lemma touches_onreadystatechange P s u :
  P u → touches P s (onreadystatechange u s).
Proof.
  intros HP. unfold onreadystatechange.
  destruct (xhr_of s u) as [x|]; [|apply touches_refl].
  destruct (readyState x =? DONE)%Z; [|apply touches_refl].
  eapply touches_trans; [by apply touches_clearTimeout|].
  apply touches_settle; [done|apply done_settlement_settled].
Qed.

Lemma touches_xhr_abort P s u : P u → touches P s (xhr_abort u s).
Proof.
  intros HP. unfold xhr_abort.
  destruct (xhr_of s u) as [x|] eqn:E; [|apply touches_refl].
  destruct (in_flight x).
  - eapply touches_trans; [by eapply touches_set_xhr|].
    eapply touches_trans; [by apply touches_onreadystatechange|].
    apply touches_set_xhr'; [done|].
    rewrite (t_xhr _ _ _ (touches_onreadystatechange P _ u HP)).
    rewrite (t_xhr _ _ _ (touches_set_xhr P s u x _ HP E)).
    by rewrite E.
  - destruct (readyState x =? DONE)%Z; [|apply touches_refl].
    by eapply touches_set_xhr.
Qed.

Lemma touches_timeoutFn P s u : P u → touches P s (timeoutFn s u).
Proof.
  intros HP. unfold timeoutFn.
  eapply touches_trans; [by apply touches_xhr_abort|].
  by apply touches_settle.
Qed.

Lemma touches_onprogress P s u l t :
  P u → u < length (heap s) → touches P s (onprogress u l t s).
Proof.
  intros HP Hlt. unfold onprogress.
  eapply touches_trans; [by apply touches_clearTimeout|].
  eapply touches_trans; [by apply touches_progress|].
  apply touches_setTimeout; [done|]. simpl. by rewrite length_alter.
Qed.

Lemma touches_ondelegated P s u r : P u → touches P s (ondelegated u r s).
Proof.
  intros HP. unfold ondelegated.
  destruct (request_of s u); [|apply touches_refl].
  apply touches_settle; [done|apply delegated_settlement_settled].
Qed.

(** The common abort listener: leave the registry, reject. *)
Lemma touches_abort_upload P s u r :
  P u → u < length (heap s) → r ≠ Pending →
  touches P s (settle u r (set_uploads (removeElement (Nat.eqb u) (uploads s)) s)).
Proof.
  intros HP Hlt Hr.
  set (s1 := set_uploads (removeElement (Nat.eqb u) (uploads s)) s).
  pose proof (touches_settle P s1 u r HP Hr) as T.
  split; try (by apply T).
  - etrans; [apply T|]. apply removeElement_sublist.
  - intros v Hv Hin. apply (t_registered _ _ _ T); [done|].
    apply removeElement_keeps; [by intros ->|done].
  - intros v Hin Hout.
    destruct (decide (v = u)) as [->|Hne].
    + by apply deferred_of_settle_settled.
    + apply (t_removed _ _ _ T); [|done]. by apply removeElement_keeps.
Qed.


Lemma touches_run_listener P s l :
  P (owner l) → owner l < length (heap s) → touches P s (run_listener s l).
Proof.
  destruct l as [u|u]; simpl; intros HP Hlt.
  - by apply touches_xhr_abort.
  - by apply touches_abort_upload.
Qed.

Lemma touches_foldl {A} (f : Api → A → Api) (Q : Api → A → Prop) P (L : list A) s :
  (∀ s a, Q s a → touches P s (f s a)) →
  (∀ s s' a, touches P s s' → Q s a → Q s' a) →
  (∀ a, a ∈ L → Q s a) →
  touches P s (foldl f s L).
Proof.
  intros Hf HQ. revert s.
  induction L as [|a L IH]; intros s HL; simpl; [apply touches_refl|].
  assert (touches P s (f s a)) as T.
  { apply Hf, HL, elem_of_cons. by left. }
  eapply touches_trans; [done|].
  apply IH. intros b Hb. eapply HQ; [done|].
  apply HL, elem_of_cons. by right.
Qed.

Lemma touches_listeners P s (L : list Listener) :
  (∀ l, l ∈ L → P (owner l) ∧ owner l < length (heap s)) →
  touches P s (foldl run_listener s L).
Proof.
  apply (touches_foldl run_listener
           (λ s l, P (owner l) ∧ owner l < length (heap s))).
  - intros s' l [? ?]. by apply touches_run_listener.
  - intros s1 s2 l T [? ?]. split; [done|]. by rewrite (t_length _ _ _ T).
Qed.

Lemma touches_finally_jobs P s (J : list nat) :
  (∀ j, j ∈ J → P j ∧ deferred_of s j ≠ Pending) →
  touches P s (foldl run_finally s J).
Proof.
  apply (touches_foldl run_finally (λ s j, P j ∧ deferred_of s j ≠ Pending)).
  - intros s' j [? ?]. by apply touches_run_finally.
  - intros s1 s2 j T [? Hs]. split; [done|].
    by rewrite (t_deferred _ _ _ T j Hs).
Qed.

Lemma touches_timeouts P s (L : list nat) :
  (∀ u, u ∈ L → P u) → touches P s (foldl timeoutFn s L).
Proof.
  apply (touches_foldl timeoutFn (λ _ u, P u)).
  - intros s' u ?. by apply touches_timeoutFn.
  - done.
Qed.

(** ** Footprints keep a state consistent *)

Lemma consistent_with_touches P J s s' :
  touches P s s' → consistent_with (jobs s ++ J) s →
  consistent_with (jobs s' ++ J) s'.
Proof.
  intros T C.
  destruct (t_jobs _ _ _ T) as (J' & EJ & HJ').
  split.
  - intros u Hu. rewrite (t_length _ _ _ T).
    apply (c_allocated _ _ C). by eapply elem_of_sublist, T.
  - eapply sublist_NoDup; [apply C | apply T].
  - intros u Hu.
    assert (u ∈ uploads s) as Hu' by (by eapply elem_of_sublist, T).
    destruct (c_tracked _ _ C u Hu') as [Hp|Hj].
    + destruct (pending_dec (deferred_of s' u)) as [?|Hs]; [by left|].
      right. apply elem_of_app. left. by apply (t_queued _ _ _ T).
    + right. rewrite EJ. rewrite !elem_of_app in *. tauto.
  - intros u Hlt Hp. rewrite (t_length _ _ _ T) in Hlt.
    assert (deferred_of s u = Pending) as Hp'.
    { destruct (pending_dec (deferred_of s u)) as [?|Hs]; [done|].
      by rewrite <- (t_deferred _ _ _ T u Hs). }
    pose proof (c_registered _ _ C u Hlt Hp') as Hin.
    destruct (decide (u ∈ uploads s')) as [?|Hout]; [done|].
    by destruct (t_removed _ _ _ T u Hin Hout).
  - intros j. rewrite EJ, !elem_of_app. intros [[Hj|Hj]|Hj].
    + assert (deferred_of s j ≠ Pending) as Hs.
      { apply (c_jobs _ _ C), elem_of_app. by left. }
      by rewrite (t_deferred _ _ _ T j Hs).
    + by apply HJ'.
    + assert (deferred_of s j ≠ Pending) as Hs.
      { apply (c_jobs _ _ C), elem_of_app. by right. }
      by rewrite (t_deferred _ _ _ T j Hs).
  - intros u Hu.
    destruct (t_promise _ _ _ T u) as [E|[? ?]]; [|done].
    rewrite E in Hu. destruct (c_promise _ _ C u Hu) as [Hs E'].
    rewrite (t_deferred _ _ _ T u Hs). by rewrite E.
  - intros u Hs.
    destruct (pending_dec (deferred_of s u)) as [Hp|Hs0].
    + left. apply elem_of_app. left. by apply (t_queued _ _ _ T).
    + destruct (c_reacted _ _ C u Hs0) as [Hj|E].
      * left. rewrite EJ. rewrite !elem_of_app in *. tauto.
      * right. rewrite (t_deferred _ _ _ T u Hs0).
        destruct (t_promise _ _ _ T u) as [E'|[_ E']]; [by rewrite E'|].
        by rewrite E', (t_deferred _ _ _ T u Hs0).
  - intros u c. rewrite (t_controller_of _ _ _ T), (t_controllers _ _ _ T).
    apply C.
  - intros u c k Hu. rewrite (t_controller_of _ _ _ T), (t_controllers _ _ _ T).
    apply C. by eapply elem_of_sublist, T.
  - intros c k u. rewrite (t_controllers _ _ _ T). apply C.
  - intros c k l. rewrite (t_controller_of _ _ _ T), (t_controllers _ _ _ T).
    apply C.
Qed.

Lemma consistent_touches P s s' : touches P s s' → consistent s → consistent s'.
Proof.
  unfold consistent. intros T C.
  rewrite <- (app_nil_r (jobs s')). eapply consistent_with_touches; [done|].
  by rewrite app_nil_r.
Qed.

End Footprints.

(** ** The timeout stays armed *)
Section Armed.
Context `{Collaborators}.
Implicit Types (s : Api) (u v : nat) (P : nat → Prop).

Lemma timers_settle s u r : timers (settle u r s) = timers s.
Proof. unfold settle. by repeat case_match. Qed.

Lemma now_settle s u r : now (settle u r s) = now s.
Proof. unfold settle. by repeat case_match. Qed.

Lemma uploads_settle s u r : uploads (settle u r s) = uploads s.
Proof. unfold settle. by repeat case_match. Qed.

Lemma controllers_settle s u r : controllers (settle u r s) = controllers s.
Proof. unfold settle. by repeat case_match. Qed.

Lemma keeps_armed_same s s' :
  timers s' = timers s → now s' = now s → keeps_armed s s'.
Proof. intros Et En u _. by rewrite Et, En. Qed.

Lemma keeps_armed_trans P s1 s2 s3 :
  touches P s2 s3 → keeps_armed s1 s2 → keeps_armed s2 s3 → keeps_armed s1 s3.
Proof.
  intros T A B u Hp Hd. apply B; [done|]. apply A; [|done].
  destruct (pending_dec (deferred_of s2 u)) as [?|Hs]; [done|].
  by rewrite <- (t_deferred _ _ _ T u Hs).
Qed.

Lemma keeps_armed_settle s u r : keeps_armed s (settle u r s).
Proof. apply keeps_armed_same; [apply timers_settle | apply now_settle]. Qed.

Lemma keeps_armed_onreadystatechange s u : keeps_armed s (onreadystatechange u s).
Proof.
  unfold onreadystatechange.
  destruct (xhr_of s u) as [x|] eqn:E; [|by apply keeps_armed_same].
  destruct (readyState x =? DONE)%Z; [|by apply keeps_armed_same].
  intros v Hp (d & Hd & Hle).
  rewrite timers_settle, now_settle. simpl.
  destruct (decide (v = u)) as [->|Hne].
  - exfalso. revert Hp. apply deferred_of_settle_settled.
    + simpl. by eapply xhr_of_lt.
    + apply done_settlement_settled.
  - exists d. split; [|done]. apply list_elem_of_filter. by split.
Qed.

Lemma keeps_armed_xhr_abort s u : keeps_armed s (xhr_abort u s).
Proof.
  unfold xhr_abort.
  destruct (xhr_of s u) as [x|] eqn:E; [|by apply keeps_armed_same].
  destruct (in_flight x).
  - set (s1 := set_xhr u (xhr_receive DONE network_error x) s).
    set (s2 := onreadystatechange u s1).
    assert (touches (λ _, True) s s1) as T1 by (by eapply touches_set_xhr).
    assert (touches (λ _, True) s1 s2) as T2
      by (by apply touches_onreadystatechange).
    assert (xhr_of s2 u ≠ None) as E2.
    { rewrite (t_xhr _ _ _ T2), (t_xhr _ _ _ T1). by rewrite E. }
    apply (keeps_armed_trans (λ _, True) s s2).
    + by apply touches_set_xhr'.
    + apply (keeps_armed_trans (λ _, True) s s1); [done|..].
      * by apply keeps_armed_same.
      * apply keeps_armed_onreadystatechange.
    + by apply keeps_armed_same.
  - destruct (readyState x =? DONE)%Z; by apply keeps_armed_same.
Qed.

Lemma keeps_armed_timeoutFn s u : keeps_armed s (timeoutFn s u).
Proof.
  unfold timeoutFn.
  apply (keeps_armed_trans (λ _, True) s (xhr_abort u s)).
  - by apply touches_settle.
  - apply keeps_armed_xhr_abort.
  - apply keeps_armed_settle.
Qed.

Lemma keeps_armed_onprogress s u l t : keeps_armed s (onprogress u l t s).
Proof.
  unfold onprogress. intros v Hp (d & Hd & Hle). simpl.
  destruct (decide (v = u)) as [->|Hne].
  - exists (now s + 30000)%Z. split; [|lia].
    apply elem_of_insert_timer. by left.
  - exists d. split; [|done].
    apply elem_of_insert_timer. right. apply list_elem_of_filter. by split.
Qed.

Lemma keeps_armed_ondelegated s u r : keeps_armed s (ondelegated u r s).
Proof.
  unfold ondelegated. destruct (request_of s u); [|by apply keeps_armed_same].
  apply keeps_armed_settle.
Qed.

Lemma keeps_armed_run_listener s l : keeps_armed s (run_listener s l).
Proof.
  destruct l as [u|u]; simpl; [apply keeps_armed_xhr_abort|].
  apply keeps_armed_same; [by rewrite timers_settle | by rewrite now_settle].
Qed.

Lemma keeps_armed_run_finally s u : keeps_armed s (run_finally s u).
Proof. by apply keeps_armed_same. Qed.

Lemma keeps_armed_foldl {A} (f : Api → A → Api) (Q : Api → A → Prop)
    (L : list A) s :
  (∀ s a, Q s a → touches (λ _, True) s (f s a)) →
  (∀ s s' a, touches (λ _, True) s s' → Q s a → Q s' a) →
  (∀ s a, keeps_armed s (f s a)) →
  (∀ a, a ∈ L → Q s a) →
  keeps_armed s (foldl f s L).
Proof.
  intros Hf HQ Hk. revert s.
  induction L as [|a L IH]; intros s HL; simpl; [by apply keeps_armed_same|].
  assert (touches (λ _, True) s (f s a)) as T.
  { apply Hf, HL, elem_of_cons. by left. }
  assert (∀ b, b ∈ L → Q (f s a) b) as HL'.
  { intros b Hb. eapply HQ; [done|]. apply HL, elem_of_cons. by right. }
  eapply (keeps_armed_trans (λ _, True)); [|apply Hk|by apply IH].
  by apply (touches_foldl f Q).
Qed.

Lemma armed_touches P s s' :
  touches P s s' → keeps_armed s s' → armed s → armed s'.
Proof.
  intros T K A u Hin Hp Hx. apply K; [done|].
  apply A.
  - by eapply elem_of_sublist, T.
  - destruct (pending_dec (deferred_of s u)) as [?|Hs]; [done|].
    by rewrite <- (t_deferred _ _ _ T u Hs).
  - by rewrite <- (t_xhr _ _ _ T).
Qed.

Lemma timers_owned_touches P s s' :
  touches P s s' → timers_owned s → timers_owned s'.
Proof.
  intros T O e He. rewrite (t_length _ _ _ T).
  destruct (t_timer_owner _ _ _ T e He) as [?|?]; [by apply O|done].
Qed.

End Armed.

(** ** The microtask checkpoint *)
Section Checkpoint.
Context `{Collaborators}.
Implicit Types (s : Api) (u v : nat) (P : nat → Prop) (J : list nat).

Lemma consistent_with_drop j J s :
  consistent_with (j :: J) s → j ∉ uploads s →
  promise_of s j = deferred_of s j → consistent_with J s.
Proof.
  intros C Hj Hpj. split; try (by apply C).
  - intros u Hu. destruct (c_tracked _ _ C u Hu) as [?|Hin]; [by left|].
    apply elem_of_cons in Hin as [->|?]; [done | by right].
  - intros i Hi. apply (c_jobs _ _ C), elem_of_cons. by right.
  - intros u Hs. destruct (c_reacted _ _ C u Hs) as [Hin|?]; [|by right].
    apply elem_of_cons in Hin as [->|?]; [by right | by left].
Qed.

Lemma finally_jobs_consistent J s :
  jobs s = [] → consistent_with J s →
  consistent_with [] (foldl run_finally s J) ∧ jobs (foldl run_finally s J) = [].
Proof.
  revert s. induction J as [|j J IH]; intros s Ej C; simpl; [done|].
  apply IH; [done|].
  assert (deferred_of s j ≠ Pending) as Hs.
  { apply (c_jobs _ _ C), elem_of_cons. by left. }
  pose proof (touches_run_finally (λ _, True) s j I Hs) as T.
  apply (consistent_with_drop j).
  - pose proof (consistent_with_touches _ (j :: J) _ _ T) as X.
    change (jobs (run_finally s j)) with (jobs s) in X.
    rewrite Ej in X. by apply X.
  - rewrite uploads_run_finally. apply removeElement_gone, C.
  - rewrite promise_of_run_finally. symmetry. by apply (t_deferred _ _ _ T).
Qed.

Lemma consistent_with_set_jobs J J' s :
  consistent_with J s → consistent_with J (set_jobs J' s).
Proof. intros C. split; apply C. Qed.

Lemma jobs_drain s : consistent s → jobs (drain s) = [].
Proof.
  intros C.
  apply (finally_jobs_consistent (jobs s) (set_jobs [] s)); [done|].
  by apply consistent_with_set_jobs.
Qed.

Lemma consistent_drain s : consistent s → consistent (drain s).
Proof.
  intros C. unfold consistent. rewrite jobs_drain by done.
  apply (finally_jobs_consistent (jobs s) (set_jobs [] s)); [done|].
  by apply consistent_with_set_jobs.
Qed.

Lemma touches_drain s :
  consistent s → touches (λ v, v ∈ jobs s) (set_jobs [] s) (drain s).
Proof.
  intros C. apply touches_finally_jobs.
  intros j Hj. split; [done|]. by apply (c_jobs _ _ C).
Qed.

Lemma keeps_armed_finally_jobs J s : keeps_armed s (foldl run_finally s J).
Proof.
  apply keeps_armed_same.
  - revert s. induction J as [|j J IH]; intros s; simpl; [done|]. by rewrite IH.
  - revert s. induction J as [|j J IH]; intros s; simpl; [done|]. by rewrite IH.
Qed.

Lemma wf_drain s : consistent s → armed s → timers_owned s → wf (drain s).
Proof.
  intros C A O.
  pose proof (consistent_drain s C) as C'.
  split; [done|..].
  - eapply armed_touches; [by apply touches_drain| |exact A].
    apply (keeps_armed_finally_jobs (jobs s) (set_jobs [] s)).
  - eapply timers_owned_touches; [by apply touches_drain|exact O].
  - intros u Hu. destruct (c_tracked _ _ C' u Hu) as [?|Hj]; [done|].
    rewrite jobs_drain in Hj by done. by apply elem_of_nil in Hj.
Qed.

(** What a checkpoint leaves alone. *)
Lemma heap_finally_jobs J s v :
  heap (foldl run_finally s J) !! v
  = (λ up, if decide (v ∈ J) then with_promise (deferred up) up else up)
      <$> heap s !! v.
Proof.
  revert s. induction J as [|j J IH]; intros s.
  - change (foldl run_finally s []) with s.
    destruct (heap s !! v) as [up|]; [|done].
    change ((λ up, if decide (v ∈ []) then with_promise (deferred up) up else up)
              <$> Some up)
      with (Some (if decide (v ∈ []) then with_promise (deferred up) up else up)).
    by rewrite decide_False by apply not_elem_of_nil.
  - change (foldl run_finally s (j :: J))
      with (foldl run_finally (run_finally s j) J).
    rewrite IH.
    change (heap (run_finally s j))
      with (alter (λ up, with_promise (deferred up) up) j (heap s)).
    rewrite list_lookup_alter.
    destruct (decide (j = v)) as [->|Hne];
      destruct (heap s !! v) as [up|]; try done.
    + change (Some (if decide (v ∈ J)
                    then with_promise (deferred (with_promise (deferred up) up))
                           (with_promise (deferred up) up)
                    else with_promise (deferred up) up)
              = Some (if decide (v ∈ v :: J)
                      then with_promise (deferred up) up else up)).
      rewrite (decide_True (P := v ∈ v :: J)) by (apply elem_of_cons; by left).
      by destruct (decide (v ∈ J)).
    + change (Some (if decide (v ∈ J) then with_promise (deferred up) up else up)
              = Some (if decide (v ∈ j :: J)
                      then with_promise (deferred up) up else up)).
      destruct (decide (v ∈ J)) as [Hin|Hout].
      * rewrite decide_True; [done|]. apply elem_of_cons. by right.
      * rewrite decide_False; [done|]. rewrite not_elem_of_cons. by split.
Qed.

Lemma deferred_of_drain s v : deferred_of (drain s) v = deferred_of s v.
Proof.
  unfold deferred_of, drain. rewrite heap_finally_jobs. simpl.
  destruct (heap s !! v); simpl; [|done]. by destruct (decide _).
Qed.

Lemma xhr_of_drain s v : xhr_of (drain s) v = xhr_of s v.
Proof.
  unfold xhr_of, drain. rewrite heap_finally_jobs. simpl.
  destruct (heap s !! v); simpl; [|done]. by destruct (decide _).
Qed.

Lemma request_of_drain s v : request_of (drain s) v = request_of s v.
Proof.
  unfold request_of, drain. rewrite heap_finally_jobs. simpl.
  destruct (heap s !! v); simpl; [|done]. by destruct (decide _).
Qed.

Lemma controller_of_drain s v : controller_of (drain s) v = controller_of s v.
Proof.
  unfold controller_of, drain. rewrite heap_finally_jobs. simpl.
  destruct (heap s !! v); simpl; [|done]. by destruct (decide _).
Qed.

Lemma promise_of_drain s v :
  promise_of (drain s) v
  = if decide (v ∈ jobs s) then deferred_of s v else promise_of s v.
Proof.
  unfold promise_of, deferred_of, drain. rewrite heap_finally_jobs. simpl.
  destruct (heap s !! v); simpl; by destruct (decide _).
Qed.

Lemma timers_drain s : timers (drain s) = timers s.
Proof.
  unfold drain. change (timers s) with (timers (set_jobs [] s)).
  generalize (set_jobs [] s) as s0. generalize (jobs s) as J.
  induction J as [|j J IH]; intros s0; simpl; [done|]. by rewrite IH.
Qed.

Lemma now_drain s : now (drain s) = now s.
Proof.
  unfold drain. change (now s) with (now (set_jobs [] s)).
  generalize (set_jobs [] s) as s0. generalize (jobs s) as J.
  induction J as [|j J IH]; intros s0; simpl; [done|]. by rewrite IH.
Qed.

Lemma controllers_drain s : controllers (drain s) = controllers s.
Proof.
  unfold drain. change (controllers s) with (controllers (set_jobs [] s)).
  generalize (set_jobs [] s) as s0. generalize (jobs s) as J.
  induction J as [|j J IH]; intros s0; simpl; [done|]. by rewrite IH.
Qed.

Lemma opts_drain s : opts (drain s) = opts s.
Proof.
  unfold drain. change (opts s) with (opts (set_jobs [] s)).
  generalize (set_jobs [] s) as s0. generalize (jobs s) as J.
  induction J as [|j J IH]; intros s0; simpl; [done|]. by rewrite IH.
Qed.

(** The uploads that leave the registry at a checkpoint are those whose
    deferred was settled in the task. *)
Lemma uploads_finally_jobs J s :
  (∀ j, j ∈ J → j ∉ uploads s) → uploads (foldl run_finally s J) = uploads s.
Proof.
  revert s. induction J as [|j J IH]; intros s HJ; simpl; [done|].
  assert (uploads (run_finally s j) = uploads s) as E.
  { rewrite uploads_run_finally. apply removeElement_absent, HJ, elem_of_cons.
    by left. }
  rewrite IH; [done|]. intros i Hi. rewrite E. apply HJ, elem_of_cons. by right.
Qed.

Lemma uploads_drain_wf s : wf s → uploads (drain s) = uploads s.
Proof.
  intros W. apply (uploads_finally_jobs (jobs s) (set_jobs [] s)).
  intros j Hj Hin. simpl in Hin.
  by apply (c_jobs _ _ (wf_consistent _ W) j Hj), (wf_live _ W).
Qed.

Lemma elem_of_uploads_drain s u :
  consistent s → u ∈ uploads (drain s) ↔ u ∈ uploads s ∧ deferred_of s u = Pending.
Proof.
  intros C. split.
  - intros Hu.
    split.
    + eapply elem_of_sublist; [done|]. apply (touches_drain s C).
    + rewrite <- deferred_of_drain.
      destruct (c_tracked _ _ (consistent_drain s C) u Hu) as [?|Hj]; [done|].
      rewrite jobs_drain in Hj by done. by apply elem_of_nil in Hj.
  - intros [Hu Hp].
    apply (t_registered _ _ _ (touches_drain s C)); [|done].
    intros Hj. by apply (c_jobs _ _ C u Hj).
Qed.

(** A task of the host keeps the instance well formed. *)
Lemma wf_task (f : Api → Api) s :
  (∀ s, consistent s → touches (λ _, True) s (f s)) →
  (∀ s, consistent s → keeps_armed s (f s)) →
  wf s → wf (task f s).
Proof.
  intros Hf Hk W. unfold task.
  destruct (wf_drain s (wf_consistent _ W) (wf_armed _ W) (wf_timers _ W))
    as [C A O _].
  apply wf_drain.
  - eapply consistent_touches; [by apply Hf|done].
  - eapply armed_touches; [by apply Hf|by apply Hk|done].
  - eapply timers_owned_touches; [by apply Hf|done].
Qed.

End Checkpoint.

(** ** Host tasks keep the instance well formed *)
Section Tasks.
Context `{Collaborators}.
Implicit Types (s : Api) (u v : nat) (P : nat → Prop).

Lemma wf_progress s u l t : wf s → wf (step s (XhrProgress u l t)).
Proof.
  apply wf_task; intros s' _.
  - destruct (xhr_of s' u) as [x|] eqn:E; [|apply touches_refl].
    apply touches_onprogress; [done|]. by eapply xhr_of_lt.
  - destruct (xhr_of s' u); [apply keeps_armed_onprogress|by apply keeps_armed_same].
Qed.

Lemma wf_readystatechange s u rs r :
  wf s → wf (step s (XhrReadyStateChange u rs r)).
Proof.
  apply wf_task; intros s' _.
  - destruct (xhr_of s' u) as [x|] eqn:E; [|apply touches_refl].
    eapply touches_trans; [by eapply touches_set_xhr|].
    by apply touches_onreadystatechange.
  - destruct (xhr_of s' u) as [x|] eqn:E; [|by apply keeps_armed_same].
    apply (keeps_armed_trans (λ _, True) _ (set_xhr u (xhr_receive rs r x) s')).
    + by apply touches_onreadystatechange.
    + by apply keeps_armed_same.
    + apply keeps_armed_onreadystatechange.
Qed.

Lemma wf_delegated s u r : wf s → wf (step s (DelegateSettled u r)).
Proof.
  apply wf_task; intros s' _.
  - by apply touches_ondelegated.
  - apply keeps_armed_ondelegated.
Qed.

Lemma wf_task_end s : wf s → wf (step s TaskEnd).
Proof. intros [C A O _]. by apply wf_drain. Qed.

(** *** Timers *)

Lemma timeouts_settled (L : list nat) s u :
  u ∈ L → u < length (heap s) → deferred_of (foldl timeoutFn s L) u ≠ Pending.
Proof.
  revert s. induction L as [|a L IH]; intros s Hin Hlt; simpl.
  - by apply elem_of_nil in Hin.
  - apply elem_of_cons in Hin as [->|Hin].
    + assert (deferred_of (timeoutFn s a) a ≠ Pending) as Hs.
      { unfold timeoutFn. apply deferred_of_settle_settled; [|done].
        by rewrite (t_length _ _ _ (touches_xhr_abort (λ _, True) s a I)). }
      rewrite (t_deferred _ _ _
                 (touches_timeouts (λ _, True) (timeoutFn s a) L (λ _ _, I)) a Hs).
      done.
    + apply IH; [done|].
      by rewrite (t_length _ _ _ (touches_timeoutFn (λ _, True) s a I)).
Qed.

Lemma consistent_clock s t (l : list TimerEntry) :
  consistent s → consistent (set_timers l (set_now t s)).
Proof. intros C. split; apply C. Qed.

Lemma wf_elapse s dt : wf s → wf (step s (Elapse dt)).
Proof.
  intros W. simpl. destruct (dt <? 0)%Z eqn:Edt; [done|].
  apply Z.ltb_ge in Edt. unfold task.
  destruct (wf_drain s (wf_consistent _ W) (wf_armed _ W) (wf_timers _ W))
    as [C A O _].
  set (s0 := drain s) in *.
  unfold runCallbacks.
  set (s1 := set_now (now s0 + dt) s0).
  set (due := filter (λ e : TimerEntry, (e.2 ≤ now s1)%Z) (timers s1)).
  set (rest := filter (λ e : TimerEntry, ¬ (e.2 ≤ now s1)%Z) (timers s1)).
  set (s2 := set_timers rest s1).
  assert (consistent s2) as C2 by (by apply consistent_clock).
  pose proof (touches_timeouts (λ _, True) s2 (due.*1) (λ _ _, I)) as T.
  apply wf_drain; [by eapply consistent_touches| |].
  2:{ eapply timers_owned_touches; [done|].
      intros e [_ He]%list_elem_of_filter. by apply O. }
  intros u Hin Hp Hx.
  assert (u ∈ uploads s0) as Hin0 by (by eapply elem_of_sublist, T).
  assert (deferred_of s0 u = Pending) as Hp0.
  { destruct (pending_dec (deferred_of s0 u)) as [?|Hs]; [done|].
    pose proof (t_deferred _ _ _ T u Hs) as E.
    change (deferred_of s2 u) with (deferred_of s0 u) in E. congruence. }
  assert (xhr_of s0 u ≠ None) as Hx0.
  { pose proof (t_xhr _ _ _ T u) as E.
    change (xhr_of s2 u) with (xhr_of s0 u) in E. by rewrite <- E. }
  destruct (A u Hin0 Hp0 Hx0) as (d & Hd & Hle).
  destruct (decide (d ≤ now s1)%Z) as [Hdue|Hnot].
  - exfalso. revert Hp. apply timeouts_settled.
    + apply list_elem_of_fmap. exists (u, d). split; [done|].
      apply list_elem_of_filter. by split.
    + by apply (c_allocated _ _ C).
  - apply (keeps_armed_foldl timeoutFn (λ _ _, True) (due.*1) s2); try done.
    + intros. by apply touches_timeoutFn.
    + intros. apply keeps_armed_timeoutFn.
    + exists d. split; [by apply list_elem_of_filter|]. simpl. lia.
Qed.

End Tasks.

(** ** Calls of the caller *)
Section Calls.
Context `{Collaborators}.
Implicit Types (s : Api) (u v : nat) (P : nat → Prop).

Lemma alter_add_listener (l : Listener) (ls : list Listener) c
    (cs : list AbortController) :
  alter (add_listener l) c (alter (add_listeners ls) c cs)
  = alter (add_listeners (ls ++ [l])) c cs.
Proof.
  rewrite list_alter_alter_eq. apply list_alter_ext; [|done].
  intros k _. unfold add_listener, add_listeners; simpl. by rewrite app_assoc.
Qed.

Lemma alter_add_listeners (ls1 ls2 : list Listener) c
    (cs : list AbortController) :
  alter (add_listeners ls2) c (alter (add_listeners ls1) c cs)
  = alter (add_listeners (ls1 ++ ls2)) c cs.
Proof.
  rewrite list_alter_alter_eq. apply list_alter_ext; [|done].
  intros k _. unfold add_listeners; simpl. by rewrite app_assoc.
Qed.

Lemma alter_add_listener_first (l : Listener) c (cs : list AbortController) :
  alter (add_listener l) c cs = alter (add_listeners [l]) c cs.
Proof. by apply list_alter_ext. Qed.

Lemma uploadContent_unfold file o s :
  uploadContent file o s = (length (heap s), after_upload file o s).
Proof.
  unfold uploadContent, uploadContent_transport, uploadContent_register,
    after_upload, new_record, new_transport, new_listeners, controller_for,
    controllers_for, new_AbortController, addEventListener, controller_of,
    setTimeout.
  destruct (opt_abortController o) as [c|]; simpl;
    destruct (has_XMLHttpRequest s) eqn:E; simpl;
    rewrite ?E; simpl;
    rewrite list_lookup_middle by done; simpl;
    rewrite ?E; simpl;
    rewrite ?alter_add_listener_first, ?alter_add_listeners;
    unfold set_uploads, set_controllers, set_timers, set_heap; simpl;
    rewrite ?E; done.
Qed.


(** *** Observations after [uploadContent] *)

Lemma heap_after_upload file o s v :
  heap (after_upload file o s) !! v
  = if decide (v = length (heap s)) then Some (new_record file o s)
    else heap s !! v.
Proof.
  simpl. destruct (decide (v = length (heap s))) as [->|Hne].
  - by apply list_lookup_middle.
  - destruct (decide (v < length (heap s))).
    + by apply lookup_app_l.
    + rewrite !lookup_ge_None_2; [done|lia|]. rewrite length_app; simpl. lia.
Qed.

Lemma deferred_of_after_upload file o s v :
  deferred_of (after_upload file o s) v = deferred_of s v.
Proof.
  unfold deferred_of. rewrite heap_after_upload.
  destruct (decide _) as [->|]; [|done].
  by rewrite lookup_ge_None_2.
Qed.

Lemma promise_of_after_upload file o s v :
  promise_of (after_upload file o s) v = promise_of s v.
Proof.
  unfold promise_of. rewrite heap_after_upload.
  destruct (decide _) as [->|]; [|done].
  by rewrite lookup_ge_None_2.
Qed.

Lemma controller_of_after_upload file o s v :
  controller_of (after_upload file o s) v
  = if decide (v = length (heap s)) then Some (controller_for o s)
    else controller_of s v.
Proof.
  unfold controller_of. rewrite heap_after_upload. by destruct (decide _).
Qed.

Lemma xhr_of_after_upload file o s v :
  v ≠ length (heap s) → xhr_of (after_upload file o s) v = xhr_of s v.
Proof.
  intros Hne. unfold xhr_of. rewrite heap_after_upload.
  by rewrite decide_False.
Qed.

Lemma request_of_after_upload file o s v :
  v ≠ length (heap s) → request_of (after_upload file o s) v = request_of s v.
Proof.
  intros Hne. unfold request_of. rewrite heap_after_upload.
  by rewrite decide_False.
Qed.

Lemma xhr_of_new_upload file o s :
  xhr_of (after_upload file o s) (length (heap s))
  = if has_XMLHttpRequest s
    then Some (upload_xhr (opts s) file (resolve_contentType file o)
                 (upload_url (opts s) (default true (opt_includeFilename o))
                    (resolve_fileName file o)))
    else None.
Proof.
  unfold xhr_of. rewrite heap_after_upload, decide_True by done.
  simpl. unfold new_transport. by destruct (has_XMLHttpRequest s).
Qed.

Lemma request_of_new_upload file o s :
  request_of (after_upload file o s) (length (heap s))
  = if has_XMLHttpRequest s then None
    else Some (upload_request file (resolve_contentType file o)
                 (default true (opt_includeFilename o))
                 (resolve_fileName file o) (controller_for o s)).
Proof.
  unfold request_of. rewrite heap_after_upload, decide_True by done.
  simpl. unfold new_transport. by destruct (has_XMLHttpRequest s).
Qed.

Lemma valid_controller_for o s :
  valid_opts s o = true → controller_for o s < length (controllers_for o s).
Proof.
  unfold valid_opts, controller_for, controllers_for.
  destruct (opt_abortController o) as [c|]; simpl.
  - by intros ?%bool_decide_eq_true.
  - intros _. rewrite length_app; simpl. lia.
Qed.

(** A controller after the call is a controller before the call, or the
    fresh one; the controller of the upload has gained its listeners. *)
Lemma controllers_after_upload file o s c k' :
  controllers (after_upload file o s) !! c = Some k' →
  ∃ k, controllers_for o s !! c = Some k
       ∧ aborted k' = aborted k
       ∧ (c ≠ controller_for o s → k' = k)
       ∧ (c = controller_for o s →
          listeners k' = listeners k ++ new_listeners s).
Proof.
  simpl. rewrite list_lookup_alter.
  destruct (decide (controller_for o s = c)) as [<-|Hne].
  - destruct (controllers_for o s !! controller_for o s) as [k|]; [|done].
    simpl. intros [= <-]. exists k. by repeat split.
  - intros Hk. exists k'. by repeat split.
Qed.

Lemma controllers_for_lookup o s c k :
  controllers_for o s !! c = Some k →
  controllers s !! c = Some k
  ∨ (opt_abortController o = None ∧ c = length (controllers s)
     ∧ k = new_controller).
Proof.
  unfold controllers_for. destruct (opt_abortController o); [by left|].
  intros [[? ?]|[? ?]]%lookup_snoc_Some; [by left|by right].
Qed.

Lemma wf_after_upload file o s :
  wf s → valid_opts s o = true → wf (after_upload file o s).
Proof.
  intros [C A O L] Hv.
  pose proof (valid_controller_for o s Hv) as Hc.
  assert (length (heap s) ∉ uploads s) as Hfresh.
  { intros Hin. apply (c_allocated _ _ C) in Hin. lia. }
  assert (∀ v c, controller_of s v = Some c → c ≠ length (controllers s))
    as Hold.
  { intros v c Hvc. apply (c_controller _ _ C) in Hvc. lia. }
  split; [split|..].
  - intros u. simpl. rewrite elem_of_app, list_elem_of_singleton, length_app.
    simpl. intros [Hu| ->]; [|lia]. apply (c_allocated _ _ C) in Hu. lia.
  - simpl. apply NoDup_app. split; [apply C|]. split.
    + intros u Hu ->%list_elem_of_singleton. done.
    + apply NoDup_singleton.
  - intros u. rewrite deferred_of_after_upload. simpl.
    rewrite elem_of_app, list_elem_of_singleton.
    intros [Hu| ->]; [by apply C|]. left.
    unfold deferred_of. by rewrite lookup_ge_None_2.
  - intros u. rewrite deferred_of_after_upload. simpl.
    rewrite length_app, elem_of_app, list_elem_of_singleton. simpl.
    intros Hlt Hp. destruct (decide (u = length (heap s))); [by right|].
    left. apply (c_registered _ _ C); [lia|done].
  - intros j. rewrite deferred_of_after_upload. apply C.
  - intros u. rewrite promise_of_after_upload, deferred_of_after_upload.
    apply C.
  - intros u. rewrite promise_of_after_upload, deferred_of_after_upload.
    apply C.
  - intros u c. rewrite controller_of_after_upload. simpl.
    rewrite length_alter.
    destruct (decide _) as [->|]; [by intros [= <-]|].
    intros Hu. apply (c_controller _ _ C) in Hu.
    unfold controllers_for. destruct (opt_abortController o); [done|].
    rewrite length_app; simpl. lia.
  - intros u c k' Hin Hu Hk' Hab.
    destruct (controllers_after_upload _ _ _ _ _ Hk') as (k & Hk & Ea & Hother & Hmine).
    rewrite controller_of_after_upload in Hu.
    simpl in Hin. apply elem_of_app in Hin as [Hin|Hin%list_elem_of_singleton].
    + rewrite decide_False in Hu by (by intros ->).
      assert (AbortUpload u ∈ listeners k) as Hl.
      { destruct (controllers_for_lookup _ _ _ _ Hk) as [Hk0|(_ & -> & _)].
        - apply (c_listening _ _ C u c k); try done. congruence.
        - by destruct (Hold u _ Hu). }
      destruct (decide (c = controller_for o s)) as [Ec|Ec].
      * rewrite (Hmine Ec). apply elem_of_app. by left.
      * by rewrite (Hother Ec).
    + subst u. rewrite decide_True in Hu by done. injection Hu as <-.
      rewrite (Hmine eq_refl). apply elem_of_app. right.
      unfold new_listeners. apply elem_of_app. right.
      by apply list_elem_of_singleton.
  - intros c k' u Hk' Hx.
    destruct (controllers_after_upload _ _ _ _ _ Hk') as (k & Hk & Ea & Hother & Hmine).
    assert (AbortXhr u ∈ listeners k → AbortUpload u ∈ listeners k) as Hp.
    { destruct (controllers_for_lookup _ _ _ _ Hk) as [Hk0|(_ & _ & ->)].
      - by apply (c_paired _ _ C c k u).
      - by intros ?%elem_of_nil. }
    destruct (decide (c = controller_for o s)) as [Ec|Ec].
    + rewrite (Hmine Ec) in *. rewrite elem_of_app in *.
      destruct Hx as [Hx|Hx]; [left; by apply Hp|]. right.
      unfold new_listeners in *. rewrite elem_of_app in *.
      destruct Hx as [Hx|Hx%list_elem_of_singleton]; [|done].
      destruct (has_XMLHttpRequest s); [|by apply elem_of_nil in Hx].
      apply list_elem_of_singleton in Hx as [= ->].
      right. by apply list_elem_of_singleton.
    + rewrite (Hother Ec) in *. by apply Hp.
  - intros c k' l Hk' Hl.
    destruct (controllers_after_upload _ _ _ _ _ Hk') as (k & Hk & Ea & Hother & Hmine).
    rewrite controller_of_after_upload.
    assert (l ∈ listeners k →
            owner l ≠ length (heap s) ∧ controller_of s (owner l) = Some c)
      as Hp.
    { destruct (controllers_for_lookup _ _ _ _ Hk) as [Hk0|(_ & _ & ->)].
      - intros Hl'. pose proof (c_owner _ _ C c k l Hk0 Hl') as Ho.
        split; [|done]. apply controller_of_lt in Ho. lia.
      - by intros ?%elem_of_nil. }
    destruct (decide (c = controller_for o s)) as [Ec|Ec].
    + rewrite (Hmine Ec) in Hl. apply elem_of_app in Hl as [Hl|Hl].
      * destruct (Hp Hl) as [? ?]. by rewrite decide_False.
      * assert (owner l = length (heap s)) as ->.
        { unfold new_listeners in Hl. apply elem_of_app in Hl as [Hl|Hl].
          - destruct (has_XMLHttpRequest s); [|by apply elem_of_nil in Hl].
            by apply list_elem_of_singleton in Hl as ->.
          - by apply list_elem_of_singleton in Hl as ->. }
        rewrite decide_True by done. by rewrite Ec.
    + rewrite (Hother Ec) in Hl. destruct (Hp Hl) as [? ?].
      by rewrite decide_False.
  - intros u Hin. rewrite deferred_of_after_upload. intros Hp Hx.
    simpl in Hin. apply elem_of_app in Hin as [Hin|Hin%list_elem_of_singleton].
    + rewrite xhr_of_after_upload in Hx by (by intros ->).
      destruct (A u Hin Hp Hx) as (d & Hd & Hle).
      exists d. split; [|done]. simpl.
      destruct (has_XMLHttpRequest s); [|done].
      apply elem_of_insert_timer. by right.
    + subst u. rewrite xhr_of_new_upload in Hx.
      exists (now s + 30000)%Z. split; [|simpl; lia]. simpl.
      destruct (has_XMLHttpRequest s); [|done].
      apply elem_of_insert_timer. by left.
  - intros e. simpl. rewrite length_app. simpl. intros He.
    assert (e ∈ timers s ∨ e.1 = length (heap s)) as [He'|Ee].
    { destruct (has_XMLHttpRequest s); [|by left].
      apply elem_of_insert_timer in He as [->|?]; [by right|by left]. }
    + apply O in He'. lia.
    + lia.
  - intros u Hin. rewrite deferred_of_after_upload.
    simpl in Hin. apply elem_of_app in Hin as [Hin|Hin%list_elem_of_singleton].
    + by apply L.
    + subst u. unfold deferred_of. by rewrite lookup_ge_None_2.
Qed.

End Calls.

(** ** Aborting *)
Section Abort.
Context `{Collaborators}.
Implicit Types (s : Api) (u v : nat) (P : nat → Prop) (L : list Listener).

Lemma deferred_of_set_xhr s u x v :
  deferred_of (set_xhr u x s) v = deferred_of s v.
Proof.
  unfold deferred_of, set_xhr. rewrite lookup_update.
  destruct (decide (u = v)); [|done]. by destruct (heap s !! v).
Qed.

Lemma xhr_of_set_xhr s u x x' :
  xhr_of s u = Some x → xhr_of (set_xhr u x' s) u = Some x'.
Proof.
  unfold xhr_of, set_xhr. rewrite lookup_update_eq.
  by destruct (heap s !! u).
Qed.

Lemma length_heap_set_xhr s u x :
  length (heap (set_xhr u x s)) = length (heap s).
Proof. apply length_alter. Qed.

(** A settlement changes the deferred of its upload, if it is pending. *)
Lemma deferred_of_settle_cases s u r v :
  deferred_of (settle u r s) v = deferred_of s v
  ∨ (v = u ∧ deferred_of s u = Pending ∧ deferred_of (settle u r s) u = r).
Proof.
  destruct (settle_unfold s u r) as [(Hlt & Hp & E)|[(_ & ->)|(_ & ->)]];
    [|by left..].
  destruct (decide (v = u)) as [->|Hne].
  - right. repeat split; [done|]. by apply deferred_of_settle.
  - left. rewrite E.
    change (deferred_of (update u (with_deferred r) s) v = deferred_of s v).
    rewrite deferred_of_with_deferred, decide_False; [done|].
    by intros [-> _].
Qed.

Lemma deferred_of_onreadystatechange s u x v :
  xhr_of s u = Some x →
  deferred_of (onreadystatechange u s) v
  = if decide (v = u ∧ readyState x = DONE ∧ deferred_of s u = Pending)
    then done_settlement (response x) else deferred_of s v.
Proof.
  intros Hx. unfold onreadystatechange. rewrite Hx.
  destruct (Z.eqb_spec (readyState x) DONE) as [Hd|Hd].
  - destruct (deferred_of_settle_cases (clearTimeout u s) u
                (done_settlement (response x)) v) as [E|(-> & Hp & E)].
    + rewrite E. destruct (decide _) as [(-> & _ & Hp)|]; [|done].
      rewrite deferred_of_settle in E; [|by eapply xhr_of_lt|done].
      by rewrite E.
    + rewrite E. by rewrite decide_True.
  - rewrite decide_False; [done|]. by intros (_ & ? & _).
Qed.

(** [xhr.abort()] rejects the deferred of a request in flight, through
    the [readystatechange] that it fires. *)
Lemma deferred_of_xhr_abort s u v :
  deferred_of (xhr_abort u s) v
  = match xhr_of s u with
    | Some x =>
        if decide (v = u ∧ in_flight x = true ∧ deferred_of s u = Pending)
        then Rejected (DOMException "" "AbortError")
        else deferred_of s v
    | None => deferred_of s v
    end.
Proof.
  unfold xhr_abort. destruct (xhr_of s u) as [x|] eqn:Hx; [|done].
  destruct (in_flight x) eqn:Hf.
  - rewrite deferred_of_set_xhr.
    rewrite (deferred_of_onreadystatechange _ _
               (xhr_receive DONE network_error x))
      by (by eapply xhr_of_set_xhr).
    rewrite !deferred_of_set_xhr. simpl.
    destruct (decide (v = u ∧ _ ∧ _)) as [(-> & _ & Hp)|Hn].
    + by rewrite decide_True.
    + rewrite decide_False; [done|]. intros (-> & _ & Hp). by apply Hn.
  - rewrite decide_False by (by intros (_ & ? & _)).
    destruct (readyState x =? DONE)%Z; [|done]. by rewrite deferred_of_set_xhr.
Qed.

Lemma deferred_of_run_listener s l v :
  deferred_of (run_listener s l) v = deferred_of s v
  ∨ (v = owner l ∧ deferred_of s v = Pending
     ∧ abort_rejected (deferred_of (run_listener s l) v)).
Proof.
  destruct l as [u|u]; simpl.
  - rewrite deferred_of_xhr_abort. destruct (xhr_of s u) as [x|]; [|by left].
    destruct (decide _) as [(-> & _ & Hp)|]; [|by left].
    right. repeat split; [done|]. by eexists.
  - destruct (deferred_of_settle_cases
                (set_uploads (removeElement (Nat.eqb u) (uploads s)) s) u
                (Rejected (DOMException "Aborted" "AbortError")) v)
      as [E|(-> & Hp & E)]; [by left|].
    right. repeat split; [done|]. rewrite E. by eexists.
Qed.

Lemma uploads_run_listener_upload s u :
  uploads (run_listener s (AbortUpload u)) = removeElement (Nat.eqb u) (uploads s).
Proof. simpl. by rewrite uploads_settle. Qed.

(** After the listeners of a signal have run, the uploads that listened
    for it are out of the registry, rejected for an abort if they were
    pending. *)
Lemma listeners_gone L s u :
  NoDup (uploads s) → (∀ l, l ∈ L → owner l < length (heap s)) →
  AbortUpload u ∈ L → u ∉ uploads (foldl run_listener s L).
Proof.
  revert s. induction L as [|l L IH]; intros s Hnd Hal Hin; simpl.
  - by apply elem_of_nil in Hin.
  - assert (touches (λ _, True) s (run_listener s l)) as T.
    { apply touches_run_listener; [done|]. apply Hal, elem_of_cons. by left. }
    assert (∀ l', l' ∈ L → owner l' < length (heap (run_listener s l))) as Hal'.
    { intros l' Hl'. rewrite (t_length _ _ _ T). apply Hal, elem_of_cons.
      by right. }
    apply elem_of_cons in Hin as [<-|Hin].
    + intros Hu.
      assert (u ∈ uploads (run_listener s (AbortUpload u))) as Hu'.
      { eapply elem_of_sublist; [done|].
        apply (touches_listeners (λ _, True)). naive_solver. }
      rewrite uploads_run_listener_upload in Hu'.
      by apply removeElement_gone in Hu'.
    + apply IH; [|done|done]. eapply sublist_NoDup; [done|apply T].
Qed.

Lemma listeners_settled L s u :
  (∀ l, l ∈ L → owner l < length (heap s)) →
  AbortUpload u ∈ L → deferred_of (foldl run_listener s L) u ≠ Pending.
Proof.
  revert s. induction L as [|l L IH]; intros s Hal Hin; simpl.
  - by apply elem_of_nil in Hin.
  - assert (touches (λ _, True) s (run_listener s l)) as T.
    { apply touches_run_listener; [done|]. apply Hal, elem_of_cons. by left. }
    assert (∀ l', l' ∈ L → owner l' < length (heap (run_listener s l))) as Hal'.
    { intros l' Hl'. rewrite (t_length _ _ _ T). apply Hal, elem_of_cons.
      by right. }
    apply elem_of_cons in Hin as [<-|Hin]; [|by apply IH].
    assert (deferred_of (run_listener s (AbortUpload u)) u ≠ Pending) as Hs.
    { simpl. apply deferred_of_settle_settled; [|done].
      simpl. apply (Hal (AbortUpload u)), elem_of_cons. by left. }
    rewrite (t_deferred _ _ _
               (touches_listeners (λ _, True) _ L
                  (λ l' Hl', conj I (Hal' l' Hl'))) u Hs).
    done.
Qed.

Lemma listeners_abort_rejected L s u :
  deferred_of s u = Pending ∨ abort_rejected (deferred_of s u) →
  deferred_of (foldl run_listener s L) u = Pending
  ∨ abort_rejected (deferred_of (foldl run_listener s L) u).
Proof.
  revert s. induction L as [|l L IH]; intros s Hq; simpl; [done|].
  apply IH.
  destruct (deferred_of_run_listener s l u) as [->|(_ & _ & ?)];
    [done|by right].
Qed.

Lemma listeners_frame L s v :
  (∀ l, l ∈ L → owner l < length (heap s)) →
  (∀ l, l ∈ L → owner l ≠ v) →
  heap (foldl run_listener s L) !! v = heap s !! v
  ∧ (v ∈ uploads s → v ∈ uploads (foldl run_listener s L)).
Proof.
  intros Hal Hne.
  assert (touches (λ w, w ∈ owner <$> L) s (foldl run_listener s L)) as T.
  { apply touches_listeners. intros l Hl. split; [|by apply Hal].
    apply list_elem_of_fmap. by exists l. }
  assert (v ∉ owner <$> L) as Hv.
  { intros (l & -> & Hl)%list_elem_of_fmap. by apply (Hne l). }
  split; [by apply (t_frame _ _ _ T) | by apply (t_registered _ _ _ T)].
Qed.

Lemma consistent_fire s c :
  consistent s → consistent (set_controllers (alter fire c (controllers s)) s).
Proof.
  intros C. split; try (by apply C).
  - intros u c'. simpl. rewrite length_alter. apply C.
  - intros u c' k' Hin Hu. simpl. rewrite list_lookup_alter.
    destruct (decide (c = c')) as [->|Hne];
      [|by apply (c_listening _ _ C)].
    destruct (controllers s !! c') as [k|]; [|done]. by intros [= <-].
  - intros c' k' u. simpl. rewrite list_lookup_alter.
    destruct (decide (c = c')) as [->|Hne]; [|by apply (c_paired _ _ C)].
    destruct (controllers s !! c') as [k|] eqn:E; [|done].
    intros [= <-]. simpl. by apply (c_paired _ _ C c' k).
  - intros c' k' l. simpl. rewrite list_lookup_alter.
    destruct (decide (c = c')) as [->|Hne]; [|by apply (c_owner _ _ C)].
    destruct (controllers s !! c') as [k|] eqn:E; [|done].
    intros [= <-]. simpl. by apply (c_owner _ _ C c' k).
Qed.

Lemma wf_abort s c : wf s → wf (abort c s).
Proof.
  intros W. destruct W as [C A O Lv]. unfold abort.
  destruct (controllers s !! c) as [k|] eqn:Hk; [|done].
  destruct (aborted k) eqn:Hab; [done|].
  set (s0 := set_controllers (alter fire c (controllers s)) s).
  assert (∀ l, l ∈ listeners k → owner l < length (heap s0)) as Hal.
  { intros l Hl. eapply controller_of_lt. by apply (c_owner _ _ C c k). }
  pose proof (touches_listeners (λ _, True) s0 (listeners k)
                (λ l Hl, conj I (Hal l Hl))) as T.
  assert (consistent s0) as C0 by (by apply consistent_fire).
  split.
  - by eapply consistent_touches.
  - eapply armed_touches; [done| |exact A].
    apply (keeps_armed_foldl run_listener
             (λ s l, owner l < length (heap s))); try done.
    + intros. by apply touches_run_listener.
    + intros s1 s2 l T' Hl. by rewrite (t_length _ _ _ T').
    + intros. apply keeps_armed_run_listener.
  - eapply timers_owned_touches; [done|exact O].
  - intros u Hin.
    assert (u ∈ uploads s) as Hin0 by (by eapply elem_of_sublist, T).
    destruct (decide (AbortUpload u ∈ listeners k)) as [Hl|Hl].
    + exfalso. revert Hin. apply listeners_gone; [apply C|done|done].
    + destruct (listeners_frame (listeners k) s0 u Hal) as [E _].
      { intros l Hl' <-. apply Hl. destruct l as [w|w]; [|done].
        by apply (c_paired _ _ C c k). }
      unfold deferred_of. rewrite E. by apply Lv.
Qed.

Lemma wf_new_controller s : wf s → wf (new_AbortController s).2.
Proof.
  intros [C A O L]. split; [|done|done|done].
  split; try (by apply C).
  - intros u c Hu. simpl. rewrite length_app; simpl.
    apply (c_controller _ _ C) in Hu. lia.
  - intros u c k Hin Hu Hk. apply (c_listening _ _ C u c k); try done.
    simpl in Hk. rewrite lookup_app_l in Hk; [done|].
    by eapply (c_controller _ _ C).
  - intros c k u [[? ?]|[? <-]]%lookup_snoc_Some;
      [by eapply (c_paired _ _ C)|].
    by intros ?%elem_of_nil.
  - intros c k l [[? ?]|[? <-]]%lookup_snoc_Some;
      [by eapply (c_owner _ _ C)|].
    by intros ?%elem_of_nil.
Qed.

Lemma find_registered (l : list nat) (p : nat) :
  List.find (Nat.eqb p) l = if decide (p ∈ l) then Some p else None.
Proof.
  induction l as [|x l IH]; simpl.
  - destruct (decide (p ∈ [])) as [Hin|]; [by apply elem_of_nil in Hin|done].
  - destruct (Nat.eqb_spec p x) as [->|Hne].
    + rewrite decide_True; [done|]. apply elem_of_cons. by left.
    + rewrite IH. destruct (decide (p ∈ l)).
      * rewrite decide_True; [done|]. apply elem_of_cons. by right.
      * rewrite decide_False; [done|]. rewrite not_elem_of_cons. by split.
Qed.

Lemma wf_cancelUpload s p : wf s → wf (cancelUpload p s).2.
Proof.
  intros W. unfold cancelUpload.
  destruct (List.find (Nat.eqb p) (uploads s)); [|done]. simpl.
  destruct (controller_of s n); [by apply wf_abort|done].
Qed.

(** ** Every reachable state is well formed *)

Lemma wf_new_api cfg xhr : wf (new_api cfg xhr).
Proof.
  split; [split|..]; simpl; try done;
    try (by intros ? ?%elem_of_nil);
    try (by intros ? ? ? ?%elem_of_nil).
  - apply NoDup_nil_2.
  - intros u Hlt. lia.
Qed.

Lemma wf_step s e : wf s → wf (step s e).
Proof.
  intros W. destruct e.
  - by apply wf_new_controller.
  - simpl. destruct (valid_opts s o) eqn:Hv; [|done].
    rewrite uploadContent_unfold. by apply wf_after_upload.
  - by apply wf_cancelUpload.
  - by apply wf_abort.
  - by apply wf_task_end.
  - by apply wf_progress.
  - by apply wf_readystatechange.
  - by apply wf_elapse.
  - by apply wf_delegated.
Qed.

Lemma wf_run s evs : wf s → wf (run s evs).
Proof.
  revert s. induction evs as [|e evs IH]; intros s W; simpl; [done|].
  by apply IH, wf_step.
Qed.

Lemma reachable_wf s : reachable s → wf s.
Proof. intros (cfg & xhr & evs & ->). apply wf_run, wf_new_api. Qed.

End Abort.

(** ** A deferred is settled once *)
Section Once.
Context `{Collaborators}.
Implicit Types (s : Api) (u v : nat) (P : nat → Prop).

Lemma stable_refl s : stable s s.
Proof. intros v. split; [done|by left]. Qed.

Lemma stable_trans s1 s2 s3 : stable s1 s2 → stable s2 s3 → stable s1 s3.
Proof.
  intros A B v. destruct (A v) as [A1 A2], (B v) as [B1 B2]. split.
  - intros Hs. rewrite B1; [by apply A1|]. by rewrite A1.
  - destruct B2 as [E|[? ?]]; [|by right]. rewrite E.
    destruct A2 as [E'|[Hs E']]; [by left|]. right.
    rewrite (B1 Hs). by split.
Qed.

Lemma stable_touches P s s' : touches P s s' → stable s s'.
Proof. intros T v. split; [apply T|apply T]. Qed.

Lemma stable_same_heap s s' : heap s' = heap s → stable s s'.
Proof.
  intros E v. unfold deferred_of, promise_of. rewrite E.
  split; [done|by left].
Qed.

Lemma stable_drain s : consistent s → stable s (drain s).
Proof. intros C. exact (stable_touches _ _ _ (touches_drain s C)). Qed.

Lemma touches_ok P s s' :
  touches P s s' → consistent s → stable s s' ∧ consistent s'.
Proof.
  intros T C. split; [by eapply stable_touches|by eapply consistent_touches].
Qed.

Lemma task_stable (f : Api → Api) s :
  consistent s →
  (∀ s, consistent s → stable s (f s) ∧ consistent (f s)) →
  stable s (task f s).
Proof.
  intros C Hf. unfold task.
  pose proof (consistent_drain s C) as C1.
  destruct (Hf _ C1) as [S2 C2].
  eapply stable_trans; [by apply stable_drain|].
  eapply stable_trans; [done|]. by apply stable_drain.
Qed.

Lemma abort_ok s c : consistent s → stable s (abort c s) ∧ consistent (abort c s).
Proof.
  intros C. unfold abort.
  destruct (controllers s !! c) as [k|] eqn:Hk; [|split; [apply stable_refl|done]].
  destruct (aborted k) eqn:Hab; [split; [apply stable_refl|done]|].
  set (s0 := set_controllers (alter fire c (controllers s)) s).
  assert (∀ l, l ∈ listeners k → owner l < length (heap s0)) as Hal.
  { intros l Hl. eapply controller_of_lt. by apply (c_owner _ _ C c k). }
  pose proof (touches_listeners (λ _, True) s0 (listeners k)
                (λ l Hl, conj I (Hal l Hl))) as T.
  split.
  - exact (stable_touches _ _ _ T).
  - eapply consistent_touches; [done|]. by apply consistent_fire.
Qed.

Lemma runCallbacks_ok s dt :
  consistent s →
  stable s (runCallbacks (set_now (now s + dt) s))
  ∧ consistent (runCallbacks (set_now (now s + dt) s)).
Proof.
  intros C. unfold runCallbacks.
  set (s1 := set_now (now s + dt) s).
  set (due := filter (λ e : TimerEntry, (e.2 ≤ now s1)%Z) (timers s1)).
  set (rest := filter (λ e : TimerEntry, ¬ (e.2 ≤ now s1)%Z) (timers s1)).
  pose proof (touches_timeouts (λ _, True) (set_timers rest s1) (due.*1)
                (λ _ _, I)) as T.
  split.
  - exact (stable_touches _ _ _ T).
  - eapply consistent_touches; [done|]. by apply consistent_clock.
Qed.

Lemma step_stable s e : wf s → stable s (step s e).
Proof.
  intros W. pose proof (wf_consistent _ W) as C. destruct e; simpl.
  - by apply stable_same_heap.
  - destruct (valid_opts s o); [|apply stable_refl].
    rewrite uploadContent_unfold. intros v. simpl.
    rewrite deferred_of_after_upload, promise_of_after_upload.
    split; [done|by left].
  - unfold cancelUpload. destruct (List.find _ _); [|apply stable_refl].
    simpl. destruct (controller_of s n); [|apply stable_refl].
    by apply abort_ok.
  - by apply abort_ok.
  - by apply stable_drain.
  - apply task_stable; [done|]. intros s' C'.
    destruct (xhr_of s' u) as [x|] eqn:E; [|split; [apply stable_refl|done]].
    apply (touches_ok (λ _, True)); [|done].
    apply touches_onprogress; [done|]. by eapply xhr_of_lt.
  - apply task_stable; [done|]. intros s' C'.
    destruct (xhr_of s' u) as [x|] eqn:E; [|split; [apply stable_refl|done]].
    apply (touches_ok (λ _, True)); [|done].
    eapply touches_trans; [by eapply touches_set_xhr|].
    by apply touches_onreadystatechange.
  - destruct (dt <? 0)%Z; [apply stable_refl|].
    apply task_stable; [done|]. intros s' C'. by apply runCallbacks_ok.
  - apply task_stable; [done|]. intros s' C'.
    apply (touches_ok (λ _, True)); [by apply touches_ondelegated|done].
Qed.

Lemma run_stable s evs : wf s → stable s (run s evs).
Proof.
  revert s. induction evs as [|e evs IH]; intros s W; simpl;
    [apply stable_refl|].
  eapply stable_trans; [by apply step_stable|]. by apply IH, wf_step.
Qed.

Lemma deferred_final s u evs :
  wf s → deferred_of s u ≠ Pending →
  deferred_of (run s evs) u = deferred_of s u.
Proof. intros W. by apply (run_stable s evs W u). Qed.

Lemma promise_final s u evs :
  wf s → promise_of s u ≠ Pending →
  promise_of (run s evs) u = promise_of s u.
Proof.
  intros W Hp.
  destruct (c_promise _ _ (wf_consistent _ W) u Hp) as [Hs E].
  destruct (run_stable s evs W u) as [S1 [S2|[_ S2]]]; [done|].
  by rewrite S2, (S1 Hs).
Qed.

(** A handle that is out of the registry stays out. *)
Lemma settled_unregistered s u evs :
  wf s → deferred_of s u ≠ Pending → u ∉ uploads (run s evs).
Proof.
  intros W Hs Hin.
  apply (wf_live _ (wf_run s evs W)) in Hin.
  by rewrite deferred_final in Hin.
Qed.

End Once.

(** ** What settles a deferred *)
Section Settles.
Context `{Collaborators}.
Implicit Types (s : Api) (u v : nat) (P : nat → Prop).

Lemma deferred_frame P s s' v :
  touches P s s' → ¬ P v → deferred_of s' v = deferred_of s v.
Proof. intros T Hv. unfold deferred_of. by rewrite (t_frame _ _ _ T). Qed.

Lemma deferred_of_onprogress s u l t v :
  deferred_of (onprogress u l t s) v = deferred_of s v.
Proof.
  unfold onprogress, deferred_of; simpl. rewrite list_lookup_alter.
  destruct (decide (u = v)) as [->|]; [|done]. by destruct (heap s !! v).
Qed.

Lemma xhr_of_receive s u x rs r :
  xhr_of s u = Some x →
  xhr_of (set_xhr u (xhr_receive rs r x) s) u = Some (xhr_receive rs r x).
Proof. apply xhr_of_set_xhr. Qed.

(** The terminal state of the request settles the deferred with what the
    handler makes of the response. *)
Lemma deferred_of_done s u r :
  xhr_of s u ≠ None → deferred_of s u = Pending →
  deferred_of (step s (XhrReadyStateChange u DONE r)) u = done_settlement r.
Proof.
  intros Hx Hp. simpl. unfold task. rewrite deferred_of_drain.
  rewrite xhr_of_drain. destruct (xhr_of s u) as [x|] eqn:E; [|done].
  rewrite (deferred_of_onreadystatechange _ _ (xhr_receive DONE r x)).
  - rewrite decide_True; [done|]. repeat split.
    by rewrite deferred_of_set_xhr, deferred_of_drain.
  - eapply xhr_of_set_xhr. by rewrite xhr_of_drain.
Qed.

Lemma jobs_settle s u r :
  u < length (heap s) → deferred_of s u = Pending →
  jobs (settle u r s) = jobs s ++ [u].
Proof.
  intros Hlt Hp.
  by destruct (settle_unfold s u r) as [(_ & _ & ->)|[(? & _)|(? & _)]];
    [|done|lia].
Qed.

(** At the end of the task in which a deferred was settled, the promise
    has its outcome. *)
Lemma promise_of_task (f : Api → Api) s u :
  consistent s →
  (∀ s, consistent s → ∃ P, touches P s (f s)) →
  deferred_of s u = Pending → deferred_of (task f s) u ≠ Pending →
  promise_of (task f s) u = deferred_of (task f s) u.
Proof.
  intros C Hf Hp Hs. unfold task in *.
  rewrite deferred_of_drain in *. rewrite promise_of_drain.
  destruct (Hf (drain s) (consistent_drain s C)) as [P T].
  rewrite decide_True; [done|].
  apply (t_queued _ _ _ T); [by rewrite deferred_of_drain|done].
Qed.

Lemma promise_of_done s u r :
  consistent s → xhr_of s u ≠ None → deferred_of s u = Pending →
  promise_of (step s (XhrReadyStateChange u DONE r)) u = done_settlement r.
Proof.
  intros C Hx Hp. rewrite <- (deferred_of_done s u r Hx Hp).
  assert (deferred_of (step s (XhrReadyStateChange u DONE r)) u ≠ Pending) as Hs.
  { rewrite deferred_of_done by done. apply done_settlement_settled. }
  revert Hs. simpl. apply promise_of_task; [done| |done].
  intros s' _. exists (λ _, True).
  destruct (xhr_of s' u) as [x|] eqn:E; [|apply touches_refl].
  eapply touches_trans; [by eapply touches_set_xhr|].
  by apply touches_onreadystatechange.
Qed.

Lemma deferred_of_delegated s u r :
  request_of s u ≠ None → deferred_of s u = Pending →
  deferred_of (step s (DelegateSettled u r)) u
  = delegated_settlement (opts s) r.
Proof.
  intros Hq Hp. simpl. unfold task, ondelegated.
  rewrite deferred_of_drain, request_of_drain, opts_drain.
  destruct (request_of s u) as [q|] eqn:E; [|done].
  apply deferred_of_settle.
  - rewrite <- request_of_drain in E. by eapply request_of_lt.
  - by rewrite deferred_of_drain.
Qed.

(** *** Every trigger settles *)

Lemma settles_settled s u e :
  wf s → u ∈ uploads s → settles s u e → deferred_of (step s e) u ≠ Pending.
Proof.
  intros W Hin Hset.
  pose proof (wf_consistent _ W) as C.
  pose proof (wf_live _ W u Hin) as Hp.
  pose proof (c_allocated _ _ C u Hin) as Hlt.
  destruct Hset as [r Hx|r Hq|dt d Hdt Hd Hle|c k Hc Hk Hab|p c k Hp' Hcp Hc Hk Hab].
  - rewrite deferred_of_done by done. apply done_settlement_settled.
  - rewrite deferred_of_delegated by done. apply delegated_settlement_settled.
  - simpl. destruct (Z.ltb_spec dt 0) as [?|_]; [lia|].
    unfold task, runCallbacks. rewrite deferred_of_drain.
    apply timeouts_settled.
    + apply list_elem_of_fmap. exists (u, d). split; [done|].
      apply list_elem_of_filter. simpl. rewrite timers_drain, now_drain.
      by split.
    + simpl. by rewrite (t_length _ _ _ (touches_drain s C)).
  - simpl. unfold abort. rewrite Hk, Hab.
    apply listeners_settled.
    + intros l Hl. eapply controller_of_lt. by apply (c_owner _ _ C c k).
    + by apply (c_listening _ _ C u c k).
  - simpl. unfold cancelUpload. rewrite find_registered, decide_True by done.
    simpl. rewrite Hcp. unfold abort. rewrite Hk, Hab.
    apply listeners_settled.
    + intros l Hl. eapply controller_of_lt. by apply (c_owner _ _ C c k).
    + by apply (c_listening _ _ C u c k).
Qed.

(** *** Nothing else settles *)

Lemma abort_settles s c u :
  consistent s → deferred_of s u = Pending →
  deferred_of (abort c s) u ≠ Pending →
  ∃ k, controller_of s u = Some c ∧ controllers s !! c = Some k
       ∧ aborted k = false.
Proof.
  intros C Hp Hs. unfold abort in Hs.
  destruct (controllers s !! c) as [k|] eqn:Hk; [|done].
  destruct (aborted k) eqn:Hab; [done|].
  exists k. split; [|done].
  destruct (decide (u ∈ owner <$> listeners k)) as [Hin|Hout].
  - apply list_elem_of_fmap in Hin as (l & -> & Hl).
    by apply (c_owner _ _ C c k).
  - exfalso. apply Hs. rewrite <- Hp.
    set (s0 := set_controllers (alter fire c (controllers s)) s).
    destruct (listeners_frame (listeners k) s0 u) as [E _].
    + intros l Hl. eapply controller_of_lt. by apply (c_owner _ _ C c k).
    + intros l Hl <-. apply Hout. apply list_elem_of_fmap. by exists l.
    + unfold deferred_of. by rewrite E.
Qed.

Lemma timeouts_frame (L : list nat) s u :
  u ∉ L → deferred_of (foldl timeoutFn s L) u = deferred_of s u.
Proof.
  intros Hu.
  apply (deferred_frame (λ v, v ∈ L)); [|done].
  by apply touches_timeouts.
Qed.

Lemma settled_settles s u e :
  wf s → deferred_of s u = Pending → deferred_of (step s e) u ≠ Pending →
  settles s u e.
Proof.
  intros W Hp Hs. pose proof (wf_consistent _ W) as C.
  destruct e as [|file o|p|c| |v l t|v rs r|dt|v r]; simpl in Hs.
  - done.
  - destruct (valid_opts s o); [|done].
    rewrite uploadContent_unfold in Hs. simpl in Hs.
    by rewrite deferred_of_after_upload in Hs.
  - unfold cancelUpload in Hs. rewrite find_registered in Hs.
    destruct (decide (p ∈ uploads s)) as [Hin|]; [|done]. simpl in Hs.
    destruct (controller_of s p) as [c|] eqn:Hc; [|done].
    destruct (abort_settles s c u C Hp Hs) as (k & ? & ? & ?).
    by eapply settles_cancel.
  - destruct (abort_settles s c u C Hp Hs) as (k & ? & ? & ?).
    by eapply settles_abort.
  - by rewrite deferred_of_drain in Hs.
  - unfold task in Hs. rewrite deferred_of_drain in Hs.
    destruct (xhr_of (drain s) v);
      by rewrite ?deferred_of_onprogress, deferred_of_drain in Hs.
  - unfold task in Hs. rewrite deferred_of_drain, xhr_of_drain in Hs.
    destruct (xhr_of s v) as [x|] eqn:Hx;
      [|by rewrite deferred_of_drain in Hs].
    rewrite (deferred_of_onreadystatechange _ _ (xhr_receive rs r x)) in Hs
      by (eapply xhr_of_set_xhr; by rewrite xhr_of_drain).
    destruct (decide _) as [(-> & Hrs & _)|];
      [|by rewrite deferred_of_set_xhr, deferred_of_drain in Hs].
    simpl in Hrs. subst rs. apply settles_done. by rewrite Hx.
  - destruct (Z.ltb_spec dt 0) as [?|Hdt]; [done|].
    unfold task, runCallbacks in Hs. rewrite deferred_of_drain in Hs.
    set (s1 := set_now (now (drain s) + dt) (drain s)) in *.
    set (due := filter (λ e : TimerEntry, (e.2 ≤ now s1)%Z) (timers s1)) in *.
    destruct (decide (u ∈ due.*1)) as [Hin|Hout].
    + apply list_elem_of_fmap in Hin as ([u' d] & -> & Hd).
      apply list_elem_of_filter in Hd as [Hle Hd]. simpl in *.
      rewrite timers_drain in Hd. rewrite now_drain in Hle.
      by eapply settles_timeout.
    + rewrite timeouts_frame in Hs by done.
      by rewrite <- (deferred_of_drain s u) in Hp.
  - unfold task, ondelegated in Hs.
    rewrite deferred_of_drain, request_of_drain in Hs.
    destruct (request_of s v) as [q|] eqn:Hq;
      [|by rewrite deferred_of_drain in Hs].
    destruct (deferred_of_settle_cases (drain s) v
                (delegated_settlement (opts (drain s)) r) u)
      as [E|(-> & _ & _)].
    + by rewrite E, deferred_of_drain in Hs.
    + apply settles_delegated. by rewrite Hq.
Qed.

Lemma settles_iff s u e :
  wf s → u ∈ uploads s →
  deferred_of (step s e) u ≠ Pending ↔ settles s u e.
Proof.
  intros W Hin. split.
  - apply settled_settles; [done|]. by apply (wf_live _ W).
  - by apply settles_settled.
Qed.

End Settles.

(** ** The registry along the events *)
Section Registry.
Context `{Collaborators}.
Implicit Types (s : Api) (u v : nat) (P : nat → Prop).

Lemma abort_registry s c :
  consistent s →
  uploads (abort c s) `sublist_of` uploads s
  ∧ length (heap (abort c s)) = length (heap s).
Proof.
  intros C. unfold abort.
  destruct (controllers s !! c) as [k|] eqn:Hk; [|done].
  destruct (aborted k) eqn:Hab; [done|].
  set (s0 := set_controllers (alter fire c (controllers s)) s).
  assert (∀ l, l ∈ listeners k → owner l < length (heap s0)) as Hal.
  { intros l Hl. eapply controller_of_lt. by apply (c_owner _ _ C c k). }
  pose proof (touches_listeners (λ _, True) s0 (listeners k)
                (λ l Hl, conj I (Hal l Hl))) as T.
  split; [apply T|apply T].
Qed.

Lemma task_registry (f : Api → Api) s :
  consistent s →
  (∀ s, consistent s →
     consistent (f s) ∧ uploads (f s) `sublist_of` uploads s
     ∧ length (heap (f s)) = length (heap s)) →
  uploads (task f s) `sublist_of` uploads s
  ∧ length (heap (task f s)) = length (heap s).
Proof.
  intros C Hf. unfold task.
  pose proof (consistent_drain s C) as C1.
  destruct (Hf _ C1) as (C2 & S2 & L2).
  pose proof (touches_drain s C) as T1.
  pose proof (touches_drain _ C2) as T3.
  split.
  - etrans; [apply T3|]. simpl. etrans; [done|]. apply T1.
  - rewrite (t_length _ _ _ T3). simpl. rewrite L2. apply T1.
Qed.

Lemma touches_registry P s s' :
  touches P s s' → consistent s →
  consistent s' ∧ uploads s' `sublist_of` uploads s
  ∧ length (heap s') = length (heap s).
Proof.
  intros T C. split; [by eapply consistent_touches|]. split; apply T.
Qed.

Lemma step_registry s e :
  wf s → ¬ is_upload_call e →
  uploads (step s e) `sublist_of` uploads s
  ∧ length (heap (step s e)) = length (heap s).
Proof.
  intros W Hne. pose proof (wf_consistent _ W) as C.
  destruct e as [|file o|p|c| |v l t|v rs r|dt|v r]; simpl.
  - done.
  - by destruct Hne.
  - unfold cancelUpload. destruct (List.find _ _); [|done]. simpl.
    destruct (controller_of s n); [by apply abort_registry|done].
  - by apply abort_registry.
  - pose proof (touches_drain s C) as T. split; apply T.
  - apply task_registry; [done|]. intros s' C'.
    destruct (xhr_of s' v) as [x|] eqn:E; [|done].
    apply (touches_registry (λ _, True)); [|done].
    apply touches_onprogress; [done|]. by eapply xhr_of_lt.
  - apply task_registry; [done|]. intros s' C'.
    destruct (xhr_of s' v) as [x|] eqn:E; [|done].
    apply (touches_registry (λ _, True)); [|done].
    eapply touches_trans; [by eapply touches_set_xhr|].
    by apply touches_onreadystatechange.
  - destruct (dt <? 0)%Z; [done|].
    apply task_registry; [done|]. intros s' C'.
    unfold runCallbacks.
    set (s1 := set_now (now s' + dt) s').
    set (due := filter (λ e : TimerEntry, (e.2 ≤ now s1)%Z) (timers s1)).
    set (rest := filter (λ e : TimerEntry, ¬ (e.2 ≤ now s1)%Z) (timers s1)).
    apply (touches_registry (λ _, True) (set_timers rest s1)).
    + by apply touches_timeouts.
    + by apply consistent_clock.
  - apply task_registry; [done|]. intros s' C'.
    apply (touches_registry (λ _, True)); [by apply touches_ondelegated|done].
Qed.

Lemma step_heap_length s e : wf s → length (heap s) ≤ length (heap (step s e)).
Proof.
  intros W. destruct (decide (is_upload_call e)) as [Hu|Hn].
  - destruct e; try done. simpl. destruct (valid_opts s o); [|done].
    rewrite uploadContent_unfold. simpl. rewrite length_app. lia.
  - destruct (step_registry s e W Hn) as [_ ->]. done.
Qed.

Lemma run_heap_length s evs : wf s → length (heap s) ≤ length (heap (run s evs)).
Proof.
  revert s. induction evs as [|e evs IH]; intros s W; simpl; [done|].
  etrans; [by apply (step_heap_length s e)|]. by apply IH, wf_step.
Qed.

(** After an event that is not a new upload, the registry is the registry
    before it, in the same order, without the handles of the uploads that
    the event settled. *)
Lemma registry_after s e v :
  wf s → ¬ is_upload_call e →
  v ∈ uploads (step s e) ↔ v ∈ uploads s ∧ ¬ settles s v e.
Proof.
  intros W Hne. destruct (step_registry s e W Hne) as [Hsub Hlen].
  pose proof (wf_step s e W) as W'. split.
  - intros Hin. assert (v ∈ uploads s) as Hin0 by (by eapply elem_of_sublist).
    split; [done|]. intros Hset.
    by apply (settles_settled s v e W Hin0 Hset), (wf_live _ W').
  - intros [Hin Hset].
    apply (c_registered _ _ (wf_consistent _ W')).
    + rewrite Hlen. by apply (c_allocated _ _ (wf_consistent _ W)).
    + destruct (pending_dec (deferred_of (step s e) v)) as [?|Hs]; [done|].
      destruct Hset. apply settled_settles; [done| |done]. by apply (wf_live _ W).
Qed.

(** In flight means registered, at every step. *)
Lemma registered_iff_pending s u :
  wf s → u < length (heap s) → u ∈ uploads s ↔ deferred_of s u = Pending.
Proof.
  intros W Hlt. split; [by apply (wf_live _ W)|].
  by apply (c_registered _ _ (wf_consistent _ W)).
Qed.

Lemma uc_result file o s :
  (uploadContent file o s).1 = length (heap s)
  ∧ (uploadContent file o s).2 = after_upload file o s.
Proof. by rewrite uploadContent_unfold. Qed.

Lemma uploads_transport file o s :
  uploads (uploadContent_transport file o s).2 = uploads s.
Proof.
  unfold uploadContent_transport, new_AbortController.
  destruct (opt_abortController o); simpl;
    by destruct (has_XMLHttpRequest s).
Qed.

(** The registry returns to what it was when the event settles the new
    upload and no other. *)
Lemma registry_restored file o s e :
  wf s → valid_opts s o = true →
  settles (after_upload file o s) (length (heap s)) e →
  (∀ v, v ∈ uploads s → ¬ settles (after_upload file o s) v e) →
  uploads (step (after_upload file o s) e) = uploads s.
Proof.
  intros W Hv Hset Hothers.
  pose proof (wf_after_upload file o s W Hv) as W1.
  assert (¬ is_upload_call e) as Hne by (destruct Hset; by intros []).
  assert (length (heap s) ∉ uploads s) as Hfresh.
  { intros Hin. apply (c_allocated _ _ (wf_consistent _ W)) in Hin. lia. }
  apply (sublist_snoc_without _ _ (length (heap s))).
  - by apply (step_registry _ e W1 Hne).
  - rewrite registry_after by done. intros [_ Hn]. by apply Hn.
  - intros v Hin. rewrite registry_after by done. split.
    + simpl. apply elem_of_app. by left.
    + by apply Hothers.
  - apply (c_nodup _ _ (wf_consistent _ W)).
Qed.

End Registry.

(** * The claims *)
Section Claims.
Context `{Collaborators}.
Implicit Types (s : Api) (u v : nat) (P : nat → Prop).

(** ** The registry (C2) *)

Lemma new_upload_registered file o s :
  length (heap s) ∈ uploads (after_upload file o s).
Proof. simpl. apply elem_of_app. right. by apply list_elem_of_singleton. Qed.

Lemma new_upload_streaming file o s :
  has_XMLHttpRequest s = true →
  xhr_of (after_upload file o s) (length (heap s)) ≠ None.
Proof. intros E. by rewrite xhr_of_new_upload, E. Qed.

Lemma new_upload_delegated file o s :
  has_XMLHttpRequest s = false →
  request_of (after_upload file o s) (length (heap s)) ≠ None.
Proof. intros E. by rewrite request_of_new_upload, E. Qed.

Lemma new_upload_timer file o s :
  has_XMLHttpRequest s = true →
  (length (heap s), (now s + 30000)%Z) ∈ timers (after_upload file o s).
Proof. intros E. simpl. rewrite E. apply elem_of_insert_timer. by left. Qed.

Lemma new_upload_controller file o s :
  valid_opts s o = true →
  ∃ k, controllers_for o s !! controller_for o s = Some k
       ∧ controllers (after_upload file o s) !! controller_for o s
         = Some (add_listeners (new_listeners s) k).
Proof.
  intros Hv. pose proof (valid_controller_for o s Hv) as Hlt.
  destruct (lookup_lt_is_Some_2 _ _ Hlt) as [k Hk].
  exists k. split; [done|]. simpl. by rewrite list_lookup_alter_eq, Hk.
Qed.

Lemma own_controller_live file o s :
  wf s → valid_opts s o = true → own_controller o s →
  ∃ k, controllers (after_upload file o s) !! controller_for o s = Some k
       ∧ aborted k = false.
Proof.
  intros W Hv Hown.
  destruct (new_upload_controller file o s Hv) as (k & Hk & Hk').
  exists (add_listeners (new_listeners s) k). split; [done|]. simpl.
  unfold own_controller, controllers_for, controller_for in *.
  destruct (opt_abortController o) as [c|]; simpl in *.
  - destruct Hown as [(k0 & Hk0 & Hab) _]. congruence.
  - rewrite list_lookup_middle in Hk by done. by injection Hk as <-.
Qed.

Lemma own_controller_unshared file o s v :
  wf s → own_controller o s → v ∈ uploads s →
  controller_of (after_upload file o s) v ≠ Some (controller_for o s).
Proof.
  intros W Hown Hin.
  pose proof (c_allocated _ _ (wf_consistent _ W) v Hin) as Hlt.
  rewrite controller_of_after_upload, decide_False by lia.
  unfold own_controller, controller_for in *.
  destruct (opt_abortController o) as [c|]; simpl.
  - by apply Hown.
  - intros Hc. apply (c_controller _ _ (wf_consistent _ W)) in Hc. lia.
Qed.

(** C2 (amended).  A call of [uploadContent] pushes exactly one handle,
    a fresh one, at the end of the call: the registry is still as it was
    when the transport has been started (the payload handed to [xhr.send]
    or to [authedRequest]).  Every settlement removes that handle: after
    the terminal state of the request (success, remote error, connection
    error, status zero), after the settlement of the delegated request,
    after the timeout and after an abort, the registry is again what it
    was before the call, as long as the event settles no other upload;
    and at every later point the registry has no duplicate and holds the
    handle exactly while the upload is unsettled. *)
Theorem C2_one_handle_pushed_and_removed file o s :
  wf s → valid_opts s o = true →
  let u := (uploadContent file o s).1 in
  let s1 := (uploadContent file o s).2 in
  uploads (uploadContent_transport file o s).2 = uploads s
  ∧ uploads s1 = uploads s ++ [u]
  ∧ (u ∉ uploads s)
  ∧ (has_XMLHttpRequest s = true → ∀ r,
       uploads (step s1 (XhrReadyStateChange u DONE r)) = uploads s)
  ∧ (has_XMLHttpRequest s = false → ∀ r,
       uploads (step s1 (DelegateSettled u r)) = uploads s)
  ∧ (has_XMLHttpRequest s = true → ∀ dt, (30000 ≤ dt)%Z →
       (∀ v d, v ∈ uploads s → (v, d) ∈ timers s → (now s + dt < d)%Z) →
       uploads (step s1 (Elapse dt)) = uploads s)
  ∧ (own_controller o s →
       uploads (step s1 (CallCancelUpload u)) = uploads s)
  ∧ (∀ evs,
       NoDup (uploads (run s1 evs))
       ∧ (u ∈ uploads (run s1 evs) ↔ deferred_of (run s1 evs) u = Pending)).
Proof.
  intros W Hv. cbv zeta.
  rewrite !(proj1 (uc_result file o s)), !(proj2 (uc_result file o s)).
  pose proof (wf_after_upload file o s W Hv) as W1.
  set (u := length (heap s)). set (s1 := after_upload file o s).
  assert (u ∉ uploads s) as Hfresh.
  { intros Hin. apply (c_allocated _ _ (wf_consistent _ W)) in Hin.
    unfold u in Hin. lia. }
  split; [apply uploads_transport|].
  split; [done|]. split; [done|].
  split; [|split; [|split; [|split]]].
  - intros Hx r. apply registry_restored; try done.
    + apply settles_done. by apply new_upload_streaming.
    + intros v Hin Hset. inversion Hset; subst. by apply Hfresh.
  - intros Hx r. apply registry_restored; try done.
    + apply settles_delegated. by apply new_upload_delegated.
    + intros v Hin Hset. inversion Hset; subst. by apply Hfresh.
  - intros Hx dt Hdt Hothers. apply registry_restored; try done.
    + apply (settles_timeout _ _ dt (now s + 30000)%Z); [lia| |simpl; lia].
      by apply new_upload_timer.
    + intros v Hin Hset. inversion Hset as [| |dt' d _ Hd Hle| |]; subst.
      simpl in Hd, Hle. rewrite Hx in Hd.
      apply elem_of_insert_timer in Hd as [[= -> ->]|Hd]; [by apply Hfresh|].
      specialize (Hothers v d Hin Hd). lia.
  - intros Hown. apply registry_restored; try done.
    + destruct (own_controller_live file o s W Hv Hown) as (k & Hk & Hab).
      apply (settles_cancel _ _ u (controller_for o s) k); try done.
      * apply new_upload_registered.
      * rewrite controller_of_after_upload. by rewrite decide_True.
      * rewrite controller_of_after_upload. by rewrite decide_True.
    + intros v Hin Hset.
      inversion Hset as [| | | |p c k _ Hcu Hcv _ _]; subst.
      rewrite controller_of_after_upload, decide_True in Hcu by done.
      injection Hcu as <-.
      by apply (own_controller_unshared file o s v W Hown Hin).
  - intros evs. pose proof (wf_run s1 evs W1) as W2. split.
    + apply (c_nodup _ _ (wf_consistent _ W2)).
    + apply registered_iff_pending; [done|].
      eapply Nat.lt_le_trans; [|by apply run_heap_length].
      simpl. rewrite length_app. simpl. unfold u. lia.
Qed.


(** ** Settlement happens once (C3) *)

Lemma promise_after_task_end s u :
  wf s → deferred_of s u ≠ Pending →
  promise_of (step s TaskEnd) u = deferred_of s u.
Proof.
  intros W Hs. simpl. rewrite promise_of_drain.
  destruct (decide (u ∈ jobs s)) as [?|Hout]; [done|].
  by destruct (c_reacted _ _ (wf_consistent _ W) u Hs).
Qed.

(** C3.  The event that settles an upload in flight (the terminal state
    of its request, the settlement of the delegated request, its timeout,
    an abort of its controller) settles its deferred; no other event
    does.  From then on no event changes the deferred, whatever fires
    later for the same upload, and from the end of the task on the
    completion future holds that one outcome: a value, a rejection for an
    abort, or a rejection with another error. *)
Theorem C3_completion_settles_once s u e :
  wf s → u ∈ uploads s → settles s u e →
  let s' := step s e in
  deferred_of s' u ≠ Pending
  ∧ (∀ evs,
       deferred_of (run s' evs) u = deferred_of s' u
       ∧ promise_of (run s' (TaskEnd :: evs)) u = deferred_of s' u)
  ∧ ((∃ value, deferred_of s' u = Resolved value)
     ∨ (∃ err, deferred_of s' u = Rejected err ∧ err_name err = "AbortError")
     ∨ (∃ err, deferred_of s' u = Rejected err ∧ err_name err ≠ "AbortError"))
  ∧ (∀ e', deferred_of (step s e') u ≠ Pending → settles s u e').
Proof.
  intros W Hin Hset s'.
  pose proof (settles_settled s u e W Hin Hset) as Hs.
  pose proof (wf_step s e W) as W'. fold s' in Hs, W'.
  split; [done|]. split; [|split].
  - intros evs. split; [by apply deferred_final|].
    change (run s' (TaskEnd :: evs)) with (run (step s' TaskEnd) evs).
    pose proof (promise_after_task_end s' u W' Hs) as E.
    rewrite promise_final; [done|by apply wf_step|by rewrite E].
  - destruct (deferred_of s' u) as [|value|err]; [done|left; by eexists|].
    right. destruct (decide (err_name err = "AbortError")).
    + left. by eexists.
    + right. by eexists.
  - intros e'. apply settled_settles; [done|]. by apply (wf_live _ W).
Qed.

(** ** Cancelling (C4) *)

Lemma abort_touches s c k :
  consistent s → controllers s !! c = Some k → aborted k = false →
  touches (λ _, True) (set_controllers (alter fire c (controllers s)) s)
    (abort c s).
Proof.
  intros C Hk Hab. unfold abort. rewrite Hk, Hab.
  apply touches_listeners. intros l Hl. split; [done|].
  eapply controller_of_lt. by apply (c_owner _ _ C c k).
Qed.

Lemma abort_rejects s u c k :
  wf s → u ∈ uploads s → controller_of s u = Some c →
  controllers s !! c = Some k → aborted k = false →
  abort_rejected (deferred_of (abort c s) u) ∧ u ∉ uploads (abort c s).
Proof.
  intros W Hin Hc Hk Hab. pose proof (wf_consistent _ W) as C.
  assert (deferred_of (abort c s) u ≠ Pending) as Hs.
  { apply (settles_settled s u (CallAbort c) W Hin).
    by eapply settles_abort. }
  split.
  - unfold abort in *. rewrite Hk, Hab in *.
    destruct (listeners_abort_rejected (listeners k)
                (set_controllers (alter fire c (controllers s)) s) u)
      as [?|?]; [|done|done].
    left. by apply (wf_live _ W).
  - intros Hin'. by apply Hs, (wf_live _ (wf_abort s c W)).
Qed.

(** C4 (amended).  For an upload in flight whose controller's signal has
    not fired, [cancelUpload] with its completion future returns true,
    rejects the deferred with an error named AbortError (the completion
    future holds it at the end of the task) and removes the handle; every
    later [cancelUpload] with the same future returns false and changes
    nothing, as does [cancelUpload] with a future of no registered
    handle. *)
Theorem C4_cancel_rejects_and_unregisters s u c k :
  wf s → u ∈ uploads s → controller_of s u = Some c →
  controllers s !! c = Some k → aborted k = false →
  let s' := (cancelUpload u s).2 in
  (cancelUpload u s).1 = true
  ∧ abort_rejected (deferred_of s' u)
  ∧ abort_rejected (promise_of (step s' TaskEnd) u)
  ∧ (u ∉ uploads s')
  ∧ (∀ evs, cancelUpload u (run s' evs) = (false, run s' evs))
  ∧ (∀ p, p ∉ uploads s → cancelUpload p s = (false, s)).
Proof.
  intros W Hin Hc Hk Hab.
  assert (cancelUpload u s = (true, abort c s)) as E.
  { unfold cancelUpload. by rewrite find_registered, decide_True, Hc. }
  rewrite E. simpl.
  destruct (abort_rejects s u c k W Hin Hc Hk Hab) as [Hrej Hout].
  assert (deferred_of (abort c s) u ≠ Pending) as Hs.
  { by destruct Hrej as (err & -> & _). }
  pose proof (wf_abort s c W) as W'.
  split; [done|]. split; [done|]. split; [|split; [done|split]].
  - change (drain (abort c s)) with (step (abort c s) TaskEnd).
    by rewrite promise_after_task_end.
  - intros evs. unfold cancelUpload.
    rewrite find_registered, decide_False; [done|].
    by apply settled_unregistered.
  - intros p Hp. unfold cancelUpload. by rewrite find_registered, decide_False.
Qed.

(** ** The terminal state of the request (C1, C6, C7) *)

Lemma done_settlement_status_zero r :
  status r = 0%Z →
  done_settlement r = Rejected (DOMException (statusText r) "AbortError").
Proof. intros E. unfold done_settlement, done_attempt. by rewrite E. Qed.

Lemma done_settlement_empty r :
  status r ≠ 0%Z → responseText r = "" →
  done_settlement r
  = Rejected (ConnectionError "request failed" (Error "No response body.")).
Proof.
  intros Hst E. unfold done_settlement, done_attempt. rewrite E.
  by destruct (Z.eqb_spec (status r) 0).
Qed.

Lemma done_settlement_success r j :
  status r ≠ 0%Z → (status r < 400)%Z → responseText r ≠ "" →
  JSON_parse (responseText r) = Normal j →
  done_settlement r = Resolved (ParsedBody j).
Proof.
  intros Hst Hlt Hb E. unfold done_settlement, done_attempt. rewrite E.
  destruct (Z.eqb_spec (status r) 0); [done|].
  destruct (String.eqb_spec (responseText r) ""); [done|].
  by destruct (Z.leb_spec 400 (status r)); [lia|].
Qed.

(** C7.  For a streaming upload in flight, the terminal state of the
    request with status zero rejects the deferred and the completion
    future with a [DOMException] named AbortError, whatever the body and
    whether or not any controller was aborted: the status is tested first
    and the name is tested before an error is wrapped in a
    [ConnectionError]. *)
Theorem C7_status_zero_rejects_with_abort s u r :
  wf s → u ∈ uploads s → xhr_of s u ≠ None → status r = 0%Z →
  let s' := step s (XhrReadyStateChange u DONE r) in
  deferred_of s' u = Rejected (DOMException (statusText r) "AbortError")
  ∧ promise_of s' u = Rejected (DOMException (statusText r) "AbortError")
  ∧ abort_rejected (promise_of s' u)
  ∧ err_name (DOMException (statusText r) "AbortError") ≠ "ConnectionError".
Proof.
  intros W Hin Hx Hst s'. unfold s'.
  pose proof (wf_live _ W u Hin) as Hp.
  rewrite deferred_of_done, promise_of_done by (done || apply W).
  rewrite done_settlement_status_zero by done.
  repeat split; [|done]. by eexists.
Qed.

(** C6 (amended).  For a streaming upload in flight, a terminal state
    whose status is not zero (so any success status) and whose body is
    empty rejects the completion future with
    [ConnectionError "request failed"], caused by
    [Error "No response body."]; the future is not resolved, and the
    handler does not throw. *)
Theorem C6_empty_body_rejects_with_connection_error s u r :
  wf s → u ∈ uploads s → xhr_of s u ≠ None →
  status r ≠ 0%Z → responseText r = "" →
  promise_of (step s (XhrReadyStateChange u DONE r)) u
  = Rejected (ConnectionError "request failed" (Error "No response body.")).
Proof.
  intros W Hin Hx Hst Hb.
  pose proof (wf_live _ W u Hin) as Hp.
  rewrite promise_of_done by (done || apply W).
  by apply done_settlement_empty.
Qed.

(** The options [rawResponse] and [onlyContentUri] are not read: a
    success resolves to the parsed body. *)
Lemma success_resolves_to_parsed_body s u r j :
  wf s → u ∈ uploads s → xhr_of s u ≠ None →
  status r ≠ 0%Z → (status r < 400)%Z → responseText r ≠ "" →
  JSON_parse (responseText r) = Normal j →
  promise_of (step s (XhrReadyStateChange u DONE r)) u = Resolved (ParsedBody j).
Proof.
  intros W Hin Hx Hst Hlt Hb Hj.
  pose proof (wf_live _ W u Hin) as Hp.
  rewrite promise_of_done by (done || apply W).
  by apply done_settlement_success.
Qed.

Lemma response_options_ignored file o s a b :
  uploadContent file
    {| opt_name := opt_name o; opt_includeFilename := opt_includeFilename o;
       opt_type := opt_type o; opt_rawResponse := a; opt_onlyContentUri := b;
       opt_progressHandler := opt_progressHandler o;
       opt_abortController := opt_abortController o |} s
  = uploadContent file o s.
Proof. done. Qed.

End Claims.

(** ** A signal that has fired (C10) *)
Section Fired.
Context `{Collaborators}.
Implicit Types (s : Api) (u v : nat) (P : nat → Prop).

Lemma same_controllers_trans s1 s2 s3 :
  same_controllers s1 s2 → same_controllers s2 s3 → same_controllers s1 s3.
Proof.
  intros (A1 & A2 & A3) (B1 & B2 & B3). split; [by rewrite B1|]. split.
  - intros v. by rewrite B2.
  - intros v. by rewrite B3.
Qed.

Lemma same_controllers_touches P s s' : touches P s s' → same_controllers s s'.
Proof. intros T. split; [apply T|]. split; apply T. Qed.

Lemma same_controllers_drain s : same_controllers s (drain s).
Proof.
  split; [apply controllers_drain|]. split.
  - apply controller_of_drain.
  - intros v. by rewrite xhr_of_drain.
Qed.

Lemma same_controllers_task (f : Api → Api) s :
  consistent s →
  (∀ s, consistent s → same_controllers s (f s)) →
  same_controllers s (task f s).
Proof.
  intros C Hf. unfold task.
  eapply same_controllers_trans; [apply same_controllers_drain|].
  eapply same_controllers_trans; [|apply same_controllers_drain].
  by apply Hf, consistent_drain.
Qed.

Lemma abort_fired s c : consistent s →
  (∀ v, controller_of (abort c s) v = controller_of s v)
  ∧ (∀ v, xhr_of (abort c s) v = None ↔ xhr_of s v = None)
  ∧ ∀ c' k, controllers s !! c' = Some k →
      ∃ k', controllers (abort c s) !! c' = Some k'
            ∧ (aborted k = true → aborted k' = true).
Proof.
  intros C. unfold abort.
  destruct (controllers s !! c) as [k0|] eqn:Hk0; [|by eauto].
  destruct (aborted k0) eqn:Hab; [by eauto|].
  pose proof (abort_touches s c k0 C Hk0 Hab) as T.
  unfold abort in T. rewrite Hk0, Hab in T.
  split; [apply T|]. split; [apply T|].
  intros c' k Hk. rewrite (t_controllers _ _ _ T). simpl.
  rewrite list_lookup_alter. destruct (decide (c = c')) as [->|]; [|by eauto].
  rewrite Hk. simpl. by eauto.
Qed.

Lemma step_wiring s e u :
  wf s → u < length (heap s) →
  controller_of (step s e) u = controller_of s u
  ∧ (xhr_of (step s e) u = None ↔ xhr_of s u = None)
  ∧ ∀ c k, controllers s !! c = Some k →
      ∃ k', controllers (step s e) !! c = Some k'
            ∧ (aborted k = true → aborted k' = true).
Proof.
  intros W Hlt. pose proof (wf_consistent _ W) as C.
  assert (∀ s', same_controllers s s' →
            controller_of s' u = controller_of s u
            ∧ (xhr_of s' u = None ↔ xhr_of s u = None)
            ∧ ∀ c k, controllers s !! c = Some k →
                ∃ k', controllers s' !! c = Some k'
                      ∧ (aborted k = true → aborted k' = true)) as Hsame.
  { intros s' (E1 & E2 & E3). split; [done|]. split; [done|].
    rewrite E1. by eauto. }
  destruct e as [|file o|p|c'| |v l t|v rs r|dt|v r]; simpl.
  - split; [done|]. split; [done|]. intros c k Hk.
    exists k. split; [|done]. by apply lookup_app_l_Some.
  - destruct (valid_opts s o); [|by eauto].
    rewrite uploadContent_unfold. simpl. split; [|split].
    + change (controller_of (after_upload file o s) u = controller_of s u).
      rewrite controller_of_after_upload, decide_False; [done|lia].
    + change (xhr_of (after_upload file o s) u = None ↔ xhr_of s u = None).
      rewrite xhr_of_after_upload; [done|lia].
    + intros c k Hk.
      assert (controllers_for o s !! c = Some k) as Hk'.
      { unfold controllers_for. destruct (opt_abortController o); [done|].
        by apply lookup_app_l_Some. }
      rewrite list_lookup_alter.
      destruct (decide (controller_for o s = c)) as [->|]; [|by eauto].
      rewrite Hk'. simpl. by eauto.
  - unfold cancelUpload. destruct (List.find _ _); [|by eauto]. simpl.
    destruct (controller_of s n) as [c'|]; [|by eauto].
    destruct (abort_fired s c' C) as (E1 & E2 & E3). by eauto.
  - destruct (abort_fired s c' C) as (E1 & E2 & E3). by eauto.
  - apply Hsame, same_controllers_drain.
  - apply Hsame, same_controllers_task; [done|]. intros s' C'.
    destruct (xhr_of s' v) as [x|] eqn:E; [|done].
    apply (same_controllers_touches (λ _, True)), touches_onprogress; [done|].
    by eapply xhr_of_lt.
  - apply Hsame, same_controllers_task; [done|]. intros s' C'.
    destruct (xhr_of s' v) as [x|] eqn:E; [|done].
    apply (same_controllers_touches (λ _, True)).
    eapply touches_trans; [by eapply touches_set_xhr|].
    by apply touches_onreadystatechange.
  - destruct (dt <? 0)%Z; [by eauto|].
    apply Hsame, same_controllers_task; [done|]. intros s' C'.
    unfold runCallbacks.
    set (s1 := set_now (now s' + dt) s').
    set (due := filter (λ e : TimerEntry, (e.2 ≤ now s1)%Z) (timers s1)).
    set (rest := filter (λ e : TimerEntry, ¬ (e.2 ≤ now s1)%Z) (timers s1)).
    exact (same_controllers_touches (λ _, True) (set_timers rest s1) _
             (touches_timeouts _ _ _ (λ _ _, I))).
  - apply Hsame, same_controllers_task; [done|]. intros s' C'.
    by apply (same_controllers_touches (λ _, True)), touches_ondelegated.
Qed.

(** While the signal of its controller has fired, only its transport
    settles an upload. *)
Lemma fired_settles s u c k e :
  controller_of s u = Some c → controllers s !! c = Some k →
  aborted k = true →
  settles s u e ↔ transport_settles s u e.
Proof.
  intros Hc Hk Hab. split.
  - intros Hset. destruct Hset as [r Hx|r Hq|dt d Hdt Hd Hle|c' k' Hc' Hk' Hab'
                                    |p c' k' Hp Hcp Hc' Hk' Hab']; simpl.
    + done.
    + done.
    + split; [done|]. by exists d.
    + congruence.
    + congruence.
  - destruct e as [|file o|p|c'| |v l t|v rs r|dt|v r]; simpl; try done.
    + intros (-> & -> & Hx). by apply settles_done.
    + intros (Hdt & d & Hd & Hle). by eapply settles_timeout.
    + intros (-> & Hq). by apply settles_delegated.
Qed.

(** An upload whose controller's signal has fired stays in flight, and
    the signal stays fired, as long as its transport does not settle it. *)
Lemma fired_persists s u c k evs :
  wf s → u ∈ uploads s → controller_of s u = Some c →
  controllers s !! c = Some k → aborted k = true →
  transport_silent s u evs →
  wf (run s evs) ∧ u ∈ uploads (run s evs)
  ∧ controller_of (run s evs) u = Some c
  ∧ ∃ k', controllers (run s evs) !! c = Some k' ∧ aborted k' = true.
Proof.
  revert s k. induction evs as [|e evs IH]; intros s k W Hin Hc Hk Hab Hq.
  - simpl. split; [done|]. split; [done|]. split; [done|]. by exists k.
  - destruct Hq as [Hqe Hq]. simpl.
    pose proof (c_allocated _ _ (wf_consistent _ W) u Hin) as Hlt.
    destruct (step_wiring s e u W Hlt) as (Hc' & _ & Hctl).
    destruct (Hctl c k Hk) as (k' & Hk' & Hab'%(λ f, f Hab)).
    apply (IH (step s e) k'); try done.
    + by apply wf_step.
    + destruct (decide (is_upload_call e)) as [Hup|Hno].
      * destruct e; try done. simpl. destruct (valid_opts s o); [|done].
        rewrite uploadContent_unfold. simpl. apply elem_of_app. by left.
      * apply registry_after; [done|done|]. split; [done|].
        intros Hset. by apply Hqe, (fired_settles s u c k e).
    + by rewrite Hc'.
Qed.

(** C10 (amended).  When the signal of the controller that the caller
    supplies has already fired, [uploadContent] leaves the deferred and
    the completion future pending and registers the handle, and the
    listeners it adds never run: at every later point that the upload
    reaches without its transport settling it (whatever the caller calls,
    whatever progress is reported, and while time stops short of its
    timeout), the handle is registered, the future is pending, and
    aborting the controller again or calling [cancelUpload] (which
    returns true) changes nothing; the upload is settled by the events of
    its transport and by no other, and these remove the handle.  In the
    streaming strategy the payload has been sent and the request is in
    flight.  In the delegated strategy the payload and the fired signal
    have been handed to [authedRequest], and a rejection of
    [authedRequest], whatever its error, rejects the future and removes
    the handle. *)
Theorem C10_fired_signal_runs_no_listener file o s c k :
  wf s → opt_abortController o = Some c →
  controllers s !! c = Some k → aborted k = true →
  let u := (uploadContent file o s).1 in
  let s1 := (uploadContent file o s).2 in
  u ∈ uploads s1
  ∧ deferred_of s1 u = Pending ∧ promise_of s1 u = Pending
  ∧ (∀ evs, transport_silent s1 u evs →
       u ∈ uploads (run s1 evs)
       ∧ deferred_of (run s1 evs) u = Pending
       ∧ abort c (run s1 evs) = run s1 evs
       ∧ cancelUpload u (run s1 evs) = (true, run s1 evs)
       ∧ (∀ e, deferred_of (step (run s1 evs) e) u ≠ Pending
               ↔ transport_settles (run s1 evs) u e)
       ∧ (∀ e, transport_settles (run s1 evs) u e →
               u ∉ uploads (step (run s1 evs) e)))
  ∧ (has_XMLHttpRequest s = true →
       ∃ x, xhr_of s1 u = Some x ∧ req_body x = Some file
            ∧ in_flight x = true)
  ∧ (has_XMLHttpRequest s = false →
       (∃ q, request_of s1 u = Some q ∧ ar_body q = file
             ∧ ar_abortSignal q = c)
       ∧ ∀ err,
           promise_of (step s1 (DelegateSettled u (Throw err))) u = Rejected err
           ∧ u ∉ uploads (step s1 (DelegateSettled u (Throw err)))).
Proof.
  intros W Ho Hk Hab. cbv zeta.
  rewrite !(proj1 (uc_result file o s)), !(proj2 (uc_result file o s)).
  set (u := length (heap s)). set (s1 := after_upload file o s).
  assert (valid_opts s o = true) as Hv.
  { unfold valid_opts. rewrite Ho. apply bool_decide_eq_true.
    by eapply lookup_lt_Some. }
  pose proof (wf_after_upload file o s W Hv) as W1.
  assert (controller_for o s = c) as Ec by (unfold controller_for; by rewrite Ho).
  assert (controller_of s1 u = Some c) as Hc.
  { unfold s1. by rewrite controller_of_after_upload, decide_True, Ec. }
  assert (∃ k1, controllers s1 !! c = Some k1 ∧ aborted k1 = true)
    as (k1 & Hk1 & Hab1).
  { destruct (new_upload_controller file o s Hv) as (k0 & Hk0 & Hk0').
    rewrite Ec in *. unfold controllers_for in Hk0. rewrite Ho in Hk0.
    exists (add_listeners (new_listeners s) k0). split; [done|].
    simpl. congruence. }
  assert (u ∈ uploads s1) as Hin by apply new_upload_registered.
  split; [done|]. split; [by apply (wf_live _ W1)|].
  split; [|split; [|split]].
  - unfold s1, u. rewrite promise_of_after_upload.
    unfold promise_of. by rewrite lookup_ge_None_2.
  - intros evs Hq.
    destruct (fired_persists s1 u c k1 evs W1 Hin Hc Hk1 Hab1 Hq)
      as (W2 & Hin2 & Hc2 & k2 & Hk2 & Hab2).
    assert (abort c (run s1 evs) = run s1 evs) as Ea
      by (unfold abort; by rewrite Hk2, Hab2).
    split; [done|]. split; [by apply (wf_live _ W2)|]. split; [done|].
    split; [|split].
    + unfold cancelUpload. by rewrite find_registered, decide_True, Hc2, Ea.
    + intros e. rewrite (settles_iff _ u e W2 Hin2).
      by apply (fired_settles _ u c k2).
    + intros e He Hin'.
      apply (fired_settles _ u c k2 e Hc2 Hk2 Hab2) in He.
      apply (settles_settled _ u e W2 Hin2 He).
      by apply (wf_live _ (wf_step _ e W2)).
  - intros Hx. eexists. split; [|split].
    + unfold s1, u. by rewrite xhr_of_new_upload, Hx.
    + unfold upload_xhr. by destruct (_ && _).
    + unfold upload_xhr. by destruct (_ && _).
  - intros Hx.
    assert (request_of s1 u ≠ None) as Hq.
    { unfold s1, u. by rewrite request_of_new_upload, Hx. }
    split.
    + eexists. split; [|split].
      * unfold s1, u. by rewrite request_of_new_upload, Hx.
      * done.
      * done.
    + intros err.
      assert (settles s1 u (DelegateSettled u (Throw err))) as Hset
        by (by apply settles_delegated).
      pose proof (wf_live _ W1 u Hin) as Hp.
      assert (deferred_of (step s1 (DelegateSettled u (Throw err))) u
              = Rejected err) as Ed.
      { by rewrite deferred_of_delegated. }
      split.
      * rewrite <- Ed. cbn [step].
        apply promise_of_task; [apply W1| |done|].
        -- intros s0 _. exists (λ w, w = u). by apply touches_ondelegated.
        -- fold (step s1 (DelegateSettled u (Throw err))). by rewrite Ed.
      * intros Hin'.
        apply (settles_settled s1 u _ W1 Hin Hset).
        by apply (wf_live _ (wf_step s1 _ W1)).
Qed.

End Fired.

(** ** The timeout (C5) *)
Section Timeout.
Context `{Collaborators}.
Implicit Types (s : Api) (u v : nat) (P : nat → Prop).

(** The timeout is armed for 30 seconds when the transfer starts. *)
Lemma armed_on_start file o s :
  wf s → has_XMLHttpRequest s = true →
  armed_at (after_upload file o s) (length (heap s)) (now s).
Proof.
  intros W Hx. split; [by apply new_upload_timer|].
  intros d. simpl. rewrite Hx.
  intros [[= ->]|Hd]%elem_of_insert_timer; [done|].
  apply (wf_timers _ W) in Hd. simpl in Hd. lia.
Qed.

(** A progress tick disarms it and arms it again for 30 seconds. *)
Lemma rearmed_on_progress s u l t :
  xhr_of s u ≠ None →
  armed_at (step s (XhrProgress u l t)) u (now s)
  ∧ now (step s (XhrProgress u l t)) = now s.
Proof.
  intros Hx. simpl. unfold task, armed_at.
  rewrite timers_drain, now_drain, xhr_of_drain.
  destruct (xhr_of s u) as [x|]; [|done].
  unfold onprogress. simpl. rewrite now_drain, timers_drain.
  split; [|done]. split.
  - apply elem_of_insert_timer. by left.
  - intros d [[= ->]|Hd]%elem_of_insert_timer; [done|].
    by apply list_elem_of_filter in Hd as [? _].
Qed.

(** Time that passes short of the deadline leaves the timer as it is. *)
Lemma elapse_keeps_timer s u t0 dt :
  wf s → armed_at s u t0 → (0 ≤ dt)%Z → (now s + dt < t0 + 30000)%Z →
  armed_at (step s (Elapse dt)) u t0
  ∧ now (step s (Elapse dt)) = (now s + dt)%Z.
Proof.
  intros W [Hin Huniq] Hdt Hlt. simpl.
  destruct (Z.ltb_spec dt 0) as [?|_]; [lia|].
  unfold task, armed_at.
  rewrite (timers_drain (runCallbacks _)), (now_drain (runCallbacks _)).
  unfold runCallbacks.
  set (s1 := set_now (now (drain s) + dt) (drain s)).
  set (due := filter (λ e : TimerEntry, (e.2 ≤ now s1)%Z) (timers s1)).
  set (rest := filter (λ e : TimerEntry, ¬ (e.2 ≤ now s1)%Z) (timers s1)).
  pose proof (touches_timeouts (λ v, v ∈ due.*1) (set_timers rest s1) (due.*1)
                (λ _ Hv, Hv)) as T.
  assert (u ∉ due.*1) as Hu.
  { intros ([u' d] & -> & Hd)%list_elem_of_fmap.
    apply list_elem_of_filter in Hd as [Hle Hd]. simpl in *.
    rewrite timers_drain in Hd. rewrite now_drain in Hle.
    apply Huniq in Hd. lia. }
  assert (∀ d, (u, d) ∈ timers (foldl timeoutFn (set_timers rest s1) (due.*1))
               ↔ (u, d) ∈ rest) as Ht.
  { intros d. by apply (t_timers _ _ _ T (u, d)). }
  split; [split|].
  - apply Ht, list_elem_of_filter. simpl. rewrite timers_drain, now_drain.
    split; [lia|done].
  - intros d [_ Hd]%Ht%list_elem_of_filter. simpl in Hd.
    rewrite timers_drain in Hd. by apply Huniq.
  - rewrite (t_now _ _ _ T). simpl. by rewrite now_drain.
Qed.

(** Ticks less than 30 seconds apart never let the timeout fire: the
    upload stays in flight, with its timer armed. *)
Lemma ticks_keep_alive ticks s u :
  wf s → u ∈ uploads s → xhr_of s u ≠ None → armed_at s u (now s) →
  Forall (λ tick : Z * (Z * Z), (0 ≤ tick.1 < 30000)%Z) ticks →
  u ∈ uploads (run s (ticking u ticks))
  ∧ deferred_of (run s (ticking u ticks)) u = Pending
  ∧ armed_at (run s (ticking u ticks)) u (now (run s (ticking u ticks))).
Proof.
  revert s. induction ticks as [|[gap [l t]] ticks IH]; intros s W Hin Hx Ha Hall.
  - simpl. split; [done|]. split; [by apply (wf_live _ W)|done].
  - apply Forall_cons in Hall as [Hgap Hall]. simpl in Hgap.
    change (run s (ticking u ((gap, (l, t)) :: ticks)))
      with (run (step (step s (Elapse gap)) (XhrProgress u l t))
              (ticking u ticks)).
    pose proof (c_allocated _ _ (wf_consistent _ W) u Hin) as Hlt.
    set (s1 := step s (Elapse gap)).
    assert (wf s1) as W1 by (by apply wf_step).
    assert (u ∈ uploads s1) as Hin1.
    { apply registry_after; [done|by intros []|]. split; [done|].
      intros Hset. inversion Hset as [| |dt d _ Hd Hle| |]; subst.
      apply Ha in Hd. lia. }
    assert (xhr_of s1 u ≠ None) as Hx1.
    { intros E. apply Hx.
      by apply (proj1 (proj2 (step_wiring s (Elapse gap) u W Hlt))). }
    destruct (elapse_keeps_timer s u (now s) gap W Ha) as [Ha1 En1]; [lia..|].
    fold s1 in Ha1, En1.
    pose proof (c_allocated _ _ (wf_consistent _ W1) u Hin1) as Hlt1.
    set (s2 := step s1 (XhrProgress u l t)).
    assert (wf s2) as W2 by (by apply wf_step).
    assert (u ∈ uploads s2) as Hin2.
    { apply registry_after; [done|by intros []|]. split; [done|].
      intros Hset. inversion Hset. }
    assert (xhr_of s2 u ≠ None) as Hx2.
    { intros E. apply Hx1.
      by apply (proj1 (proj2 (step_wiring s1 (XhrProgress u l t) u W1 Hlt1))). }
    destruct (rearmed_on_progress s1 u l t Hx1) as [Ha2 En2].
    fold s2 in Ha2, En2.
    apply IH; try done. by rewrite En2.
Qed.

(** Silence until the deadline fires the timeout. *)
Lemma silence_times_out s u t0 dt :
  armed_at s u t0 → (0 ≤ dt)%Z → (t0 + 30000 ≤ now s + dt)%Z →
  settles s u (Elapse dt).
Proof. intros [Hin _] Hdt Hle. by eapply settles_timeout. Qed.

(** Thirty seconds without an event settle every streaming upload in
    flight. *)
Lemma streaming_upload_settles_within_30s s u :
  wf s → u ∈ uploads s → xhr_of s u ≠ None → settles s u (Elapse 30000).
Proof.
  intros W Hin Hx.
  destruct (wf_armed _ W u Hin (wf_live _ W u Hin) Hx) as (d & Hd & Hle).
  by apply (settles_timeout _ _ 30000 d).
Qed.

(** What the timeout rejects with, when the request is in flight:
    [xhr.abort()] reports status zero before [timeoutFn] rejects. *)
Lemma timeouts_outcome (L : list nat) s u x :
  u ∈ L → xhr_of s u = Some x → in_flight x = true →
  deferred_of s u = Pending →
  deferred_of (foldl timeoutFn s L) u = Rejected (DOMException "" "AbortError").
Proof.
  revert s. induction L as [|a L IH]; intros s Hin Hx Hf Hp; simpl.
  - by apply elem_of_nil in Hin.
  - destruct (decide (a = u)) as [->|Hne].
    + assert (deferred_of (timeoutFn s u) u
              = Rejected (DOMException "" "AbortError")) as E.
      { unfold timeoutFn.
        assert (deferred_of (xhr_abort u s) u
                = Rejected (DOMException "" "AbortError")) as E.
        { rewrite deferred_of_xhr_abort, Hx. by rewrite decide_True. }
        destruct (deferred_of_settle_cases (xhr_abort u s) u
                    (Rejected (Error "Timeout")) u) as [->|(_ & Hp' & _)];
          [done|congruence]. }
      rewrite (t_deferred _ _ _
                 (touches_timeouts (λ _, True) (timeoutFn s u) L (λ _ _, I)) u)
        by (by rewrite E).
      done.
    + apply elem_of_cons in Hin as [->|Hin]; [done|].
      pose proof (touches_timeoutFn (λ v, v = a) s a eq_refl) as T.
      apply IH; [done|..].
      * unfold xhr_of. rewrite (t_frame _ _ _ T); [done|by intros ->].
      * done.
      * unfold deferred_of. rewrite (t_frame _ _ _ T); [done|by intros ->].
Qed.

Lemma timeout_rejects_with_abort s u x t0 dt :
  wf s → u ∈ uploads s → xhr_of s u = Some x → in_flight x = true →
  armed_at s u t0 → (0 ≤ dt)%Z → (t0 + 30000 ≤ now s + dt)%Z →
  deferred_of (step s (Elapse dt)) u = Rejected (DOMException "" "AbortError")
  ∧ promise_of (step s (Elapse dt)) u = Rejected (DOMException "" "AbortError")
  ∧ (u ∉ uploads (step s (Elapse dt))).
Proof.
  intros W Hin Hx Hf [Ha _] Hdt Hle.
  pose proof (wf_live _ W u Hin) as Hp.
  assert (deferred_of (step s (Elapse dt)) u
          = Rejected (DOMException "" "AbortError")) as E.
  { simpl. destruct (Z.ltb_spec dt 0) as [?|_]; [lia|].
    unfold task, runCallbacks. rewrite deferred_of_drain.
    apply (timeouts_outcome _ _ u x).
    - apply list_elem_of_fmap. exists (u, (t0 + 30000)%Z). split; [done|].
      apply list_elem_of_filter. simpl. rewrite timers_drain, now_drain.
      by split.
    - by rewrite <- (xhr_of_drain s u) in Hx.
    - done.
    - by rewrite <- (deferred_of_drain s u) in Hp. }
  pose proof (wf_step s (Elapse dt) W) as W'.
  assert (deferred_of (step s (Elapse dt)) u ≠ Pending) as Hs by (by rewrite E).
  split; [done|]. split.
  - rewrite <- E. rewrite <- (promise_after_task_end _ u W' Hs).
    symmetry. apply (promise_final _ u [TaskEnd] W').
    destruct (c_reacted _ _ (wf_consistent _ W') u Hs) as [Hj|E'].
    + exfalso. revert Hj. simpl.
      destruct (Z.ltb_spec dt 0) as [?|_]; [lia|].
      unfold task. rewrite jobs_drain; [by intros ?%elem_of_nil|].
      by apply runCallbacks_ok, consistent_drain, W.
    + by rewrite E'.
  - intros Hin'. by apply Hs, (wf_live _ W').
Qed.

End Timeout.

(** ** The request (C8, C9) *)
Section Request.
Context `{Collaborators}.
Implicit Types (s : Api) (u : nat).

Lemma values_of_app k (l1 l2 : list (string * string)) :
  values_of k (l1 ++ l2) = values_of k l1 ++ values_of k l2.
Proof. unfold values_of. by rewrite filter_app, fmap_app. Qed.

Lemma filter_set_other k k' v (l : list (string * string)) :
  k ≠ k' →
  filter (λ p, p.1 = k) (searchParams_set k' v l) = filter (λ p, p.1 = k) l.
Proof.
  intros Hne. induction l as [|[k0 v0] l IH]; cbn [searchParams_set].
  - rewrite filter_cons_False; [done|]. simpl. congruence.
  - destruct (String.eqb_spec k0 k') as [->|Hne'].
    + rewrite !filter_cons_False by (simpl; congruence).
      rewrite list_filter_filter. apply list_filter_iff.
      intros [k1 v1]. simpl. split; [tauto|]. intros ->. split; [done|congruence].
    + destruct (decide (k0 = k)) as [->|].
      * rewrite !filter_cons_True by done. by rewrite IH.
      * rewrite !filter_cons_False by done. by rewrite IH.
Qed.

Lemma filter_set_new k v (l : list (string * string)) :
  filter (λ p, p.1 = k) l = [] →
  filter (λ p, p.1 = k) (searchParams_set k v l) = [(k, v)].
Proof.
  induction l as [|[k0 v0] l IH]; cbn [searchParams_set]; intros E.
  - by rewrite filter_cons_True.
  - destruct (decide (k0 = k)) as [->|Hne].
    + by rewrite filter_cons_True in E.
    + rewrite filter_cons_False in E by done.
      destruct (String.eqb_spec k0 k); [done|].
      rewrite filter_cons_False by done. by apply IH.
Qed.

Lemma values_of_set_other k k' v (l : list (string * string)) :
  k ≠ k' → values_of k (searchParams_set k' v l) = values_of k l.
Proof. intros Hne. unfold values_of. by rewrite filter_set_other. Qed.

Lemma values_of_set_new k v (l : list (string * string)) :
  values_of k l = [] → values_of k (searchParams_set k v l) = [v].
Proof.
  unfold values_of. intros E. apply fmap_nil_inv in E.
  by rewrite filter_set_new.
Qed.

(** The query of the upload URL and the headers of the request. *)
Lemma upload_url_access_token cfg includeFilename fileName :
  values_of "access_token" (searchParams (upload_url cfg includeFilename fileName))
  = if negb (truthy_flag (useAuthorizationHeader cfg))
       && truthy_string (accessToken cfg)
    then [encodeURIComponent (default "" (accessToken cfg))] else [].
Proof.
  unfold upload_url.
  assert (values_of "access_token"
            (searchParams
               (if includeFilename && truthy_string fileName
                then url_set "filename" (encodeURIComponent (default "" fileName))
                       (getUrl cfg "/upload" MediaPrefix_R0)
                else getUrl cfg "/upload" MediaPrefix_R0)) = []) as E.
  { destruct (_ && _); [|done]. unfold url_set, getUrl. cbn [searchParams].
    by rewrite values_of_set_other. }
  destruct (negb _ && _); [|done].
  unfold url_set at 1. cbn [searchParams]. by apply values_of_set_new.
Qed.

Lemma upload_xhr_authorization cfg file ct url :
  values_of "Authorization" (req_headers (upload_xhr cfg file ct url))
  = if truthy_flag (useAuthorizationHeader cfg) && truthy_string (accessToken cfg)
    then ["Bearer " +:+ default "" (accessToken cfg)] else [].
Proof. unfold upload_xhr. by destruct (_ && _). Qed.

Lemma upload_xhr_content_type cfg file ct url :
  values_of "Content-Type" (req_headers (upload_xhr cfg file ct url)) = [ct].
Proof. unfold upload_xhr. by destruct (_ && _). Qed.

Lemma upload_xhr_url cfg file ct url :
  req_url (upload_xhr cfg file ct url) = Some url.
Proof. unfold upload_xhr. by destruct (_ && _). Qed.

(** C8.  When an access token is configured, the streaming request
    carries it in exactly one form, chosen by [useAuthorizationHeader]:
    the header [Authorization: Bearer <token>] and no [access_token] query
    parameter, or the [access_token] query parameter and no
    [Authorization] header. *)
Theorem C8_credential_in_exactly_one_form file o s tok :
  has_XMLHttpRequest s = true →
  accessToken (opts s) = Some tok → tok ≠ "" →
  let u := (uploadContent file o s).1 in
  let s1 := (uploadContent file o s).2 in
  ∃ x url,
    xhr_of s1 u = Some x ∧ req_url x = Some url
    ∧ if truthy_flag (useAuthorizationHeader (opts s))
      then values_of "Authorization" (req_headers x) = ["Bearer " +:+ tok]
           ∧ values_of "access_token" (searchParams url) = []
      else values_of "Authorization" (req_headers x) = []
           ∧ values_of "access_token" (searchParams url)
             = [encodeURIComponent tok].
Proof.
  intros Hx Htok Hne. cbv zeta.
  rewrite !(proj1 (uc_result file o s)), !(proj2 (uc_result file o s)).
  eexists _, _. split; [by rewrite xhr_of_new_upload, Hx|].
  split; [apply upload_xhr_url|].
  rewrite upload_xhr_authorization, upload_url_access_token, Htok.
  assert (truthy_string (Some tok) = true) as ->.
  { simpl. by destruct (String.eqb_spec tok ""). }
  by destruct (truthy_flag _).
Qed.

(** The request carries the content type that line 76 resolves: as the
    [Content-Type] header of the streaming request, or in the header map
    handed to [authedRequest]. *)
Lemma content_type_is_carried file o s :
  let u := (uploadContent file o s).1 in
  let s1 := (uploadContent file o s).2 in
  if has_XMLHttpRequest s
  then ∃ x, xhr_of s1 u = Some x
            ∧ values_of "Content-Type" (req_headers x)
              = [resolve_contentType file o]
  else ∃ q, request_of s1 u = Some q
            ∧ ar_headers q = [("Content-Type", resolve_contentType file o)].
Proof.
  cbv zeta.
  rewrite !(proj1 (uc_result file o s)), !(proj2 (uc_result file o s)).
  rewrite xhr_of_new_upload, request_of_new_upload.
  destruct (has_XMLHttpRequest s); eexists; (split; [done|]).
  - apply upload_xhr_content_type.
  - done.
Qed.

(** A payload without a type, and options without one, get the default. *)
Lemma missing_type_is_defaulted file o :
  opt_type o = None → file_type file = None →
  resolve_contentType file o = "application/octet-stream".
Proof. intros Eo Ef. unfold resolve_contentType. by rewrite Eo, Ef. Qed.

(** A type that is present is taken as it is, the empty string
    included: [??] falls through on [undefined] only. *)
Lemma empty_type_is_kept file o :
  opt_type o = None → file_type file = Some "" →
  resolve_contentType file o = "".
Proof. intros Eo Ef. unfold resolve_contentType. by rewrite Eo, Ef. Qed.

End Request.

(** ** The request: method, payload and file name *)
Section RequestShape.
Context `{Collaborators}.
Implicit Types (s : Api) (u : nat).

Lemma upload_url_filename cfg includeFilename fileName :
  values_of "filename" (searchParams (upload_url cfg includeFilename fileName))
  = if includeFilename && truthy_string fileName
    then [encodeURIComponent (default "" fileName)] else [].
Proof.
  unfold upload_url.
  assert (values_of "filename"
            (searchParams
               (if includeFilename && truthy_string fileName
                then url_set "filename" (encodeURIComponent (default "" fileName))
                       (getUrl cfg "/upload" MediaPrefix_R0)
                else getUrl cfg "/upload" MediaPrefix_R0))
          = if includeFilename && truthy_string fileName
            then [encodeURIComponent (default "" fileName)] else []) as E.
  { destruct (_ && _); [|done]. unfold url_set, getUrl. cbn [searchParams].
    by apply values_of_set_new. }
  destruct (negb _ && _); [|done].
  unfold url_set at 1. cbn [searchParams]. by rewrite values_of_set_other.
Qed.

Lemma upload_xhr_payload cfg file ct url :
  req_method (upload_xhr cfg file ct url) = "POST"
  ∧ req_body (upload_xhr cfg file ct url) = Some file
  ∧ in_flight (upload_xhr cfg file ct url) = true.
Proof. unfold upload_xhr. by destruct (_ && _). Qed.

Lemma named_spec (o : option string) :
  truthy_string o = bool_decide (default "" o ≠ "").
Proof.
  destruct o as [n|]; simpl; [|done].
  destruct (String.eqb_spec n "") as [->|Hne]; cbn [negb]; symmetry.
  - apply bool_decide_eq_false_2. by intros ?.
  - by apply bool_decide_eq_true_2.
Qed.

(** X1.  The request that [uploadContent] starts is a POST of the payload,
    and it announces the file name exactly when [includeFilename] is not
    false and the name ([opts.name], else the name of the file) is not
    empty: the streaming request as the one [filename] query parameter,
    holding [encodeURIComponent] of the name, the delegated request as the
    one entry of its query, holding the name as it is.  Otherwise the
    request has no [filename] parameter. *)
Theorem X1_filename_is_sent_when_included_and_named file o s :
  let u := (uploadContent file o s).1 in
  let s1 := (uploadContent file o s).2 in
  let name :=
    match opt_name o with
    | Some n => n
    | None => match file_name file with Some n => n | None => "" end
    end in
  let announced :=
    bool_decide (opt_includeFilename o ≠ Some false ∧ name ≠ "") in
  if has_XMLHttpRequest s
  then ∃ x url,
         xhr_of s1 u = Some x ∧ req_method x = "POST"
         ∧ req_body x = Some file ∧ req_url x = Some url
         ∧ values_of "filename" (searchParams url)
           = if announced then [encodeURIComponent name] else []
  else ∃ q,
         request_of s1 u = Some q ∧ ar_method q = "POST"
         ∧ ar_path q = "/upload" ∧ ar_body q = file
         ∧ ar_query q = if announced then [("filename", name)] else [].
Proof.
  cbv zeta.
  rewrite !(proj1 (uc_result file o s)), !(proj2 (uc_result file o s)).
  rewrite xhr_of_new_upload, request_of_new_upload.
  assert (default "" (resolve_fileName file o)
          = match opt_name o with
            | Some n => n
            | None => match file_name file with Some n => n | None => "" end
            end) as En.
  { unfold resolve_fileName, nullish. destruct (opt_name o); [done|].
    by destruct (file_name file). }
  assert (default true (opt_includeFilename o)
            && truthy_string (resolve_fileName file o)
          = bool_decide (opt_includeFilename o ≠ Some false
                         ∧ default "" (resolve_fileName file o) ≠ "")) as Ea.
  { rewrite named_spec.
    destruct (opt_includeFilename o) as [[]|]; cbn [default andb].
    - apply bool_decide_ext. split; [by intros ?|by intros [_ ?]].
    - symmetry. apply bool_decide_eq_false_2. by intros [? _].
    - apply bool_decide_ext. split; [by intros ?|by intros [_ ?]]. }
  rewrite <- En, <- Ea.
  destruct (has_XMLHttpRequest s).
  - eexists _, _. split; [done|].
    destruct (upload_xhr_payload (opts s) file (resolve_contentType file o)
                (upload_url (opts s) (default true (opt_includeFilename o))
                   (resolve_fileName file o))) as (Hm & Hb & _).
    split; [done|]. split; [done|]. split; [apply upload_xhr_url|].
    apply upload_url_filename.
  - eexists. split; [done|]. by repeat split.
Qed.

End RequestShape.

(** ** Events of the streaming request *)
Section Streaming.
Context `{Collaborators}.
Implicit Types (s : Api) (u v : nat).

Lemma heap_drain s v :
  heap (drain s) !! v
  = (λ up, if decide (v ∈ jobs s) then with_promise (deferred up) up else up)
      <$> heap s !! v.
Proof. unfold drain. by rewrite heap_finally_jobs. Qed.

Lemma heap_drain_live s v :
  consistent s → deferred_of s v = Pending → heap (drain s) !! v = heap s !! v.
Proof.
  intros C Hp. rewrite heap_drain.
  destruct (heap s !! v) as [up|]; [|done]. simpl.
  rewrite decide_False; [done|].
  intros Hin. by apply (c_jobs _ _ C) in Hin.
Qed.

Lemma heap_drain_idle s v : jobs s = [] → heap (drain s) !! v = heap s !! v.
Proof.
  intros E. rewrite heap_drain, E.
  destruct (heap s !! v) as [up|]; [|done]. cbn [fmap option_fmap option_map].
  destruct (decide (v ∈ [])) as [Hin|]; [by apply elem_of_nil in Hin|done].
Qed.

Lemma uploads_drain_idle s : jobs s = [] → uploads (drain s) = uploads s.
Proof. intros E. unfold drain. by rewrite E. Qed.

Lemma progress_of_drain s v : progress_of (drain s) v = progress_of s v.
Proof.
  unfold progress_of. rewrite heap_drain.
  destruct (heap s !! v) as [up|]; [|done]. simpl. by destruct (decide _).
Qed.

Lemma progress_calls_of_drain s v :
  progress_calls_of (drain s) v = progress_calls_of s v.
Proof.
  unfold progress_calls_of. rewrite heap_drain.
  destruct (heap s !! v) as [up|]; [|done]. simpl. by destruct (decide _).
Qed.

Lemma heap_onprogress s u l t v :
  heap (onprogress u l t s) !! v
  = if decide (u = v) then with_progress l t <$> heap s !! v else heap s !! v.
Proof. unfold onprogress, setTimeout, clearTimeout. simpl. apply lookup_update. Qed.

(** X2.  A progress event of a streaming upload in flight stores the
    counts of the event in [loaded] and [total] of its handle, passes
    them to [opts.progressHandler] when there is one, and restarts the
    timeout; it settles nothing, leaves the registry as it is and leaves
    every other upload in flight untouched. *)
Theorem X2_progress_updates_the_handle s u l t up :
  wf s → u ∈ uploads s → heap s !! u = Some up → xhr_of s u ≠ None →
  let s' := step s (XhrProgress u l t) in
  progress_of s' u = Some (l, t)
  ∧ progress_calls_of s' u
    = (if progressHandler up then progress_calls up ++ [(l, t)]
       else progress_calls up)
  ∧ deferred_of s' u = Pending
  ∧ uploads s' = uploads s
  ∧ armed_at s' u (now s)
  ∧ (∀ v, v ≠ u → v ∈ uploads s → heap s' !! v = heap s !! v).
Proof.
  intros W Hin Hup Hx s'.
  pose proof (wf_consistent _ W) as C.
  pose proof (wf_live _ W u Hin) as Hp.
  assert (s' = drain (onprogress u l t (drain s))) as Es.
  { unfold s'. cbn [step]. unfold task. rewrite xhr_of_drain.
    by destruct (xhr_of s u). }
  assert (jobs (onprogress u l t (drain s)) = []) as Ej.
  { unfold onprogress, setTimeout, clearTimeout. simpl. by apply jobs_drain. }
  assert (heap (onprogress u l t (drain s)) !! u = Some (with_progress l t up))
    as Hup'.
  { by rewrite heap_onprogress, decide_True, heap_drain_live, Hup. }
  split; [|split; [|split; [|split; [|split]]]].
  - rewrite Es, progress_of_drain. unfold progress_of. by rewrite Hup'.
  - rewrite Es, progress_calls_of_drain. unfold progress_calls_of.
    rewrite Hup'. simpl. by destruct (progressHandler up).
  - rewrite Es, deferred_of_drain, deferred_of_onprogress, deferred_of_drain.
    done.
  - rewrite Es, uploads_drain_idle by done.
    unfold onprogress, setTimeout, clearTimeout. simpl.
    by apply uploads_drain_wf.
  - by apply rearmed_on_progress.
  - intros v Hne Hv. rewrite Es, heap_drain_idle by done.
    rewrite heap_onprogress, decide_False by done.
    apply heap_drain_live; [done|]. by apply (wf_live _ W).
Qed.

(** *** The terminal state *)

Lemma done_settlement_remote r :
  (400 ≤ status r)%Z → responseText r ≠ "" →
  done_settlement r
  = match parseErrorResponse r (responseText r) with
    | Normal e => Rejected e
    | Throw err =>
        if String.eqb (err_name err) "AbortError" then Rejected err
        else Rejected (ConnectionError "request failed" err)
    end.
Proof.
  intros Hst Hb. unfold done_settlement, done_attempt.
  destruct (Z.eqb_spec (status r) 0) as [E|_]; [lia|].
  destruct (String.eqb_spec (responseText r) "") as [E|_]; [done|].
  destruct (Z.leb_spec 400 (status r)) as [_|?]; [|lia].
  by destruct (parseErrorResponse r (responseText r)).
Qed.

Lemma done_settlement_parsed r :
  status r ≠ 0%Z → (status r < 400)%Z → responseText r ≠ "" →
  done_settlement r
  = match JSON_parse (responseText r) with
    | Normal j => Resolved (ParsedBody j)
    | Throw err =>
        if String.eqb (err_name err) "AbortError" then Rejected err
        else Rejected (ConnectionError "request failed" err)
    end.
Proof.
  intros Hz Hst Hb. unfold done_settlement, done_attempt.
  destruct (Z.eqb_spec (status r) 0) as [E|_]; [done|].
  destruct (String.eqb_spec (responseText r) "") as [E|_]; [done|].
  destruct (Z.leb_spec 400 (status r)) as [?|_]; [lia|].
  by destruct (JSON_parse (responseText r)).
Qed.

Lemma not_abort_name err :
  err_name err ≠ "AbortError" → String.eqb (err_name err) "AbortError" = false.
Proof. intros Hn. by destruct (String.eqb_spec (err_name err) "AbortError"). Qed.

(** X3.  For a streaming upload in flight, a terminal state with a
    status of 400 or more and a body rejects the completion future with
    the error that [parseErrorResponse] returns, as it is; when
    [parseErrorResponse] throws instead, with a [ConnectionError] caused
    by what it threw.  The future is never resolved, whatever the body
    holds. *)
Theorem X3_remote_error_rejects_with_the_parsed_error s u r :
  wf s → u ∈ uploads s → xhr_of s u ≠ None →
  (400 ≤ status r)%Z → responseText r ≠ "" →
  let s' := step s (XhrReadyStateChange u DONE r) in
  (∀ e, parseErrorResponse r (responseText r) = Normal e →
        promise_of s' u = Rejected e)
  ∧ (∀ err, parseErrorResponse r (responseText r) = Throw err →
        err_name err ≠ "AbortError" →
        promise_of s' u = Rejected (ConnectionError "request failed" err))
  ∧ (∀ value, promise_of s' u ≠ Resolved value).
Proof.
  intros W Hin Hx Hst Hb s'. unfold s'.
  pose proof (wf_live _ W u Hin) as Hp.
  rewrite promise_of_done by (done || apply W).
  rewrite done_settlement_remote by done.
  split; [|split].
  - by intros e ->.
  - intros err -> Hn. by rewrite not_abort_name.
  - intros value. destruct (parseErrorResponse r (responseText r)) as [e|err];
      [done|]. by destruct (String.eqb _ _).
Qed.

(** X4.  For a streaming upload in flight, a terminal state with a body
    and any status other than zero below 400 (a redirect or an
    informational status as much as a 200) resolves the completion future
    with [JSON.parse] of the body; a body that [JSON.parse] refuses
    rejects it with a [ConnectionError] caused by the parse error. *)
Theorem X4_body_below_400_is_parsed_as_json s u r :
  wf s → u ∈ uploads s → xhr_of s u ≠ None →
  status r ≠ 0%Z → (status r < 400)%Z → responseText r ≠ "" →
  let s' := step s (XhrReadyStateChange u DONE r) in
  (∀ j, JSON_parse (responseText r) = Normal j →
        promise_of s' u = Resolved (ParsedBody j))
  ∧ (∀ err, JSON_parse (responseText r) = Throw err →
        err_name err ≠ "AbortError" →
        promise_of s' u = Rejected (ConnectionError "request failed" err)).
Proof.
  intros W Hin Hx Hz Hst Hb s'. unfold s'.
  pose proof (wf_live _ W u Hin) as Hp.
  rewrite promise_of_done by (done || apply W).
  rewrite done_settlement_parsed by done.
  split.
  - by intros j ->.
  - intros err -> Hn. by rewrite not_abort_name.
Qed.

(** *** States before the terminal one *)

Lemma step_readystatechange s u rs r x :
  xhr_of s u = Some x →
  step s (XhrReadyStateChange u rs r)
  = drain (onreadystatechange u (set_xhr u (xhr_receive rs r x) (drain s))).
Proof. intros Hx. cbn [step]. unfold task. by rewrite xhr_of_drain, Hx. Qed.

Lemma jobs_set_xhr s u x : jobs (set_xhr u x s) = jobs s.
Proof. done. Qed.

(** X5.  A state change of the request other than the terminal one
    (headers received, loading) is only recorded: it settles nothing,
    leaves the registry alone and does not touch the timeout, which only a
    progress event of the upload restarts. *)
Theorem X5_intermediate_states_change_nothing s u rs r x :
  wf s → u ∈ uploads s → xhr_of s u = Some x → rs ≠ DONE →
  let s' := step s (XhrReadyStateChange u rs r) in
  deferred_of s' u = Pending
  ∧ uploads s' = uploads s
  ∧ timers s' = timers s
  ∧ xhr_of s' u = Some (xhr_receive rs r x).
Proof.
  intros W Hin Hx Hrs s'.
  pose proof (wf_consistent _ W) as C.
  pose proof (wf_live _ W u Hin) as Hp.
  assert (xhr_of (drain s) u = Some x) as Hx' by (by rewrite xhr_of_drain).
  pose proof (xhr_of_receive (drain s) u x rs r Hx') as Hx2.
  assert (onreadystatechange u (set_xhr u (xhr_receive rs r x) (drain s))
          = set_xhr u (xhr_receive rs r x) (drain s)) as Eo.
  { unfold onreadystatechange. rewrite Hx2. cbn [readyState xhr_receive].
    by destruct (Z.eqb_spec rs DONE). }
  assert (s' = drain (set_xhr u (xhr_receive rs r x) (drain s))) as Es.
  { unfold s'. by rewrite (step_readystatechange s u rs r x Hx), Eo. }
  assert (jobs (set_xhr u (xhr_receive rs r x) (drain s)) = []) as Ej.
  { rewrite jobs_set_xhr. by apply jobs_drain. }
  rewrite Es. split; [|split; [|split]].
  - by rewrite deferred_of_drain, deferred_of_set_xhr, deferred_of_drain.
  - rewrite uploads_drain_idle by done. simpl. by apply uploads_drain_wf.
  - rewrite timers_drain. simpl. by rewrite timers_drain.
  - by rewrite xhr_of_drain.
Qed.

Lemma xhr_of_frame P s s' v :
  touches P s s' → ¬ P v → xhr_of s' v = xhr_of s v.
Proof. intros T Hv. unfold xhr_of. by rewrite (t_frame _ _ _ T v Hv). Qed.

Lemma xhr_of_same_heap s s' v : heap s' = heap s → xhr_of s' v = xhr_of s v.
Proof. intros E. unfold xhr_of. by rewrite E. Qed.

Lemma timers_onreadystatechange_done s u x :
  xhr_of s u = Some x → readyState x = DONE →
  timers (onreadystatechange u s) = filter (λ e, e.1 ≠ u) (timers s).
Proof.
  intros Hx Hr. unfold onreadystatechange. rewrite Hx, Hr. simpl.
  by rewrite timers_settle.
Qed.

Lemma xhr_of_onreadystatechange s u v :
  xhr_of (onreadystatechange u s) v = xhr_of s v.
Proof.
  unfold onreadystatechange. destruct (xhr_of s u) as [x|]; [|done].
  destruct (readyState x =? DONE)%Z; [|done].
  destruct (settle_unfold (clearTimeout u s) u (done_settlement (response x)))
    as [(_ & _ & ->)|[(_ & ->)|(_ & ->)]]; try done.
  unfold xhr_of. cbn [heap set_jobs]. rewrite lookup_update.
  cbn [heap clearTimeout set_timers].
  destruct (decide (u = v)) as [->|]; [|done].
  by destruct (heap s !! v).
Qed.

(** X6.  The terminal state of the request clears the timeout of its
    upload and no other: the callback list loses the entries of that
    upload only.  So no later passage of time aborts the finished
    request: it stays in its terminal state. *)
Theorem X6_terminal_state_clears_the_timeout s u r x :
  xhr_of s u = Some x →
  let s' := step s (XhrReadyStateChange u DONE r) in
  timers s' = filter (λ e, e.1 ≠ u) (timers s)
  ∧ ¬ has_timer s' u
  ∧ xhr_of s' u = Some (xhr_receive DONE r x)
  ∧ (∀ dt, xhr_of (step s' (Elapse dt)) u = Some (xhr_receive DONE r x)).
Proof.
  intros Hx s'.
  assert (xhr_of (drain s) u = Some x) as Hx' by (by rewrite xhr_of_drain).
  pose proof (xhr_of_receive (drain s) u x DONE r Hx') as Hx2.
  assert (timers s' = filter (λ e, e.1 ≠ u) (timers s)) as Et.
  { unfold s'. rewrite (step_readystatechange s u DONE r x Hx), timers_drain.
    rewrite (timers_onreadystatechange_done _ _ _ Hx2) by done.
    simpl. by rewrite timers_drain. }
  assert (¬ has_timer s' u) as Hno.
  { intros [d Hd]. rewrite Et in Hd.
    by apply list_elem_of_filter in Hd as [Hne _]. }
  assert (xhr_of s' u = Some (xhr_receive DONE r x)) as Hx3.
  { unfold s'. rewrite (step_readystatechange s u DONE r x Hx), xhr_of_drain.
    by rewrite xhr_of_onreadystatechange. }
  split; [done|]. split; [done|]. split; [done|].
  intros dt. cbn [step]. destruct (dt <? 0)%Z; [done|].
  unfold task. rewrite xhr_of_drain. unfold runCallbacks.
  set (S := set_now (now (drain s') + dt)%Z (drain s')).
  set (due := (filter (λ e : TimerEntry, (e.2 ≤ now S)%Z) (timers S)).*1).
  assert (u ∉ due) as Hu.
  { intros ([v d] & Ev & [_ Hd]%list_elem_of_filter)%list_elem_of_fmap.
    simpl in Ev, Hd. subst v. rewrite timers_drain in Hd.
    apply Hno. by exists d. }
  match goal with
  | |- xhr_of (foldl timeoutFn ?S0 due) u = _ =>
      pose proof (touches_timeouts (λ v, v ∈ due) S0 due (λ v Hv, Hv)) as T
  end.
  rewrite (xhr_of_frame _ _ _ u T Hu).
  rewrite (xhr_of_same_heap (drain s') _ u) by done.
  by rewrite xhr_of_drain.
Qed.

End Streaming.

(** ** Controllers: who is cancelled with whom *)
Section Controllers.
Context `{Collaborators}.
Implicit Types (s : Api) (u v : nat).

(** An abort leaves alone the uploads of the other controllers. *)
Lemma abort_frame s c v :
  consistent s → controller_of s v ≠ Some c →
  heap (abort c s) !! v = heap s !! v
  ∧ (v ∈ uploads s → v ∈ uploads (abort c s))
  ∧ (∀ d, (v, d) ∈ timers (abort c s) ↔ (v, d) ∈ timers s).
Proof.
  intros C Hv. unfold abort.
  destruct (controllers s !! c) as [k|] eqn:Hk; [|done].
  destruct (aborted k) eqn:Hab; [done|].
  set (s0 := set_controllers (alter fire c (controllers s)) s).
  assert (touches (λ w, w ∈ owner <$> listeners k) s0
            (foldl run_listener s0 (listeners k))) as T.
  { apply touches_listeners. intros l Hl. split.
    - apply list_elem_of_fmap. by exists l.
    - eapply controller_of_lt. by apply (c_owner _ _ C c k). }
  assert (v ∉ owner <$> listeners k) as Hout.
  { intros (l & -> & Hl)%list_elem_of_fmap.
    by apply Hv, (c_owner _ _ C c k). }
  split; [by apply (t_frame _ _ _ T)|]. split.
  - by apply (t_registered _ _ _ T).
  - intros d. by apply (t_timers _ _ _ T (v, d)).
Qed.

Lemma cancelUpload_registered s p c :
  p ∈ uploads s → controller_of s p = Some c →
  cancelUpload p s = (true, abort c s).
Proof.
  intros Hin Hc. unfold cancelUpload.
  by rewrite find_registered, decide_True, Hc.
Qed.

(** X7.  Aborting a controller whose signal has not fired cancels every
    registered upload that was started with it: each is rejected with an
    AbortError and leaves the registry.  The uploads of the other
    controllers keep their records and their places in the registry.
    [cancelUpload] with the future of any upload of the controller is
    that abort. *)
Theorem X7_abort_cancels_the_uploads_of_its_controller s c k :
  wf s → controllers s !! c = Some k → aborted k = false →
  (∀ v, v ∈ uploads s → controller_of s v = Some c →
        abort_rejected (deferred_of (abort c s) v)
        ∧ v ∉ uploads (abort c s))
  ∧ (∀ v, v ∈ uploads s → controller_of s v ≠ Some c →
        v ∈ uploads (abort c s) ∧ heap (abort c s) !! v = heap s !! v)
  ∧ (∀ p, p ∈ uploads s → controller_of s p = Some c →
        cancelUpload p s = (true, abort c s)).
Proof.
  intros W Hk Hab. split; [|split].
  - intros v Hin Hc. by apply (abort_rejects s v c k).
  - intros v Hin Hc.
    destruct (abort_frame s c v (wf_consistent _ W) Hc) as (E & Hreg & _).
    split; [by apply Hreg|done].
  - intros p Hin Hc. by apply cancelUpload_registered.
Qed.

(** X8.  An upload started without [opts.abortController] gets a new
    controller, shared with no other upload.  Cancelling it leaves every
    other registered upload as it was, and cancelling any other upload
    leaves it registered and pending. *)
Theorem X8_default_controller_is_private file o s :
  wf s → opt_abortController o = None →
  let u := (uploadContent file o s).1 in
  let s1 := (uploadContent file o s).2 in
  controller_of s1 u = Some (length (controllers s))
  ∧ (∀ v, v ∈ uploads s → controller_of s1 v ≠ controller_of s1 u)
  ∧ (∀ v, v ∈ uploads s →
        v ∈ uploads (cancelUpload u s1).2
        ∧ heap (cancelUpload u s1).2 !! v = heap s !! v)
  ∧ (∀ v, v ∈ uploads s →
        u ∈ uploads (cancelUpload v s1).2
        ∧ deferred_of (cancelUpload v s1).2 u = Pending).
Proof.
  intros W Ho. cbv zeta.
  rewrite !(proj1 (uc_result file o s)), !(proj2 (uc_result file o s)).
  pose proof (wf_consistent _ W) as C.
  assert (valid_opts s o = true) as Hv by (unfold valid_opts; by rewrite Ho).
  pose proof (wf_after_upload file o s W Hv) as W1.
  pose proof (wf_consistent _ W1) as C1.
  set (u := length (heap s)). set (s1 := after_upload file o s).
  assert (controller_for o s = length (controllers s)) as Ec.
  { unfold controller_for. by rewrite Ho. }
  assert (controller_of s1 u = Some (length (controllers s))) as Hcu.
  { unfold s1. by rewrite controller_of_after_upload, decide_True, Ec. }
  assert (u ∈ uploads s1) as Hu by apply new_upload_registered.
  assert (∀ v, v ∈ uploads s →
            v ≠ u ∧ v ∈ uploads s1 ∧ heap s1 !! v = heap s !! v
            ∧ controller_of s1 v = controller_of s v
            ∧ controller_of s1 v ≠ Some (length (controllers s))) as Hold.
  { intros v Hin.
    pose proof (c_allocated _ _ C v Hin) as Hlt.
    assert (v ≠ u) as Hne by (unfold u; lia).
    split; [done|]. split; [simpl; apply elem_of_app; by left|].
    split; [unfold s1; by rewrite heap_after_upload, decide_False|].
    assert (controller_of s1 v = controller_of s v) as E.
    { unfold s1. by rewrite controller_of_after_upload, decide_False. }
    split; [done|]. rewrite E. intros Hc.
    apply (c_controller _ _ C) in Hc. lia. }
  split; [done|]. split; [|split].
  - intros v Hin. rewrite Hcu. by apply Hold.
  - intros v Hin. destruct (Hold v Hin) as (Hne & Hin1 & E & _ & Hc).
    rewrite (cancelUpload_registered s1 u _ Hu Hcu). simpl.
    destruct (abort_frame s1 (length (controllers s)) v C1 Hc)
      as (E' & Hreg & _).
    split; [by apply Hreg|by rewrite E'].
  - intros v Hin. destruct (Hold v Hin) as (Hne & Hin1 & E & Ec' & Hc).
    destruct (controller_of s1 v) as [c|] eqn:Hcv.
    + rewrite (cancelUpload_registered s1 v c Hin1 Hcv). simpl.
      assert (controller_of s1 u ≠ Some c) as Hcu'.
      { rewrite Hcu. intros [= <-]. by apply Hc. }
      destruct (abort_frame s1 c u C1 Hcu') as (E' & Hreg & _).
      split; [by apply Hreg|].
      unfold deferred_of. rewrite E'.
      by apply (wf_live _ W1 u Hu).
    + unfold cancelUpload. rewrite find_registered, decide_True, Hcv by done.
      simpl. split; [done|]. by apply (wf_live _ W1 u Hu).
Qed.

(** X9.  [cancelUpload] reports true exactly for the futures of the
    uploads that are not settled yet; for any other future it reports
    false and changes nothing. *)
Theorem X9_cancelUpload_reports_whether_the_upload_is_in_flight s p :
  wf s →
  ((cancelUpload p s).1 = true
   ↔ p < length (heap s) ∧ deferred_of s p = Pending)
  ∧ ((cancelUpload p s).1 = false → (cancelUpload p s).2 = s).
Proof.
  intros W. pose proof (wf_consistent _ W) as C.
  unfold cancelUpload. rewrite find_registered.
  destruct (decide (p ∈ uploads s)) as [Hin|Hout]; simpl.
  - split; [|done]. split; [|done]. intros _.
    split; [by apply (c_allocated _ _ C)|by apply (wf_live _ W)].
  - split; [|done]. split; [done|]. intros [Hlt Hp].
    exfalso. by apply Hout, (c_registered _ _ C).
Qed.

(** *** What a cancellation does to the transfer *)

Lemma xhr_abort_in_flight s u x :
  xhr_of s u = Some x → in_flight x = true →
  xhr_of (xhr_abort u s) u
  = Some (xhr_receive UNSENT network_error (xhr_receive DONE network_error x))
  ∧ timers (xhr_abort u s) = filter (λ e, e.1 ≠ u) (timers s).
Proof.
  intros Hx Hfl. unfold xhr_abort. rewrite Hx, Hfl. cbv zeta.
  pose proof (xhr_of_set_xhr s u x (xhr_receive DONE network_error x) Hx) as Hx1.
  split.
  - apply (xhr_of_set_xhr _ _ (xhr_receive DONE network_error x)).
    by rewrite xhr_of_onreadystatechange.
  - change (timers (onreadystatechange u
                      (set_xhr u (xhr_receive DONE network_error x) s))
            = filter (λ e, e.1 ≠ u) (timers s)).
    by rewrite (timers_onreadystatechange_done _ _ _ Hx1).
Qed.

Lemma settle_settled s u r : deferred_of s u ≠ Pending → settle u r s = s.
Proof.
  intros Hs. destruct (settle_unfold s u r) as [(_ & Hp & _)|[(_ & E)|(_ & E)]];
    done.
Qed.

(** X10.  Cancelling an upload that has just been started, the signal of
    its controller not having fired: the streaming request is aborted
    (it ends unsent, its timeout cleared) and the future is rejected with
    the AbortError that the abort of the request reports, whose message is
    empty; the delegated upload is rejected with the AbortError
    [Aborted].  Either way the handle leaves the registry. *)
Theorem X10_cancel_aborts_the_request file o s k :
  wf s → controllers_for o s !! controller_for o s = Some k →
  aborted k = false →
  let u := (uploadContent file o s).1 in
  let s1 := (uploadContent file o s).2 in
  let s2 := (cancelUpload u s1).2 in
  (cancelUpload u s1).1 = true
  ∧ (u ∉ uploads s2)
  ∧ (has_XMLHttpRequest s = true →
       deferred_of s2 u = Rejected (DOMException "" "AbortError")
       ∧ (readyState <$> xhr_of s2 u) = Some UNSENT
       ∧ ¬ has_timer s2 u)
  ∧ (has_XMLHttpRequest s = false →
       deferred_of s2 u = Rejected (DOMException "Aborted" "AbortError")).
Proof.
  intros W Hk Hab. cbv zeta.
  rewrite !(proj1 (uc_result file o s)), !(proj2 (uc_result file o s)).
  pose proof (wf_consistent _ W) as C.
  set (c := controller_for o s) in *.
  assert (valid_opts s o = true) as Hv.
  { unfold valid_opts. unfold c, controller_for, controllers_for in Hk.
    destruct (opt_abortController o) as [c0|]; [|done]. simpl in Hk.
    apply bool_decide_eq_true. by eapply lookup_lt_Some. }
  pose proof (wf_after_upload file o s W Hv) as W1.
  set (u := length (heap s)). set (s1 := after_upload file o s).
  assert (u ∈ uploads s1) as Hu by apply new_upload_registered.
  assert (controller_of s1 u = Some c) as Hc.
  { unfold s1. by rewrite controller_of_after_upload, decide_True. }
  assert (controllers s1 !! c = Some (add_listeners (new_listeners s) k)) as Hk1.
  { destruct (new_upload_controller file o s Hv) as (k0 & Hk0 & Hk0').
    fold c in Hk0, Hk0'. rewrite Hk in Hk0. by injection Hk0 as <-. }
  rewrite (cancelUpload_registered s1 u c Hu Hc). cbn [fst snd].
  destruct (abort_rejects s1 u c _ W1 Hu Hc Hk1 Hab) as [_ Hout].
  split; [done|]. split; [done|].
  assert (∀ l, l ∈ listeners k → owner l < u) as Hown.
  { intros l Hl.
    destruct (controllers_for_lookup o s c k Hk) as [Hk0|(_ & _ & ->)];
      [|by apply elem_of_nil in Hl].
    eapply controller_of_lt. by apply (c_owner _ _ C c k). }
  set (s0 := set_controllers (alter fire c (controllers s1)) s1).
  set (sa := foldl run_listener s0 (listeners k)).
  assert (abort c s1 = foldl run_listener sa (new_listeners s)) as Ea.
  { unfold abort. rewrite Hk1. cbn [aborted add_listeners listeners].
    rewrite Hab. by rewrite foldl_app. }
  assert (touches (λ w, w ∈ owner <$> listeners k) s0 sa) as T.
  { apply touches_listeners. intros l Hl. split.
    - apply list_elem_of_fmap. by exists l.
    - simpl. rewrite length_app. simpl. specialize (Hown l Hl). lia. }
  assert (u ∉ owner <$> listeners k) as Hfr.
  { intros (l & E & Hl)%list_elem_of_fmap. specialize (Hown l Hl). lia. }
  assert (heap sa !! u = Some (new_record file o s)) as Hrec.
  { rewrite (t_frame _ _ _ T u Hfr). simpl.
    by rewrite lookup_app_r, Nat.sub_diag. }
  assert (deferred_of sa u = Pending) as Hp.
  { unfold deferred_of. by rewrite Hrec. }
  rewrite Ea. unfold new_listeners. fold u. split.
  - intros Hx. rewrite Hx. cbn [app foldl run_listener].
    assert (xhr_of sa u
            = Some (upload_xhr (opts s) file (resolve_contentType file o)
                      (upload_url (opts s) (default true (opt_includeFilename o))
                         (resolve_fileName file o)))) as Hxu.
    { unfold xhr_of. rewrite Hrec. simpl. unfold new_transport. by rewrite Hx. }
    destruct (upload_xhr_payload (opts s) file (resolve_contentType file o)
                (upload_url (opts s) (default true (opt_includeFilename o))
                   (resolve_fileName file o))) as (_ & _ & Hfl).
    destruct (xhr_abort_in_flight sa u _ Hxu Hfl) as [Hx2 Ht2].
    assert (deferred_of (xhr_abort u sa) u
            = Rejected (DOMException "" "AbortError")) as Hd.
    { rewrite deferred_of_xhr_abort, Hxu. by rewrite decide_True. }
    set (sb := set_uploads (removeElement (Nat.eqb u) (uploads (xhr_abort u sa)))
                 (xhr_abort u sa)).
    assert (deferred_of sb u = Rejected (DOMException "" "AbortError")) as Hd'
      by exact Hd.
    rewrite settle_settled by (by rewrite Hd').
    split; [done|]. split.
    + rewrite (xhr_of_same_heap (xhr_abort u sa)) by done. by rewrite Hx2.
    + intros [d Hd'']. change (timers sb) with (timers (xhr_abort u sa)) in Hd''.
      rewrite Ht2 in Hd''.
      by apply list_elem_of_filter in Hd'' as [Hne _].
  - intros Hx. rewrite Hx. cbn [app foldl run_listener].
    apply deferred_of_settle; [|done].
    simpl. apply lookup_lt_Some in Hrec. done.
Qed.

End Controllers.

(** ** The delegated strategy *)
Section Delegated.
Context `{Collaborators}.
Implicit Types (s : Api) (u v : nat).

(** X11.  The delegated strategy forwards what [authedRequest] settles
    with: a rejection rejects the completion future with the same error,
    unwrapped; a response resolves it with the response itself when
    [onlyData] is set, and with the outcome of [response.json()]
    otherwise, a failure of which rejects it.  The handle leaves the
    registry. *)
Theorem X11_delegated_outcome_is_forwarded s u r :
  wf s → u ∈ uploads s → request_of s u ≠ None →
  let s' := step s (DelegateSettled u r) in
  (∀ e, r = Throw e → promise_of s' u = Rejected e)
  ∧ (∀ response, r = Normal response → onlyData (opts s) = Some true →
        promise_of s' u = Resolved (AsIs response))
  ∧ (∀ response, r = Normal response → onlyData (opts s) ≠ Some true →
        promise_of s' u
        = match response_json response with
          | Normal j => Resolved (ParsedBody j)
          | Throw e => Rejected e
          end)
  ∧ (u ∉ uploads s').
Proof.
  intros W Hin Hq s'.
  pose proof (wf_consistent _ W) as C.
  pose proof (wf_live _ W u Hin) as Hp.
  assert (deferred_of s' u = delegated_settlement (opts s) r) as Ed
    by (by apply deferred_of_delegated).
  assert (promise_of s' u = delegated_settlement (opts s) r) as Ep.
  { rewrite <- Ed. unfold s'. cbn [step].
    apply promise_of_task; [done| |done|].
    - intros s0 _. exists (λ w, w = u). by apply touches_ondelegated.
    - fold (step s (DelegateSettled u r)). fold s'. rewrite Ed.
      apply delegated_settlement_settled. }
  rewrite Ep. split; [|split; [|split]].
  - by intros e ->.
  - intros response -> Ho. simpl. by rewrite Ho.
  - intros response -> Ho. simpl.
    destruct (onlyData (opts s)) as [[]|]; done.
  - intros Hin'. apply (registry_after s (DelegateSettled u r) u W) in Hin'
      as [_ Hns]; [|by intros ?].
    apply Hns. by apply settles_delegated.
Qed.

(** *** Timeouts are those of streaming uploads *)

Lemma xhr_of_settle s u r v : xhr_of (settle u r s) v = xhr_of s v.
Proof.
  destruct (settle_unfold s u r) as [(_ & _ & ->)|[(_ & ->)|(_ & ->)]];
    try done.
  unfold xhr_of. cbn [heap set_jobs]. rewrite lookup_update.
  destruct (decide (u = v)) as [->|]; [|done].
  by destruct (heap s !! v).
Qed.

Lemma xhr_of_set_xhr_iff s u x v :
  xhr_of s u ≠ None → xhr_of (set_xhr u x s) v = None ↔ xhr_of s v = None.
Proof.
  intros Hx. unfold xhr_of, set_xhr in *. rewrite lookup_update.
  destruct (decide (u = v)) as [->|]; [|done].
  destruct (heap s !! v) as [up|]; [|done]. simpl.
  split; [done|]. intros E. by rewrite E in Hx.
Qed.

Lemma requests_settle s u r :
  timers_of_requests s → timers_of_requests (settle u r s).
Proof. intros Q e. rewrite timers_settle, xhr_of_settle. apply Q. Qed.

Lemma requests_onreadystatechange s u :
  timers_of_requests s → timers_of_requests (onreadystatechange u s).
Proof.
  intros Q e. rewrite xhr_of_onreadystatechange.
  unfold onreadystatechange. destruct (xhr_of s u) as [x|]; [|apply Q].
  destruct (readyState x =? DONE)%Z; [|apply Q].
  rewrite timers_settle. simpl. intros [_ He]%list_elem_of_filter. by apply Q.
Qed.

Lemma requests_set_xhr s u x :
  xhr_of s u ≠ None →
  timers_of_requests s → timers_of_requests (set_xhr u x s).
Proof.
  intros Hx Q e He. rewrite xhr_of_set_xhr_iff by done. by apply Q.
Qed.

Lemma requests_xhr_abort s u :
  timers_of_requests s → timers_of_requests (xhr_abort u s).
Proof.
  intros Q. unfold xhr_abort. destruct (xhr_of s u) as [x|] eqn:Hx; [|done].
  assert (xhr_of s u ≠ None) as Hx' by (by rewrite Hx).
  destruct (in_flight x).
  - cbv zeta. apply requests_set_xhr.
    + rewrite xhr_of_onreadystatechange.
      by rewrite (xhr_of_set_xhr s u x _ Hx).
    + by apply requests_onreadystatechange, requests_set_xhr.
  - destruct (readyState x =? DONE)%Z; [|done]. by apply requests_set_xhr.
Qed.

Lemma requests_timeoutFn s u :
  timers_of_requests s → timers_of_requests (timeoutFn s u).
Proof. intros Q. by apply requests_settle, requests_xhr_abort. Qed.

Lemma requests_run_listener s l :
  timers_of_requests s → timers_of_requests (run_listener s l).
Proof.
  intros Q. destruct l as [u|u]; simpl.
  - by apply requests_xhr_abort.
  - by apply requests_settle.
Qed.

Lemma requests_foldl {A} (f : Api → A → Api) (L : list A) s :
  (∀ s a, timers_of_requests s → timers_of_requests (f s a)) →
  timers_of_requests s → timers_of_requests (foldl f s L).
Proof.
  intros Hf. revert s. induction L as [|a L IH]; intros s Q; [done|].
  simpl. by apply IH, Hf.
Qed.

Lemma requests_abort s c :
  timers_of_requests s → timers_of_requests (abort c s).
Proof.
  intros Q. unfold abort. destruct (controllers s !! c) as [k|]; [|done].
  destruct (aborted k); [done|].
  apply requests_foldl; [apply requests_run_listener|done].
Qed.

Lemma requests_drain s : timers_of_requests s → timers_of_requests (drain s).
Proof. intros Q e. rewrite timers_drain, xhr_of_drain. apply Q. Qed.

Lemma requests_task (f : Api → Api) s :
  (∀ s, timers_of_requests s → timers_of_requests (f s)) →
  timers_of_requests s → timers_of_requests (task f s).
Proof. intros Hf Q. by apply requests_drain, Hf, requests_drain. Qed.

Lemma requests_onprogress s u l t :
  xhr_of s u ≠ None →
  timers_of_requests s → timers_of_requests (onprogress u l t s).
Proof.
  intros Hx Q e. unfold onprogress, setTimeout. cbn [timers set_timers].
  assert (∀ v, xhr_of (set_timers
                         (insert_timer (u, (now (update u (with_progress l t)
                                                   (clearTimeout u s)) + 30000)%Z)
                            (timers (update u (with_progress l t)
                                       (clearTimeout u s))))
                         (update u (with_progress l t) (clearTimeout u s))) v
               = xhr_of s v) as E.
  { intros v. unfold xhr_of. cbn [heap set_timers]. rewrite lookup_update.
    cbn [heap clearTimeout set_timers].
    destruct (decide (u = v)) as [->|]; [|done].
    by destruct (heap s !! v). }
  rewrite E. intros [->|He]%elem_of_insert_timer; [done|].
  simpl in He. apply list_elem_of_filter in He as [_ He]. by apply Q.
Qed.

Lemma requests_runCallbacks s t :
  timers_of_requests s → timers_of_requests (runCallbacks (set_now t s)).
Proof.
  intros Q. unfold runCallbacks.
  apply requests_foldl; [intros; by apply requests_timeoutFn|].
  intros e. simpl. intros [_ He]%list_elem_of_filter. by apply Q.
Qed.

Lemma requests_after_upload file o s :
  timers_owned s →
  timers_of_requests s → timers_of_requests (after_upload file o s).
Proof.
  intros O Q e He.
  assert (e ∈ timers s → xhr_of (after_upload file o s) e.1 ≠ None) as Hold.
  { intros He'. rewrite xhr_of_after_upload; [by apply Q|].
    apply O in He'. lia. }
  simpl in He. destruct (has_XMLHttpRequest s) eqn:Hx; [|by apply Hold].
  apply elem_of_insert_timer in He as [->|He]; [|by apply Hold].
  simpl. by rewrite xhr_of_new_upload, Hx.
Qed.

Lemma requests_step s e :
  wf s → timers_of_requests s → timers_of_requests (step s e).
Proof.
  intros W Q. destruct e as [|file o|p|c| |u l t|u rs r|dt|u r]; cbn [step].
  - done.
  - destruct (valid_opts s o); [|done].
    rewrite (proj2 (uc_result file o s)).
    apply requests_after_upload; [apply W|done].
  - unfold cancelUpload. destruct (List.find _ _) as [v|]; [|done]. simpl.
    destruct (controller_of s v); [by apply requests_abort|done].
  - by apply requests_abort.
  - by apply requests_drain.
  - apply requests_task; [|done]. intros s0 Q0.
    destruct (xhr_of s0 u) eqn:Hx; [|done].
    apply requests_onprogress; [by rewrite Hx|done].
  - apply requests_task; [|done]. intros s0 Q0.
    destruct (xhr_of s0 u) eqn:Hx; [|done].
    apply requests_onreadystatechange, requests_set_xhr; [by rewrite Hx|done].
  - destruct (dt <? 0)%Z; [done|].
    apply requests_task; [|done]. intros s0 Q0. by apply requests_runCallbacks.
  - apply requests_task; [|done]. intros s0 Q0. unfold ondelegated.
    destruct (request_of s0 u); [by apply requests_settle|done].
Qed.

Lemma requests_run s evs :
  wf s → timers_of_requests s → timers_of_requests (run s evs).
Proof.
  revert s. induction evs as [|e evs IH]; intros s W Q; [done|].
  simpl. apply IH; [by apply wf_step|by apply requests_step].
Qed.

Lemma reachable_requests s : reachable s → timers_of_requests s.
Proof.
  intros (cfg & xhr & evs & ->). apply requests_run; [apply wf_new_api|].
  by intros e ?%elem_of_nil.
Qed.

Lemma reachable_run s evs : reachable s → reachable (run s evs).
Proof.
  intros (cfg & xhr & evs0 & ->). exists cfg, xhr, (evs0 ++ evs).
  unfold run. by rewrite foldl_app.
Qed.

Lemma request_or_xhr s u :
  request_of s u ≠ None → xhr_of s u = None.
Proof.
  unfold request_of, xhr_of. destruct (heap s !! u) as [up|]; [|done].
  by destruct (transport up).
Qed.

Lemma delegated_stays_pending s u e :
  wf s → timers_of_requests s → u ∈ uploads s → xhr_of s u = None →
  ¬ by_request_or_abort u e →
  u ∈ uploads (step s e) ∧ xhr_of (step s e) u = None.
Proof.
  intros W Q Hin Hx He.
  pose proof (wf_consistent _ W) as C.
  pose proof (c_allocated _ _ C u Hin) as Hlt.
  assert (deferred_of (step s e) u = Pending) as Hp.
  { destruct (pending_dec (deferred_of (step s e) u)) as [|Hs]; [done|].
    apply settled_settles in Hs; [|done|by apply (wf_live _ W)].
    exfalso. inversion Hs as [r Hx'|r Hq|dt d Hdt Hd Hle|c k|p c k]; subst.
    - done.
    - by apply He.
    - by apply (Q (u, d)).
    - by apply He.
    - by apply He. }
  split.
  - apply (c_registered _ _ (wf_consistent _ (wf_step s e W))); [|done].
    pose proof (step_heap_length s e W). lia.
  - by apply (step_wiring s e u W Hlt).
Qed.

(** X12.  The delegated strategy has no timeout of its own: an upload
    that was handed to [authedRequest] is settled only by the settlement
    of that request or by an abort.  Across any other events, however much
    time passes and whatever the streaming requests report, it stays
    registered and pending. *)
Theorem X12_delegated_upload_never_times_out s u evs :
  reachable s → u ∈ uploads s → request_of s u ≠ None →
  (∀ e, e ∈ evs → ¬ by_request_or_abort u e) →
  u ∈ uploads (run s evs) ∧ deferred_of (run s evs) u = Pending
  ∧ ¬ has_timer (run s evs) u.
Proof.
  intros R Hin Hq Hev.
  assert (u ∈ uploads (run s evs) ∧ xhr_of (run s evs) u = None) as [Hin' Hx'].
  { pose proof (reachable_wf s R) as W.
    pose proof (reachable_requests s R) as Q.
    pose proof (request_or_xhr s u Hq) as Hx. clear R Hq.
    revert s W Q Hin Hx. induction evs as [|e evs IH]; intros s W Q Hin Hx;
      [done|].
    destruct (delegated_stays_pending s u e W Q Hin Hx) as [Hin1 Hx1].
    { apply Hev. by left. }
    simpl. apply IH; try done.
    - intros e' He'. apply Hev. by right.
    - by apply wf_step.
    - by apply requests_step. }
  pose proof (reachable_run s evs R) as R'.
  split; [done|]. split.
  - by apply (wf_live _ (reachable_wf _ R')).
  - intros [d Hd]. by apply (reachable_requests _ R' (u, d)).
Qed.

End Delegated.

(** ** The timeout of a streaming upload *)
Section Lifetime.
Context `{Collaborators}.
Implicit Types (s : Api) (u v : nat).

(** X13.  A streaming upload whose progress events are less than 30
    seconds apart, the first less than 30 seconds after the start, stays
    registered and pending however long it takes; and 30 seconds without
    a progress event, at any point, settle it and remove its handle. *)
Theorem X13_progress_keeps_the_upload_alive file o s ticks :
  wf s → valid_opts s o = true → has_XMLHttpRequest s = true →
  Forall (λ tick : Z * (Z * Z), (0 ≤ tick.1 < 30000)%Z) ticks →
  let u := (uploadContent file o s).1 in
  let s1 := (uploadContent file o s).2 in
  let s2 := run s1 (ticking u ticks) in
  u ∈ uploads s2
  ∧ deferred_of s2 u = Pending
  ∧ (∀ dt, (30000 ≤ dt)%Z →
        deferred_of (step s2 (Elapse dt)) u ≠ Pending
        ∧ u ∉ uploads (step s2 (Elapse dt))).
Proof.
  intros W Hv Hx Hticks. cbv zeta.
  rewrite !(proj1 (uc_result file o s)), !(proj2 (uc_result file o s)).
  pose proof (wf_after_upload file o s W Hv) as W1.
  set (u := length (heap s)). set (s1 := after_upload file o s).
  assert (u ∈ uploads s1) as Hu by apply new_upload_registered.
  assert (xhr_of s1 u ≠ None) as Hxu by (by apply new_upload_streaming).
  assert (armed_at s1 u (now s1)) as Ha by (by apply (armed_on_start file o s)).
  destruct (ticks_keep_alive ticks s1 u W1 Hu Hxu Ha Hticks)
    as (Hin & Hp & Ha2).
  split; [done|]. split; [done|]. intros dt Hdt.
  pose proof (wf_run s1 (ticking u ticks) W1) as W2.
  assert (settles (run s1 (ticking u ticks)) u (Elapse dt)) as Hset.
  { apply (silence_times_out _ _ _ _ Ha2); lia. }
  split; [by apply settles_settled|].
  intros Hin'. apply registry_after in Hin' as [_ Hns]; [|done|by intros ?].
  by apply Hns.
Qed.

End Lifetime.

(** ** The registry and the configuration over the life of an instance *)
Section Lifelong.
Context `{Collaborators}.
Implicit Types (s : Api) (u v : nat).

Lemma opts_touches P s s' : touches P s s' → opts s' = opts s.
Proof. intros T. apply T. Qed.

Lemma opts_abort s c : consistent s → opts (abort c s) = opts s.
Proof.
  intros C. destruct (controllers s !! c) as [k|] eqn:Hk;
    [|by unfold abort; rewrite Hk].
  destruct (aborted k) eqn:Hab; [by unfold abort; rewrite Hk, Hab|].
  by rewrite (opts_touches _ _ _ (abort_touches s c k C Hk Hab)).
Qed.

Lemma opts_task (f : Api → Api) s :
  (∀ s, opts (f s) = opts s) → opts (task f s) = opts s.
Proof. intros Hf. unfold task. by rewrite opts_drain, Hf, opts_drain. Qed.

Lemma opts_step s e : wf s → opts (step s e) = opts s.
Proof.
  intros W. pose proof (wf_consistent _ W) as C.
  destruct e as [|file o|p|c| |u l t|u rs r|dt|u r]; cbn [step].
  - done.
  - destruct (valid_opts s o); [|done]. by rewrite (proj2 (uc_result file o s)).
  - unfold cancelUpload. destruct (List.find _ _) as [v|]; [|done]. simpl.
    destruct (controller_of s v); [by apply opts_abort|done].
  - by apply opts_abort.
  - apply opts_drain.
  - apply opts_task. intros s0. by destruct (xhr_of s0 u).
  - apply opts_task. intros s0. destruct (xhr_of s0 u); [|done].
    by rewrite (opts_touches _ _ _
                  (touches_onreadystatechange (λ _, True) _ u I)).
  - destruct (dt <? 0)%Z; [done|]. apply opts_task. intros s0.
    unfold runCallbacks.
    by rewrite (opts_touches _ _ _
                  (touches_timeouts (λ _, True) _ _ (λ _ _, I))).
  - apply opts_task. intros s0.
    by rewrite (opts_touches _ _ _ (touches_ondelegated (λ _, True) s0 u r I)).
Qed.

(** X14.  [getContentUri] depends on the configuration alone, which no
    call and no event changes: at every later point it reports the
    configured base URL, the media prefix followed by [/upload], and the
    configured access token, the token also when requests carry it in the
    [Authorization] header. *)
Theorem X14_content_uri_is_fixed_by_the_configuration s evs :
  wf s →
  getContentUri (run s evs)
  = {| base := baseUrl (opts s);
       path := MediaPrefix_R0 +:+ "/upload";
       params := [("access_token", accessToken (opts s))] |}.
Proof.
  intros W. unfold getContentUri.
  assert (opts (run s evs) = opts s) as ->; [|done].
  revert s W. induction evs as [|e evs IH]; intros s W; [done|].
  simpl. rewrite IH by (by apply wf_step). by apply opts_step.
Qed.

(** *** The order of the registry *)

Lemma sorted_sublist (l' l : list nat) :
  l' `sublist_of` l → StronglySorted lt l → StronglySorted lt l'.
Proof.
  induction 1 as [|x l1 l2 Hsub IH|x l1 l2 Hsub IH]; intros Hs.
  - done.
  - apply StronglySorted_cons in Hs as [Hall Hs].
    apply StronglySorted_cons. split; [|by apply IH].
    rewrite Forall_forall in *. intros y Hy. apply Hall.
    by eapply elem_of_sublist.
  - apply StronglySorted_cons in Hs as [_ Hs]. by apply IH.
Qed.

Lemma sorted_seq n : StronglySorted lt (seq 0 n).
Proof.
  induction n as [|n IH]; [constructor|].
  rewrite seq_S. apply StronglySorted_app_2; [|done|].
  - intros x y Hx ->%list_elem_of_singleton. apply elem_of_seq in Hx. lia.
  - repeat constructor.
Qed.

Lemma order_step s e : wf s → in_start_order s → in_start_order (step s e).
Proof.
  intros W Ho. unfold in_start_order in *.
  destruct (decide (is_upload_call e)) as [Hup|Hup].
  - destruct e; try done. cbn [step].
    destruct (valid_opts s o); [|done].
    rewrite (proj2 (uc_result file o s)). simpl.
    apply StronglySorted_app_2; [|done|repeat constructor].
    intros x y Hx ->%list_elem_of_singleton.
    by apply (c_allocated _ _ (wf_consistent _ W)).
  - apply (sorted_sublist _ (uploads s)); [|done].
    by apply step_registry.
Qed.

Lemma reachable_order s : reachable s → in_start_order s.
Proof.
  intros (cfg & xhr & evs & ->).
  assert (∀ s, wf s → in_start_order s → in_start_order (run s evs)) as Hrun.
  { induction evs as [|e evs IH]; intros s W Ho; [done|].
    simpl. apply IH; [by apply wf_step|by apply order_step]. }
  apply Hrun; [apply wf_new_api|]. unfold in_start_order. simpl. constructor.
Qed.

(** X15.  At every point of the life of an instance, [getCurrentUploads]
    is the list of the uploads that are not settled, each once, in the
    order in which they were started. *)
Theorem X15_registry_is_the_unsettled_uploads_in_start_order s :
  reachable s →
  getCurrentUploads s
  = filter (λ u, deferred_of s u = Pending) (seq 0 (length (heap s))).
Proof.
  intros R. pose proof (reachable_wf s R) as W.
  pose proof (wf_consistent _ W) as C. unfold getCurrentUploads.
  apply (StronglySorted_unique_strong lt).
  - intros x y _ _ ? ?. lia.
  - by apply reachable_order.
  - apply (sorted_sublist _ (seq 0 (length (heap s)))); [|apply sorted_seq].
    apply sublist_filter.
  - apply NoDup_Permutation.
    + apply C.
    + apply NoDup_filter, NoDup_seq.
    + intros u. rewrite list_elem_of_filter, elem_of_seq. split.
      * intros Hin. split; [by apply (wf_live _ W)|].
        pose proof (c_allocated _ _ C u Hin). lia.
      * intros [Hp [_ Hlt]]. by apply (c_registered _ _ C).
Qed.

End Lifelong.

(** * The claims on a concrete instance *)

Import Fixture.
#[local] Existing Instance host.

Lemma wf_uploading : wf uploading.
Proof. apply wf_run, wf_new_api. Qed.

(** C1 (the code at the failing input).  With [rawResponse: true], and
    with [onlyContentUri: true], a success response resolves the future to
    the parsed body: the options are not read. *)
Theorem C1_response_options_are_ignored :
  promise_of (run browser [CallUploadContent a_file raw_opts;
                           XhrReadyStateChange 0 DONE (ok body)]) 0
  = Resolved (ParsedBody (Parsed body))
  ∧ promise_of (run browser [CallUploadContent a_file uri_opts;
                             XhrReadyStateChange 0 DONE (ok body)]) 0
    = Resolved (ParsedBody (Parsed body))
  ∧ uploadContent a_file raw_opts browser = uploadContent a_file no_opts browser
  ∧ uploadContent a_file uri_opts headless = uploadContent a_file no_opts headless.
Proof. repeat split. Qed.

(** C2 (counterexample).  When the payload has been handed to
    [xhr.send], nothing has been pushed on the registry yet. *)
Lemma C2_payload_sent_before_push :
  let s0 := (uploadContent_transport a_file no_opts browser).2 in
  (∃ x, xhr_of s0 0 = Some x ∧ req_body x = Some a_file ∧ send_flag x = true)
  ∧ (0 ∉ uploads s0)
  ∧ uploads (uploadContent a_file no_opts browser).2 = [0].
Proof.
  split; [|split].
  - eexists. by repeat split.
  - apply not_elem_of_nil.
  - done.
Qed.

Lemma C2_witness :
  wf browser ∧ valid_opts browser no_opts = true
  ∧ uploads (uploadContent a_file no_opts browser).2 = uploads browser ++ [0]
  ∧ uploads (step (uploadContent a_file no_opts browser).2
               (XhrReadyStateChange 0 DONE (ok body))) = uploads browser.
Proof.
  split; [apply wf_new_api|]. split; [reflexivity|].
  destruct (C2_one_handle_pushed_and_removed a_file no_opts browser
              (wf_new_api cfg true) eq_refl) as (_ & E & _ & Hdone & _).
  split; [exact E|]. exact (Hdone eq_refl (ok body)).
Defined.


(** C3 (witness): the terminal state of the request settles the one
    upload in flight, and a later timeout or abort changes nothing. *)
Lemma C3_witness :
  wf uploading ∧ 0 ∈ uploads uploading
  ∧ settles uploading 0 (XhrReadyStateChange 0 DONE (ok body))
  ∧ deferred_of (run (step uploading (XhrReadyStateChange 0 DONE (ok body)))
                   [Elapse 30000; CallCancelUpload 0]) 0
    = deferred_of (step uploading (XhrReadyStateChange 0 DONE (ok body))) 0.
Proof.
  assert (0 ∈ uploads uploading) as Hin by (by apply list_elem_of_singleton).
  assert (settles uploading 0 (XhrReadyStateChange 0 DONE (ok body))) as Hset
    by (by apply settles_done).
  split; [apply wf_uploading|]. split; [exact Hin|]. split; [exact Hset|].
  destruct (C3_completion_settles_once uploading 0 _ wf_uploading Hin Hset)
    as (_ & Hall & _).
  exact (proj1 (Hall [Elapse 30000; CallCancelUpload 0])).
Defined.

(** C4 (counterexample).  The upload was started with a controller whose
    signal had fired: [cancelUpload] returns true, the deferred stays
    pending, the handle stays registered, and a second call returns true
    again. *)
Lemma C4_cancel_after_fired_signal :
  0 ∈ uploads started_aborted
  ∧ deferred_of started_aborted 0 = Pending
  ∧ (cancelUpload 0 started_aborted).1 = true
  ∧ deferred_of (cancelUpload 0 started_aborted).2 0 = Pending
  ∧ promise_of (step (cancelUpload 0 started_aborted).2 TaskEnd) 0 = Pending
  ∧ 0 ∈ uploads (cancelUpload 0 started_aborted).2
  ∧ (cancelUpload 0 (cancelUpload 0 started_aborted).2).1 = true.
Proof.
  repeat split; try done; by apply list_elem_of_singleton.
Qed.

Lemma C4_witness :
  wf uploading ∧ 0 ∈ uploads uploading
  ∧ (cancelUpload 0 uploading).1 = true
  ∧ (0 ∉ uploads (cancelUpload 0 uploading).2)
  ∧ cancelUpload 0 (run (cancelUpload 0 uploading).2 [TaskEnd])
    = (false, run (cancelUpload 0 uploading).2 [TaskEnd]).
Proof.
  assert (0 ∈ uploads uploading) as Hin by (by apply list_elem_of_singleton).
  split; [apply wf_uploading|]. split; [exact Hin|].
  destruct (C4_cancel_rejects_and_unregisters uploading 0 0
              {| aborted := false; listeners := [AbortXhr 0; AbortUpload 0] |}
              wf_uploading Hin eq_refl eq_refl eq_refl)
    as (Htrue & _ & _ & Hout & Hlater & _).
  split; [exact Htrue|]. split; [exact Hout|]. exact (Hlater [TaskEnd]).
Defined.

(** C5 (the code at the failing input).  Thirty seconds of silence after
    the start: the transfer is aborted, and the completion future is
    rejected with the AbortError that the abort reports, not with
    [Error "Timeout"]. *)
Theorem C5_timeout_rejects_with_abort_error :
  let s := run browser [CallUploadContent a_file no_opts; Elapse 30000] in
  promise_of s 0 = Rejected (DOMException "" "AbortError")
  ∧ promise_of s 0 ≠ Rejected (Error "Timeout")
  ∧ (readyState <$> xhr_of s 0) = Some UNSENT
  ∧ uploads s = []
  ∧ deferred_of (run browser [CallUploadContent a_file no_opts; Elapse 29999]) 0
    = Pending.
Proof. by repeat split. Qed.

(** C6 (counterexample).  Status 200 with an empty body: the rejection is
    a [ConnectionError], which is not named ProtocolError. *)
Lemma C6_empty_body_is_not_a_protocol_error :
  let s := run browser [CallUploadContent a_file no_opts;
                        XhrReadyStateChange 0 DONE (ok "")] in
  promise_of s 0
  = Rejected (ConnectionError "request failed" (Error "No response body."))
  ∧ ¬ ∃ e, promise_of s 0 = Rejected e ∧ err_name e = "ProtocolError".
Proof.
  split; [done|]. intros (e & E & Hn).
  change (promise_of
            (run browser [CallUploadContent a_file no_opts;
                          XhrReadyStateChange 0 DONE (ok "")]) 0)
    with (Rejected (A := UploadResponse)
            (ConnectionError "request failed" (Error "No response body.")))
    in E.
  injection E as <-. done.
Qed.

Lemma C6_witness :
  wf uploading ∧ 0 ∈ uploads uploading ∧ xhr_of uploading 0 ≠ None
  ∧ status (ok "") ≠ 0%Z ∧ responseText (ok "") = ""
  ∧ promise_of (step uploading (XhrReadyStateChange 0 DONE (ok ""))) 0
    = Rejected (ConnectionError "request failed" (Error "No response body.")).
Proof.
  assert (0 ∈ uploads uploading) as Hin by (by apply list_elem_of_singleton).
  assert (xhr_of uploading 0 ≠ None) as Hx by done.
  assert (status (ok "") ≠ 0%Z) as Hst by done.
  split; [apply wf_uploading|]. split; [exact Hin|]. split; [exact Hx|].
  split; [exact Hst|]. split; [reflexivity|].
  exact (C6_empty_body_rejects_with_connection_error uploading 0 (ok "")
           wf_uploading Hin Hx Hst eq_refl).
Defined.

(** C7 (witness): a terminal state with status zero, nobody having
    aborted. *)
Lemma C7_witness :
  wf uploading ∧ 0 ∈ uploads uploading ∧ xhr_of uploading 0 ≠ None
  ∧ status network_error = 0%Z
  ∧ (aborted <$> controllers uploading !! 0) = Some false
  ∧ promise_of (step uploading (XhrReadyStateChange 0 DONE network_error)) 0
    = Rejected (DOMException "" "AbortError").
Proof.
  assert (0 ∈ uploads uploading) as Hin by (by apply list_elem_of_singleton).
  assert (xhr_of uploading 0 ≠ None) as Hx by done.
  split; [apply wf_uploading|]. split; [exact Hin|]. split; [exact Hx|].
  split; [reflexivity|]. split; [reflexivity|].
  exact (proj1 (proj2 (C7_status_zero_rejects_with_abort uploading 0
                         network_error wf_uploading Hin Hx eq_refl))).
Defined.

(** C8 (witness): the token goes in the header when the configuration
    asks for it. *)
Lemma C8_witness :
  has_XMLHttpRequest browser = true ∧ accessToken (opts browser) = Some "tok"
  ∧ "tok" ≠ ""
  ∧ ∃ x url,
      xhr_of (uploadContent a_file no_opts browser).2 0 = Some x
      ∧ req_url x = Some url
      ∧ values_of "Authorization" (req_headers x) = ["Bearer tok"]
      ∧ values_of "access_token" (searchParams url) = [].
Proof.
  assert ("tok" ≠ "") as Hne by done.
  split; [reflexivity|]. split; [reflexivity|]. split; [exact Hne|].
  destruct (C8_credential_in_exactly_one_form a_file no_opts browser "tok"
              eq_refl eq_refl Hne) as (x & url & Hx & Hu & Hh & Hq).
  exists x, url. by repeat split.
Defined.

(** C9 (the code at the failing input).  A [Blob] made without a MIME
    type declares the empty string as its type.  With no [opts.type], the
    content type that is resolved and sent is that empty string, on both
    strategies, and not [application/octet-stream], which only a payload
    with no [type] at all gets. *)
Theorem C9_empty_declared_type_is_sent :
  resolve_contentType untyped_blob no_opts = ""
  ∧ resolve_contentType untyped_blob no_opts ≠ "application/octet-stream"
  ∧ (∃ x, xhr_of (uploadContent untyped_blob no_opts browser).2 0 = Some x
          ∧ values_of "Content-Type" (req_headers x) = [""])
  ∧ (∃ q, request_of (uploadContent untyped_blob no_opts headless).2 0 = Some q
          ∧ ar_headers q = [("Content-Type", "")])
  ∧ resolve_contentType a_buffer no_opts = "application/octet-stream".
Proof.
  split; [done|]. split; [done|]. split; [|split; [|done]].
  - eexists. by split.
  - eexists. by split.
Qed.

(** C10 (counterexample).  On a host without [XMLHttpRequest], the upload
    is started with a controller whose signal had fired: the request
    handed to [authedRequest] carries that signal, [authedRequest] rejects
    for it as [fetch] does, and the completion future is rejected with
    that AbortError and the handle removed, no response having come. *)
Lemma C10_fired_signal_cancels_the_delegated_upload :
  0 ∈ uploads delegated_aborted
  ∧ (aborted <$> controllers delegated_aborted !! 0) = Some true
  ∧ (ar_abortSignal <$> request_of delegated_aborted 0) = Some 0
  ∧ promise_of (step delegated_aborted (DelegateSettled 0 fetch_aborted)) 0
    = Rejected (DOMException "The operation was aborted." "AbortError")
  ∧ abort_rejected
      (promise_of (step delegated_aborted (DelegateSettled 0 fetch_aborted)) 0)
  ∧ uploads (step delegated_aborted (DelegateSettled 0 fetch_aborted)) = [].
Proof.
  split; [by apply list_elem_of_singleton|]. split; [done|]. split; [done|].
  split; [done|]. split; [|done]. by eexists.
Qed.

(** C10 (witness): the streaming upload started after the signal had
    fired, across 29 seconds, a cancellation, a progress event, 29 more
    seconds and an abort. *)
Lemma C10_witness :
  wf (run browser [CallNewAbortController; CallAbort 0])
  ∧ opt_abortController (with_controller 0) = Some 0
  ∧ (aborted <$> controllers (run browser [CallNewAbortController; CallAbort 0])
                   !! 0) = Some true
  ∧ transport_silent
      (uploadContent a_file (with_controller 0)
         (run browser [CallNewAbortController; CallAbort 0])).2
      (uploadContent a_file (with_controller 0)
         (run browser [CallNewAbortController; CallAbort 0])).1
      [Elapse 29000; CallCancelUpload 0; XhrProgress 0 1 10; Elapse 29000;
       CallAbort 0]
  ∧ deferred_of
      (run (uploadContent a_file (with_controller 0)
              (run browser [CallNewAbortController; CallAbort 0])).2
         [Elapse 29000; CallCancelUpload 0; XhrProgress 0 1 10; Elapse 29000;
          CallAbort 0])
      (uploadContent a_file (with_controller 0)
         (run browser [CallNewAbortController; CallAbort 0])).1 = Pending.
Proof.
  assert (transport_silent
            (uploadContent a_file (with_controller 0)
               (run browser [CallNewAbortController; CallAbort 0])).2
            (uploadContent a_file (with_controller 0)
               (run browser [CallNewAbortController; CallAbort 0])).1
            [Elapse 29000; CallCancelUpload 0; XhrProgress 0 1 10; Elapse 29000;
             CallAbort 0]) as Hq.
  { repeat split; try (by intros []).
    - intros (_ & d & Hd & Hle). vm_compute in Hd.
      apply list_elem_of_singleton in Hd. injection Hd as ->. by apply Hle.
    - intros (_ & d & Hd & Hle). vm_compute in Hd.
      apply list_elem_of_singleton in Hd. injection Hd as ->. by apply Hle. }
  split; [apply wf_run, wf_new_api|]. split; [reflexivity|].
  split; [reflexivity|]. split; [exact Hq|].
  destruct (C10_fired_signal_runs_no_listener a_file (with_controller 0)
              (run browser [CallNewAbortController; CallAbort 0]) 0
              {| aborted := true; listeners := [] |}
              (wf_run _ _ (wf_new_api cfg true)) eq_refl eq_refl eq_refl)
    as (_ & _ & _ & Hall & _).
  exact (proj1 (proj2 (Hall _ Hq))).
Defined.

(** * The further properties on concrete instances *)

Import Scenario.

Lemma wf_sharing : wf sharing.
Proof. apply wf_run, wf_new_api. Qed.

Lemma wf_delegating : wf delegating.
Proof. apply wf_run, wf_new_api. Qed.

Lemma uploading_registered : 0 ∈ uploads uploading.
Proof. by apply list_elem_of_singleton. Qed.

Lemma delegating_registered : 0 ∈ uploads delegating.
Proof. by apply list_elem_of_singleton. Qed.

(** X2 (witness): a progress event of the upload in flight. *)
Lemma X2_witness :
  progress_of (step uploading (XhrProgress 0 5 10)) 0 = Some (5%Z, 10%Z)
  ∧ uploads (step uploading (XhrProgress 0 5 10)) = uploads uploading.
Proof.
  assert (∃ up, heap uploading !! 0 = Some up) as [up Hup]
    by (eexists; reflexivity).
  assert (xhr_of uploading 0 ≠ None) as Hx by done.
  destruct (X2_progress_updates_the_handle uploading 0 5 10 up
              wf_uploading uploading_registered Hup Hx)
    as (E & _ & _ & Er & _).
  split; [exact E|exact Er].
Defined.

(** X3 (witness): a 404 with a body. *)
Lemma X3_witness :
  promise_of (step uploading (XhrReadyStateChange 0 DONE not_found)) 0
  = Rejected (HostError "M_UNKNOWN" "{}").
Proof.
  assert (xhr_of uploading 0 ≠ None) as Hx by done.
  assert ((400 ≤ status not_found)%Z) as Hst by (simpl; lia).
  assert (responseText not_found ≠ "") as Hb by done.
  destruct (X3_remote_error_rejects_with_the_parsed_error uploading 0 not_found
              wf_uploading uploading_registered Hx Hst Hb) as (E & _).
  exact (E (HostError "M_UNKNOWN" "{}") eq_refl).
Defined.

(** X4 (witness): a redirect with a JSON body resolves; a success whose
    body is not JSON is a connection error. *)
Lemma X4_witness :
  promise_of (step uploading (XhrReadyStateChange 0 DONE redirect)) 0
  = Resolved (ParsedBody (Parsed "{}"))
  ∧ promise_of (step uploading (XhrReadyStateChange 0 DONE garbled)) 0
    = Rejected (ConnectionError "request failed"
                  (HostError "SyntaxError" "Unexpected token")).
Proof.
  assert (xhr_of uploading 0 ≠ None) as Hx by done.
  assert (status redirect ≠ 0%Z) as Hz by done.
  assert ((status redirect < 400)%Z) as Hst by (simpl; lia).
  assert (responseText redirect ≠ "") as Hb by done.
  assert (status garbled ≠ 0%Z) as Hz' by done.
  assert ((status garbled < 400)%Z) as Hst' by (simpl; lia).
  assert (responseText garbled ≠ "") as Hb' by done.
  assert (err_name (HostError "SyntaxError" "Unexpected token") ≠ "AbortError")
    as Hn by done.
  split.
  - destruct (X4_body_below_400_is_parsed_as_json uploading 0 redirect
                wf_uploading uploading_registered Hx Hz Hst Hb) as (E & _).
    exact (E (Parsed "{}") eq_refl).
  - destruct (X4_body_below_400_is_parsed_as_json uploading 0 garbled
                wf_uploading uploading_registered Hx Hz' Hst' Hb') as (_ & E).
    exact (E (HostError "SyntaxError" "Unexpected token") eq_refl Hn).
Defined.

(** X5 (witness): the headers of the response arrive. *)
Lemma X5_witness :
  deferred_of (step uploading (XhrReadyStateChange 0 HEADERS_RECEIVED (ok body))) 0
  = Pending
  ∧ timers (step uploading (XhrReadyStateChange 0 HEADERS_RECEIVED (ok body)))
    = timers uploading.
Proof.
  assert (∃ x, xhr_of uploading 0 = Some x) as [x Hx] by (eexists; reflexivity).
  assert (HEADERS_RECEIVED ≠ DONE) as Hrs by done.
  destruct (X5_intermediate_states_change_nothing uploading 0 HEADERS_RECEIVED
              (ok body) x wf_uploading uploading_registered Hx Hrs)
    as (E & _ & Et & _).
  split; [exact E|exact Et].
Defined.

(** X6 (witness): the response arrives, then a minute passes. *)
Lemma X6_witness :
  timers (step uploading (XhrReadyStateChange 0 DONE (ok body)))
  = filter (λ e, e.1 ≠ 0) (timers uploading)
  ∧ (readyState
       <$> xhr_of (step (step uploading (XhrReadyStateChange 0 DONE (ok body)))
                     (Elapse 60000)) 0) = Some DONE.
Proof.
  assert (∃ x, xhr_of uploading 0 = Some x) as [x Hx] by (eexists; reflexivity).
  destruct (X6_terminal_state_clears_the_timeout uploading 0 (ok body) x Hx)
    as (Et & _ & _ & Hl).
  split; [exact Et|]. by rewrite (Hl 60000%Z).
Defined.

(** X7 (witness): two uploads started with one controller; cancelling
    the first cancels the second. *)
Lemma X7_witness :
  cancelUpload 0 sharing = (true, abort 0 sharing)
  ∧ (1 ∉ uploads (abort 0 sharing))
  ∧ abort_rejected (deferred_of (abort 0 sharing) 1).
Proof.
  assert (0 ∈ uploads sharing) as H0 by (apply list_elem_of_here).
  assert (1 ∈ uploads sharing) as H1
    by (apply list_elem_of_further, list_elem_of_here).
  destruct (X7_abort_cancels_the_uploads_of_its_controller sharing 0
              {| aborted := false;
                 listeners := [AbortXhr 0; AbortUpload 0;
                               AbortXhr 1; AbortUpload 1] |}
              wf_sharing eq_refl eq_refl) as (Hc & _ & Hp).
  split; [exact (Hp 0 H0 eq_refl)|].
  destruct (Hc 1 H1 eq_refl) as [Hr Hout]. split; [exact Hout|exact Hr].
Defined.

(** X8 (witness): a second upload, without a controller of the caller,
    beside the one in flight. *)
Lemma X8_witness :
  controller_of (uploadContent a_file no_opts uploading).2
    (uploadContent a_file no_opts uploading).1 = Some (length (controllers uploading))
  ∧ 0 ∈ uploads (cancelUpload (uploadContent a_file no_opts uploading).1
                   (uploadContent a_file no_opts uploading).2).2.
Proof.
  destruct (X8_default_controller_is_private a_file no_opts uploading
              wf_uploading eq_refl) as (Hc & _ & Hk & _).
  split; [exact Hc|]. exact (proj1 (Hk 0 uploading_registered)).
Defined.

(** X9 (witness): the upload in flight, and a future that was never
    returned. *)
Lemma X9_witness :
  (cancelUpload 0 uploading).1 = true
  ∧ ((cancelUpload 7 uploading).1 = false → (cancelUpload 7 uploading).2 = uploading).
Proof.
  destruct (X9_cancelUpload_reports_whether_the_upload_is_in_flight uploading 0
              wf_uploading) as [Ht _].
  destruct (X9_cancelUpload_reports_whether_the_upload_is_in_flight uploading 7
              wf_uploading) as [_ Hf].
  split; [|exact Hf]. apply Ht. split; [simpl; lia|reflexivity].
Defined.

(** X10 (witness): an upload is started and cancelled at once, with a
    streaming request and with a delegated one. *)
Lemma X10_witness :
  deferred_of (cancelUpload (uploadContent a_file no_opts browser).1
                 (uploadContent a_file no_opts browser).2).2
    (uploadContent a_file no_opts browser).1
  = Rejected (DOMException "" "AbortError")
  ∧ deferred_of (cancelUpload (uploadContent a_file no_opts headless).1
                   (uploadContent a_file no_opts headless).2).2
      (uploadContent a_file no_opts headless).1
    = Rejected (DOMException "Aborted" "AbortError").
Proof.
  split.
  - destruct (X10_cancel_aborts_the_request a_file no_opts browser new_controller
                (wf_new_api cfg true) eq_refl eq_refl) as (_ & _ & Hs & _).
    exact (proj1 (Hs eq_refl)).
  - destruct (X10_cancel_aborts_the_request a_file no_opts headless new_controller
                (wf_new_api cfg false) eq_refl eq_refl) as (_ & _ & _ & Hd).
    exact (Hd eq_refl).
Defined.

(** X11 (witness): the delegated request is rejected, and it is
    answered. *)
Lemma X11_witness :
  promise_of (step delegating
                (DelegateSettled 0 (Throw (HostError "M_FORBIDDEN" "no")))) 0
  = Rejected (HostError "M_FORBIDDEN" "no")
  ∧ promise_of (step delegating (DelegateSettled 0 (Normal "{}"))) 0
    = Resolved (ParsedBody (Parsed "{}")).
Proof.
  assert (request_of delegating 0 ≠ None) as Hq by done.
  assert (onlyData (opts delegating) ≠ Some true) as Ho by done.
  split.
  - destruct (X11_delegated_outcome_is_forwarded delegating 0
                (Throw (HostError "M_FORBIDDEN" "no"))
                wf_delegating delegating_registered Hq) as (E & _).
    exact (E _ eq_refl).
  - destruct (X11_delegated_outcome_is_forwarded delegating 0 (Normal "{}")
                wf_delegating delegating_registered Hq) as (_ & _ & E & _).
    exact (E "{}" eq_refl Ho).
Defined.

(** X12 (witness): an hour passes over a delegated upload. *)
Lemma X12_witness :
  0 ∈ uploads (run delegating [Elapse 3600000; TaskEnd])
  ∧ deferred_of (run delegating [Elapse 3600000; TaskEnd]) 0 = Pending.
Proof.
  assert (reachable delegating) as R.
  { exists cfg, false, [CallUploadContent a_file no_opts]. reflexivity. }
  assert (request_of delegating 0 ≠ None) as Hq by done.
  assert (∀ e, e ∈ [Elapse 3600000; TaskEnd] → ¬ by_request_or_abort 0 e) as He.
  { intros e [->|[->|[]%elem_of_nil]%elem_of_cons]%elem_of_cons; by intros ?. }
  destruct (X12_delegated_upload_never_times_out delegating 0
              [Elapse 3600000; TaskEnd] R delegating_registered Hq He)
    as (Hin & Hp & _).
  split; [exact Hin|exact Hp].
Defined.

(** X13 (witness): two progress events, 29 seconds apart, then 30
    seconds of silence. *)
Lemma X13_witness :
  deferred_of
    (run (uploadContent a_file no_opts browser).2
       (ticking (uploadContent a_file no_opts browser).1
          [(29000%Z, (1%Z, 10%Z)); (29999%Z, (2%Z, 10%Z))]))
    (uploadContent a_file no_opts browser).1 = Pending
  ∧ deferred_of
      (step (run (uploadContent a_file no_opts browser).2
               (ticking (uploadContent a_file no_opts browser).1
                  [(29000%Z, (1%Z, 10%Z)); (29999%Z, (2%Z, 10%Z))]))
         (Elapse 30000))
      (uploadContent a_file no_opts browser).1 ≠ Pending.
Proof.
  assert (Forall (λ tick : Z * (Z * Z), (0 ≤ tick.1 < 30000)%Z)
            [(29000%Z, (1%Z, 10%Z)); (29999%Z, (2%Z, 10%Z))]) as Ht.
  { repeat constructor; simpl; lia. }
  assert ((30000 ≤ 30000)%Z) as Hdt by lia.
  destruct (X13_progress_keeps_the_upload_alive a_file no_opts browser _
              (wf_new_api cfg true) eq_refl eq_refl Ht) as (_ & Hp & Hs).
  split; [exact Hp|]. exact (proj1 (Hs 30000%Z Hdt)).
Defined.

(** X14 (witness): after an upload and its cancellation. *)
Lemma X14_witness :
  getContentUri (run browser [CallUploadContent a_file no_opts; CallCancelUpload 0])
  = {| base := "https://hs"; path := "/_matrix/media/r0/upload";
       params := [("access_token", Some "tok")] |}.
Proof.
  exact (X14_content_uri_is_fixed_by_the_configuration browser
           [CallUploadContent a_file no_opts; CallCancelUpload 0]
           (wf_new_api cfg true)).
Defined.

(** X15 (witness): two uploads, the first of which has been answered. *)
Lemma X15_witness :
  getCurrentUploads
    (run browser [CallUploadContent a_file no_opts;
                  CallUploadContent a_file no_opts;
                  XhrReadyStateChange 0 DONE (ok body)])
  = filter (λ u, deferred_of
                   (run browser [CallUploadContent a_file no_opts;
                                 CallUploadContent a_file no_opts;
                                 XhrReadyStateChange 0 DONE (ok body)]) u
                 = Pending)
      (seq 0 (length (heap (run browser [CallUploadContent a_file no_opts;
                                         CallUploadContent a_file no_opts;
                                         XhrReadyStateChange 0 DONE (ok body)])))).
Proof.
  apply X15_registry_is_the_unsettled_uploads_in_start_order.
  exists cfg, true, [CallUploadContent a_file no_opts;
                     CallUploadContent a_file no_opts;
                     XhrReadyStateChange 0 DONE (ok body)].
  reflexivity.
Defined.
